(** * cmdpipe: dispatching a command over a queue and four unix sockets

    A shallow embedding of [pipe.go] (package [cmdpipe]): the Command
    descriptor and its JSON wire form, the Dispatcher ([Send]) and the
    Executor ([CommandConsumer.Consume], [dialAll]), together with the
    parts of the Go standard library they call ([strconv], [unicode/utf8],
    [encoding/json], [path], [strings], [syscall.WaitStatus]).

    Go strings are byte sequences: they are modelled as [string] (a list
    of 8-bit [ascii]).  Go's [int] is 64 bits wide on the platforms the
    program runs on and is modelled as [Z] with the range made explicit
    where it matters. *)

From Stdlib Require Import String Ascii ZArith NArith List Bool Lia.
Import ListNotations.

Set Warnings "-register-all".

Local Open Scope string_scope.

(** ** Bytes and strings *)

Definition byteN (b : ascii) : N := N_of_ascii b.

Definition byteOf (n : N) : ascii := ascii_of_N n.

(** The double quote character (code 34). *)
Definition dquote : ascii := "034"%char.

Definition backslash : ascii := "092"%char.

Fixpoint take (n : nat) (s : string) : string :=
  match n, s with
  | S n', String c s' => String c (take n' s')
  | _, _ => EmptyString
  end.

Fixpoint drop (n : nat) (s : string) : string :=
  match n, s with
  | S n', String _ s' => drop n' s'
  | _, _ => s
  end.

(** [strings.Join] *)
Fixpoint Join (elems : list string) (sep : string) : string :=
  match elems with
  | [] => ""
  | [e] => e
  | e :: rest => e ++ sep ++ Join rest sep
  end.

(** ** unicode/utf8 *)

Module Utf8.

Definition RuneError : N := 0xFFFD.

Definition MaxRune : N := 0x10FFFF.

(** The [first] table and [acceptRanges]: for a leading byte, the length
    of the sequence it starts and the range its second byte must lie in;
    [None] for a byte that starts no multi-byte sequence. *)
Definition first (p0 : N) : option (nat * N * N) :=
  if (p0 <? 0xC2)%N then None
  else if (p0 <? 0xE0)%N then Some (2%nat, 0x80%N, 0xBF%N)
  else if (p0 =? 0xE0)%N then Some (3%nat, 0xA0%N, 0xBF%N)
  else if (p0 <? 0xED)%N then Some (3%nat, 0x80%N, 0xBF%N)
  else if (p0 =? 0xED)%N then Some (3%nat, 0x80%N, 0x9F%N)
  else if (p0 <? 0xF0)%N then Some (3%nat, 0x80%N, 0xBF%N)
  else if (p0 =? 0xF0)%N then Some (4%nat, 0x90%N, 0xBF%N)
  else if (p0 <? 0xF4)%N then Some (4%nat, 0x80%N, 0xBF%N)
  else if (p0 =? 0xF4)%N then Some (4%nat, 0x80%N, 0x8F%N)
  else None.

Definition cont (p : N) : bool := ((0x80 <=? p) && (p <=? 0xBF))%N.

(** [utf8.DecodeRuneInString]: the first rune of [s] and its width in
    bytes; [(RuneError, 1)] for an invalid encoding. *)
Definition DecodeRune (s : string) : N * nat :=
  match s with
  | EmptyString => (RuneError, 0)
  | String b0 s1 =>
    let p0 := byteN b0 in
    if (p0 <? 0x80)%N then (p0, 1)
    else
      match first p0 with
      | None => (RuneError, 1)
      | Some (sz, lo, hi) =>
        match s1 with
        | EmptyString => (RuneError, 1)
        | String b1 s2 =>
          let p1 := byteN b1 in
          if ((p1 <? lo) || (hi <? p1))%N then (RuneError, 1)
          else if (sz <=? 2)%nat then
            (N.lor (N.shiftl (N.land p0 0x1F) 6) (N.land p1 0x3F), 2)
          else
            match s2 with
            | EmptyString => (RuneError, 1)
            | String b2 s3 =>
              let p2 := byteN b2 in
              if negb (cont p2) then (RuneError, 1)
              else if (sz <=? 3)%nat then
                (N.lor (N.lor (N.shiftl (N.land p0 0x0F) 12)
                              (N.shiftl (N.land p1 0x3F) 6))
                       (N.land p2 0x3F), 3)
              else
                match s3 with
                | EmptyString => (RuneError, 1)
                | String b3 _ =>
                  let p3 := byteN b3 in
                  if negb (cont p3) then (RuneError, 1)
                  else
                    (N.lor (N.lor (N.lor (N.shiftl (N.land p0 0x07) 18)
                                         (N.shiftl (N.land p1 0x3F) 12))
                                  (N.shiftl (N.land p2 0x3F) 6))
                           (N.land p3 0x3F), 4)
                end
            end
        end
      end
  end.

Definition surrogate (r : N) : bool := ((0xD800 <=? r) && (r <=? 0xDFFF))%N.

Definition encode3 (r : N) : string :=
  String (byteOf (N.lor 0xE0 (N.shiftr r 12)))
    (String (byteOf (N.lor 0x80 (N.land (N.shiftr r 6) 0x3F)))
       (String (byteOf (N.lor 0x80 (N.land r 0x3F))) EmptyString)).

(** [utf8.EncodeRune] (as [utf8.AppendRune] on an empty buffer). *)
Definition EncodeRune (r : N) : string :=
  if (r <=? 0x7F)%N then String (byteOf r) EmptyString
  else if (r <=? 0x7FF)%N then
    String (byteOf (N.lor 0xC0 (N.shiftr r 6)))
      (String (byteOf (N.lor 0x80 (N.land r 0x3F))) EmptyString)
  else if (MaxRune <? r)%N || surrogate r then encode3 RuneError
  else if (r <=? 0xFFFF)%N then encode3 r
  else
    String (byteOf (N.lor 0xF0 (N.shiftr r 18)))
      (String (byteOf (N.lor 0x80 (N.land (N.shiftr r 12) 0x3F)))
         (String (byteOf (N.lor 0x80 (N.land (N.shiftr r 6) 0x3F)))
            (String (byteOf (N.lor 0x80 (N.land r 0x3F))) EmptyString))).

(** One step of a scan over [s]: [true] when its first byte starts
    nothing valid, so that Go reads it as [(RuneError, 1)]. *)
Definition invalidAt (s : string) : bool :=
  let '(c, size) := DecodeRune s in (c =? RuneError)%N && (size =? 1)%nat.

(** [utf8.ValidString]. *)
Fixpoint validFuel (fuel : nat) (s : string) : bool :=
  match fuel, s with
  | _, EmptyString => true
  | O, _ => false
  | S fuel', _ =>
    if invalidAt s then false
    else validFuel fuel' (drop (snd (DecodeRune s)) s)
  end.

Definition ValidString (s : string) : bool := validFuel (String.length s) s.

(** Each invalid byte replaced by U+FFFD, valid sequences kept: what
    [encoding/json] makes of a string it writes ("coerced to valid
    UTF-8"). *)
Fixpoint toValidFuel (fuel : nat) (s : string) : string :=
  match fuel, s with
  | _, EmptyString => EmptyString
  | O, _ => EmptyString
  | S fuel', String _ s1 =>
    if invalidAt s then encode3 RuneError ++ toValidFuel fuel' s1
    else
      let size := snd (DecodeRune s) in
      take size s ++ toValidFuel fuel' (drop size s)
  end.

Definition ToValidUTF8 (s : string) : string := toValidFuel (String.length s) s.

(** Strings of ASCII bytes. *)
Fixpoint isASCII (s : string) : bool :=
  match s with
  | EmptyString => true
  | String b s' => (byteN b <? 0x80)%N && isASCII s'
  end.

(** The runes of the sequences of two, three and four bytes, and a check
    by enumeration that [EncodeRune] gives every valid sequence back. *)
Definition rangeN (lo hi : N) : list N :=
  map N.of_nat (seq (N.to_nat lo) (N.to_nat hi + 1 - N.to_nat lo)).

Definition rune2 (p0 p1 : N) : N :=
  N.lor (N.shiftl (N.land p0 0x1F) 6) (N.land p1 0x3F).

Definition rune3 (p0 p1 p2 : N) : N :=
  N.lor (N.lor (N.shiftl (N.land p0 0x0F) 12) (N.shiftl (N.land p1 0x3F) 6))
    (N.land p2 0x3F).

Definition rune4 (p0 p1 p2 p3 : N) : N :=
  N.lor (N.lor (N.lor (N.shiftl (N.land p0 0x07) 18) (N.shiftl (N.land p1 0x3F) 12))
           (N.shiftl (N.land p2 0x3F) 6))
    (N.land p3 0x3F).

Definition bytes (l : list N) : string := string_of_list_ascii (map byteOf l).

Definition check (p0 : N) : bool :=
  match first p0 with
  | None => true
  | Some (sz, lo, hi) =>
    forallb (fun p1 =>
      if (sz <=? 2)%nat then
        String.eqb (EncodeRune (rune2 p0 p1)) (bytes [p0; p1])
      else
        forallb (fun p2 =>
          if (sz <=? 3)%nat then
            String.eqb (EncodeRune (rune3 p0 p1 p2)) (bytes [p0; p1; p2])
          else
            forallb (fun p3 =>
              String.eqb (EncodeRune (rune4 p0 p1 p2 p3)) (bytes [p0; p1; p2; p3]))
              (rangeN 0x80 0xBF))
          (rangeN 0x80 0xBF))
      (rangeN lo hi)
  end.

End Utf8.

(** ** strconv *)

Module Strconv.

Local Open Scope Z_scope.

Definition minInt : Z := - 2 ^ 63.

Definition maxInt : Z := 2 ^ 63 - 1.

Definition digit (d : Z) : ascii := byteOf (Z.to_N (48 + d)).

(** [formatBits] in base 10: the digits are written from the least
    significant one, in front of what is already there.  An [int] has at
    most 19 decimal digits. *)
Fixpoint formatLoop (fuel : nat) (u : Z) (a : string) : string :=
  match fuel with
  | O => a
  | S fuel' =>
    if 10 <=? u then formatLoop fuel' (u / 10) (String (digit (u mod 10)) a)
    else String (digit u) a
  end.

Definition Itoa (i : Z) : string :=
  if i <? 0 then String "-" (formatLoop 20 (- i) "") else formatLoop 20 i "".

Definition isDigit (ch : ascii) : bool :=
  ((48 <=? byteN ch) && (byteN ch <=? 57))%N.

Fixpoint parseDigits (n : Z) (s : string) : option Z :=
  match s with
  | EmptyString => Some n
  | String ch s' =>
    if isDigit ch then parseDigits (n * 10 + (Z.of_N (byteN ch) - 48)) s'
    else None
  end.

(** [strconv.Atoi]; [None] stands for a non-nil error (syntax or range). *)
Definition Atoi (s : string) : option Z :=
  match s with
  | EmptyString => None
  | String c rest =>
    let neg := Ascii.eqb c "-" in
    let ds := if neg || Ascii.eqb c "+" then rest else s in
    match ds with
    | EmptyString => None
    | _ =>
      match parseDigits 0 ds with
      | None => None
      | Some un =>
        let n := if neg then - un else un in
        if (minInt <=? n) && (n <=? maxInt) then Some n else None
      end
    end
  end.

End Strconv.

(** ** syscall.WaitStatus (Linux) *)

Module Syscall.

Local Open Scope Z_scope.

Definition mask : Z := 0x7F.

Definition shift : Z := 8.

Definition exited : Z := 0.

Definition Exited (w : Z) : bool := Z.land w mask =? exited.

Definition ExitStatus (w : Z) : Z :=
  if negb (Exited w) then -1 else Z.land (Z.shiftr w shift) 0xFF.

End Syscall.

(** ** path *)

Module Path.

Definition endOrSlash (s : string) : bool :=
  match s with
  | EmptyString => true
  | String c _ => Ascii.eqb c "/"
  end.

Definition byteAt (s : string) (i : nat) : ascii :=
  match String.get i s with
  | Some c => c
  | None => zero
  end.

(** The inner loop of a [..] element:
    [for out.w > dotdot && out.index(out.w) != '/' { out.w-- }]. *)
Fixpoint backLoop (fuel : nat) (out : string) (w dotdot : nat) : nat :=
  match fuel with
  | O => w
  | S fuel' =>
    if (dotdot <? w)%nat && negb (Ascii.eqb (byteAt out w) "/")
    then backLoop fuel' out (w - 1) dotdot
    else w
  end.

Definition backtrack (out : string) (dotdot : nat) : string :=
  let w := (String.length out - 1)%nat in
  take (backLoop w out w dotdot) out.

Fixpoint element (s : string) : string :=
  match s with
  | EmptyString => EmptyString
  | String c s' => if Ascii.eqb c "/" then EmptyString else String c (element s')
  end.

(** The main loop of [path.Clean]: [path] is what is left to read, [out]
    what has been written, [dotdot] the index in [out] where [..] must
    stop. *)
Fixpoint cleanLoop (fuel : nat) (rooted : bool) (path out : string)
    (dotdot : nat) : string :=
  match fuel with
  | O => out
  | S fuel' =>
    match path with
    | EmptyString => out
    | String c p1 =>
      if Ascii.eqb c "/" then cleanLoop fuel' rooted p1 out dotdot
      else if Ascii.eqb c "." && endOrSlash p1 then
        cleanLoop fuel' rooted p1 out dotdot
      else if Ascii.eqb c "."
              && match p1 with
                 | String c1 p2 => Ascii.eqb c1 "." && endOrSlash p2
                 | EmptyString => false
                 end then
        let p2 := drop 1 p1 in
        if (dotdot <? String.length out)%nat then
          cleanLoop fuel' rooted p2 (backtrack out dotdot) dotdot
        else if negb rooted then
          let out' :=
            (if (0 <? String.length out)%nat then out ++ "/" else out) ++ ".." in
          cleanLoop fuel' rooted p2 out' (String.length out')
        else cleanLoop fuel' rooted p2 out dotdot
      else
        let out1 :=
          if (rooted && negb (String.length out =? 1)%nat)
             || (negb rooted && negb (String.length out =? 0)%nat)
          then out ++ "/" else out in
        let elem := element path in
        cleanLoop fuel' rooted (drop (String.length elem) path) (out1 ++ elem)
          dotdot
    end
  end.

(** [path.Clean] *)
Definition Clean (path : string) : string :=
  match path with
  | EmptyString => "."
  | String c _ =>
    let rooted := Ascii.eqb c "/" in
    let out :=
      cleanLoop (String.length path) rooted
        (if rooted then drop 1 path else path)
        (if rooted then "/" else "")
        (if rooted then 1%nat else 0%nat) in
    if (String.length out =? 0)%nat then "." else out
  end.

Fixpoint joinBuf (buf : string) (elem : list string) : string :=
  match elem with
  | [] => buf
  | e :: rest =>
    if (0 <? String.length buf)%nat || negb (String.eqb e "") then
      joinBuf ((if (0 <? String.length buf)%nat then buf ++ "/" else buf) ++ e)
        rest
    else joinBuf buf rest
  end.

(** [path.Join] *)
Definition Join (elem : list string) : string :=
  if forallb (fun e => String.eqb e "") elem then ""
  else Clean (joinBuf "" elem).

End Path.

(** ** strings *)

Module Strings.

(** The pieces of [s] between the occurrences of the byte [sep], the
    piece being read kept in [cur]. *)
Fixpoint splitLoop (sep : ascii) (s cur : string) : list string :=
  match s with
  | EmptyString => [cur]
  | String c s' =>
    if Ascii.eqb c sep then cur :: splitLoop sep s' ""
    else splitLoop sep s' (cur ++ String c "")
  end.

(** [strings.Split(s, sep)] for a separator of one byte. *)
Definition Split (s : string) (sep : ascii) : list string := splitLoop sep s "".

End Strings.

(** ** The Command descriptor *)

(** A Go [[]string]: [NilSlice] is the nil slice, [Slice l] a slice that
    is not nil (of length zero for [Slice []]). *)
Inductive StringSlice : Type :=
| NilSlice
| Slice (l : list string).

Definition elems (s : StringSlice) : list string :=
  match s with
  | NilSlice => []
  | Slice l => l
  end.

Record Command : Type := mkCommand {
  Name : string;
  Params : StringSlice;
  Env : StringSlice;
  Out : string;
  In_ : string;
  Error : string;
  Exit : string
}.

(** [var command Command]: the zero value. *)
Definition zeroCommand : Command := mkCommand "" NilSlice NilSlice "" "" "" "".

Record CommandConsumer : Type := mkConsumer {
  AllowedName : string
}.

(** ** encoding/json, as far as a [Command] goes *)

Module Json.

Local Open Scope N_scope.

Definition hexDigit (n : N) : ascii :=
  if n <? 10 then byteOf (48 + n) else byteOf (87 + n).

(** [htmlSafeSet]: the ASCII bytes a string is written with as they are. *)
Definition htmlSafe (b : N) : bool :=
  (0x20 <=? b) && (b <? 0x80)
  && negb ((b =? 0x22) || (b =? 0x5C) || (b =? 0x3C) || (b =? 0x3E) || (b =? 0x26)).

Definition escapeASCII (b : ascii) : string :=
  let n := byteN b in
  if htmlSafe n then String b ""
  else if (n =? 0x5C) || (n =? 0x22) then String backslash (String b "")
  else if n =? 0x08 then String backslash "b"
  else if n =? 0x0C then String backslash "f"
  else if n =? 0x0A then String backslash "n"
  else if n =? 0x0D then String backslash "r"
  else if n =? 0x09 then String backslash "t"
  else
    String backslash
      (String "u" (String "0" (String "0"
         (String (hexDigit (N.shiftr n 4)) (String (hexDigit (N.land n 0xF)) ""))))).

(** The loop of [appendString] (with [escapeHTML], as [json.Marshal]
    sets it): ASCII bytes are kept or escaped, an invalid byte becomes
    [�], U+2028 and U+2029 are escaped, any other rune is copied. *)
Fixpoint encodeBody (fuel : nat) (s : string) : string :=
  match fuel, s with
  | _, EmptyString => EmptyString
  | O, _ => EmptyString
  | S fuel', String b s1 =>
    if byteN b <? 0x80 then (escapeASCII b ++ encodeBody fuel' s1)%string
    else
      let '(c, size) := Utf8.DecodeRune s in
      if (c =? Utf8.RuneError) && (size =? 1)%nat then
        (String backslash "ufffd" ++ encodeBody fuel' s1)%string
      else if (c =? 0x2028) || (c =? 0x2029) then
        (String backslash "u202" ++ String (hexDigit (N.land c 0xF)) ""
           ++ encodeBody fuel' (drop size s))%string
      else (take size s ++ encodeBody fuel' (drop size s))%string
  end.

Definition appendString (s : string) : string :=
  String dquote (encodeBody (String.length s) s ++ String dquote "").

Fixpoint encodeElems (l : list string) : string :=
  match l with
  | [] => ""
  | [e] => appendString e
  | e :: rest => (appendString e ++ "," ++ encodeElems rest)%string
  end.

(** A nil slice is written [null], any other one as an array. *)
Definition encodeSlice (s : StringSlice) : string :=
  match s with
  | NilSlice => "null"
  | Slice l => ("[" ++ encodeElems l ++ "]")%string
  end.

Definition key (name : string) : string :=
  String dquote (name ++ String dquote ":").

(** [json.Marshal] of a [Command]: the fields in the order of the struct,
    under the names of their tags.  It returns no error for this type. *)
Definition Marshal (c : Command) : string :=
  ("{" ++ key "name" ++ appendString (Name c)
   ++ "," ++ key "params" ++ encodeSlice (Params c)
   ++ "," ++ key "env" ++ encodeSlice (Env c)
   ++ "," ++ key "out" ++ appendString (Out c)
   ++ "," ++ key "in" ++ appendString (In_ c)
   ++ "," ++ key "error" ++ appendString (Error c)
   ++ "," ++ key "exit" ++ appendString (Exit c)
   ++ "}")%string.

(** *** Reading *)

Inductive value : Type :=
| Null
| Bool (b : bool)
| Number
| Str (s : string)
| Array (l : list value)
| Object (members : list (string * value)).

Definition isSpace (c : ascii) : bool :=
  let n := byteN c in (n =? 0x20) || (n =? 0x09) || (n =? 0x0D) || (n =? 0x0A).

Fixpoint skipWS (s : string) : string :=
  match s with
  | String c s' => if isSpace c then skipWS s' else s
  | EmptyString => s
  end.

Definition hexValue (c : ascii) : option N :=
  let n := byteN c in
  if (0x30 <=? n) && (n <=? 0x39) then Some (n - 0x30)
  else if (0x61 <=? n) && (n <=? 0x66) then Some (n - 0x61 + 10)
  else if (0x41 <=? n) && (n <=? 0x46) then Some (n - 0x41 + 10)
  else None.

(** [getu4]: the rune of a [\uXXXX] at the head of [s], and what follows. *)
Definition getu4 (s : string) : option (N * string) :=
  match s with
  | String c0 (String c1 (String h1 (String h2 (String h3 (String h4 rest))))) =>
    if Ascii.eqb c0 backslash && Ascii.eqb c1 "u" then
      match hexValue h1, hexValue h2, hexValue h3, hexValue h4 with
      | Some a, Some b, Some c, Some d =>
        Some (N.lor (N.lor (N.lor (N.shiftl a 12) (N.shiftl b 8)) (N.shiftl c 4)) d,
              rest)
      | _, _, _, _ => None
      end
    else None
  | _ => None
  end.

(** [utf16.DecodeRune]: the rune of a surrogate pair, U+FFFD for anything
    else. *)
Definition utf16Decode (r1 r2 : N) : N :=
  if (0xD800 <=? r1) && (r1 <? 0xDC00) && (0xDC00 <=? r2) && (r2 <? 0xE000)
  then N.lor (N.shiftl (r1 - 0xD800) 10) (r2 - 0xDC00) + 0x10000
  else Utf8.RuneError.

(** What a backslash escape other than [\u] stands for. *)
Definition simpleEscape (c : ascii) : option ascii :=
  let n := byteN c in
  if (n =? 0x22) || (n =? 0x5C) || (n =? 0x2F) then Some c
  else if n =? 0x62 then Some (byteOf 0x08)
  else if n =? 0x66 then Some (byteOf 0x0C)
  else if n =? 0x6E then Some (byteOf 0x0A)
  else if n =? 0x72 then Some (byteOf 0x0D)
  else if n =? 0x74 then Some (byteOf 0x09)
  else None.

(** A string literal from after its opening quote ([unquote], on the
    literal the scanner delimited): the text it stands for, gathered in
    [acc], and what follows the closing quote; [None] for a literal the
    scanner refuses. *)
Fixpoint unquoteBody (fuel : nat) (s acc : string) : option (string * string) :=
  match fuel with
  | O => None
  | S fuel' =>
    match s with
    | EmptyString => None
    | String c s1 =>
      let n := byteN c in
      if n =? 0x22 then Some (acc, s1)
      else if n =? 0x5C then
        match s1 with
        | EmptyString => None
        | String e s2 =>
          if Ascii.eqb e "u" then
            match getu4 s with
            | None => None
            | Some (rr, s6) =>
              if Utf8.surrogate rr then
                match getu4 s6 with
                | Some (rr1, s12) =>
                  if utf16Decode rr rr1 =? Utf8.RuneError then
                    unquoteBody fuel' s6 (acc ++ Utf8.EncodeRune Utf8.RuneError)
                  else
                    unquoteBody fuel' s12
                      (acc ++ Utf8.EncodeRune (utf16Decode rr rr1))
                | None =>
                  unquoteBody fuel' s6 (acc ++ Utf8.EncodeRune Utf8.RuneError)
                end
              else unquoteBody fuel' s6 (acc ++ Utf8.EncodeRune rr)
            end
          else
            match simpleEscape e with
            | Some b => unquoteBody fuel' s2 (acc ++ String b "")
            | None => None
            end
        end
      else if n <? 0x20 then None
      else if n <? 0x80 then unquoteBody fuel' s1 (acc ++ String c "")
      else
        let '(rr, size) := Utf8.DecodeRune s in
        unquoteBody fuel' (drop size s) (acc ++ Utf8.EncodeRune rr)
    end
  end.

Fixpoint digits (s : string) : string :=
  match s with
  | String c s' => if Strconv.isDigit c then digits s' else s
  | EmptyString => s
  end.

Definition digits1 (s : string) : option string :=
  match s with
  | String c s' => if Strconv.isDigit c then Some (digits s') else None
  | EmptyString => None
  end.

(** A number literal at the head of [s]: what follows it. *)
Definition scanNumber (s : string) : option string :=
  let s1 := match s with
            | String c s' => if Ascii.eqb c "-" then s' else s
            | EmptyString => s
            end in
  let afterInt :=
    match s1 with
    | String c s' =>
      if Ascii.eqb c "0" then Some s'
      else if Strconv.isDigit c then Some (digits s')
      else None
    | EmptyString => None
    end in
  match afterInt with
  | None => None
  | Some s2 =>
    let afterFrac :=
      match s2 with
      | String c s' => if Ascii.eqb c "." then digits1 s' else Some s2
      | EmptyString => Some s2
      end in
    match afterFrac with
    | None => None
    | Some s3 =>
      match s3 with
      | String c s' =>
        if Ascii.eqb c "e" || Ascii.eqb c "E" then
          match s' with
          | String sg s'' =>
            if Ascii.eqb sg "+" || Ascii.eqb sg "-" then digits1 s''
            else digits1 s'
          | EmptyString => None
          end
        else Some s3
      | EmptyString => Some s3
      end
    end
  end.

Definition literal (lit : string) (v : value) (s : string) : option (value * string) :=
  if String.eqb (take (String.length lit) s) lit
  then Some (v, drop (String.length lit) s) else None.

(** The value at the head of [s] and what follows it.  [parseElems] reads
    the elements of an array from its first one to the closing bracket,
    [parseMembers] the members of an object from its first key to the
    closing brace. *)
Fixpoint parseValue (fuel : nat) (s : string) {struct fuel} : option (value * string) :=
  match fuel with
  | O => None
  | S fuel' =>
    match s with
    | EmptyString => None
    | String c s1 =>
      let n := byteN c in
      if n =? 0x22 then
        match unquoteBody (String.length s) s1 "" with
        | Some (t, rest) => Some (Str t, rest)
        | None => None
        end
      else if n =? 0x7B then
        match skipWS s1 with
        | String c' rest =>
          if byteN c' =? 0x7D then Some (Object [], rest)
          else
            match parseMembers fuel' (skipWS s1) with
            | Some (ms, rest') => Some (Object ms, rest')
            | None => None
            end
        | EmptyString => None
        end
      else if n =? 0x5B then
        match skipWS s1 with
        | String c' rest =>
          if byteN c' =? 0x5D then Some (Array [], rest)
          else
            match parseElems fuel' (skipWS s1) with
            | Some (vs, rest') => Some (Array vs, rest')
            | None => None
            end
        | EmptyString => None
        end
      else if (n =? 0x2D) || Strconv.isDigit c then
        match scanNumber s with
        | Some rest => Some (Number, rest)
        | None => None
        end
      else if n =? 0x74 then literal "true" (Bool true) s
      else if n =? 0x66 then literal "false" (Bool false) s
      else if n =? 0x6E then literal "null" Null s
      else None
    end
  end
with parseElems (fuel : nat) (s : string) {struct fuel} : option (list value * string) :=
  match fuel with
  | O => None
  | S fuel' =>
    match parseValue fuel' s with
    | None => None
    | Some (v, rest) =>
      match skipWS rest with
      | String c r1 =>
        if byteN c =? 0x2C then
          match parseElems fuel' (skipWS r1) with
          | Some (vs, r2) => Some (v :: vs, r2)
          | None => None
          end
        else if byteN c =? 0x5D then Some ([v], r1)
        else None
      | EmptyString => None
      end
    end
  end
with parseMembers (fuel : nat) (s : string) {struct fuel}
    : option (list (string * value) * string) :=
  match fuel with
  | O => None
  | S fuel' =>
    match s with
    | String q s1 =>
      if byteN q =? 0x22 then
        match unquoteBody (String.length s) s1 "" with
        | None => None
        | Some (k, r1) =>
          match skipWS r1 with
          | String colon r2 =>
            if byteN colon =? 0x3A then
              match parseValue fuel' (skipWS r2) with
              | None => None
              | Some (v, r3) =>
                match skipWS r3 with
                | String c r4 =>
                  if byteN c =? 0x2C then
                    match parseMembers fuel' (skipWS r4) with
                    | Some (ms, r5) => Some ((k, v) :: ms, r5)
                    | None => None
                    end
                  else if byteN c =? 0x7D then Some ([(k, v)], r4)
                  else None
                | EmptyString => None
                end
              end
            else None
          | EmptyString => None
          end
        end
      else None
    | EmptyString => None
    end
  end.

(** A whole text: one value, blanks around it and nothing else. *)
Definition parse (text : string) : option value :=
  match parseValue (2 * String.length text + 2) (skipWS text) with
  | Some (v, rest) =>
    match skipWS rest with
    | EmptyString => Some v
    | String _ _ => None
    end
  | None => None
  end.

(** *** Filling a [Command] *)

Inductive Field : Type := FName | FParams | FEnv | FOut | FIn | FError | FExit.

Definition exactField (k : string) : option Field :=
  if String.eqb k "name" then Some FName
  else if String.eqb k "params" then Some FParams
  else if String.eqb k "env" then Some FEnv
  else if String.eqb k "out" then Some FOut
  else if String.eqb k "in" then Some FIn
  else if String.eqb k "error" then Some FError
  else if String.eqb k "exit" then Some FExit
  else None.

(** [foldName]: ASCII letters to upper case; of the other runes only
    U+017F (long s) and U+212A (Kelvin sign) fold to an ASCII letter. *)
Fixpoint foldName (s : string) : string :=
  match s with
  | EmptyString => EmptyString
  | String c s1 =>
    let n := byteN c in
    if (0x61 <=? n) && (n <=? 0x7A) then String (byteOf (n - 0x20)) (foldName s1)
    else
      match s1 with
      | String c1 s2 =>
        if (n =? 0xC5) && (byteN c1 =? 0xBF) then String "S" (foldName s2)
        else
          match s2 with
          | String c2 s3 =>
            if (n =? 0xE2) && (byteN c1 =? 0x84) && (byteN c2 =? 0xAA)
            then String "K" (foldName s3)
            else String c (foldName s1)
          | EmptyString => String c (foldName s1)
          end
      | EmptyString => String c EmptyString
      end
  end.

Definition foldedField (k : string) : option Field :=
  let f := foldName k in
  if String.eqb f "NAME" then Some FName
  else if String.eqb f "PARAMS" then Some FParams
  else if String.eqb f "ENV" then Some FEnv
  else if String.eqb f "OUT" then Some FOut
  else if String.eqb f "IN" then Some FIn
  else if String.eqb f "ERROR" then Some FError
  else if String.eqb f "EXIT" then Some FExit
  else None.

(** The field a key names: the exact name first, else the name whatever
    the case of its letters. *)
Definition fieldOf (k : string) : option Field :=
  match exactField k with
  | Some f => Some f
  | None => foldedField k
  end.

(** A value read into a [string]: a string sets it, [null] leaves it,
    anything else is an [UnmarshalTypeError]. *)
Definition intoString (old : string) (v : value) : option string :=
  match v with
  | Str s => Some s
  | Null => Some old
  | _ => None
  end.

Fixpoint intoElems (l : list value) : option (list string) :=
  match l with
  | [] => Some []
  | v :: rest =>
    match intoString "" v, intoElems rest with
    | Some s, Some ss => Some (s :: ss)
    | _, _ => None
    end
  end.

(** A value read into a [[]string]: [null] makes it nil. *)
Definition intoSlice (v : value) : option StringSlice :=
  match v with
  | Null => Some NilSlice
  | Array l =>
    match intoElems l with
    | Some ss => Some (Slice ss)
    | None => None
    end
  | _ => None
  end.

Definition setField (c : Command) (f : Field) (v : value) : option Command :=
  match f with
  | FName =>
    match intoString (Name c) v with
    | Some s => Some (mkCommand s (Params c) (Env c) (Out c) (In_ c) (Error c) (Exit c))
    | None => None
    end
  | FParams =>
    match intoSlice v with
    | Some s => Some (mkCommand (Name c) s (Env c) (Out c) (In_ c) (Error c) (Exit c))
    | None => None
    end
  | FEnv =>
    match intoSlice v with
    | Some s => Some (mkCommand (Name c) (Params c) s (Out c) (In_ c) (Error c) (Exit c))
    | None => None
    end
  | FOut =>
    match intoString (Out c) v with
    | Some s => Some (mkCommand (Name c) (Params c) (Env c) s (In_ c) (Error c) (Exit c))
    | None => None
    end
  | FIn =>
    match intoString (In_ c) v with
    | Some s => Some (mkCommand (Name c) (Params c) (Env c) (Out c) s (Error c) (Exit c))
    | None => None
    end
  | FError =>
    match intoString (Error c) v with
    | Some s => Some (mkCommand (Name c) (Params c) (Env c) (Out c) (In_ c) s (Exit c))
    | None => None
    end
  | FExit =>
    match intoString (Exit c) v with
    | Some s => Some (mkCommand (Name c) (Params c) (Env c) (Out c) (In_ c) (Error c) s)
    | None => None
    end
  end.

(** The members of an object in their order, a later one over an earlier
    one of the same field; a key that names no field is skipped. *)
Fixpoint fill (c : Command) (members : list (string * value)) : option Command :=
  match members with
  | [] => Some c
  | (k, v) :: rest =>
    match fieldOf k with
    | None => fill c rest
    | Some f =>
      match setField c f v with
      | Some c' => fill c' rest
      | None => None
      end
    end
  end.

(** [json.Unmarshal(payload, &command)] on the zero [Command]; [None]
    stands for a non-nil error (a syntax error, or a value of the wrong
    type for a field), which is all [Consume] looks at. *)
Definition Unmarshal (payload : string) : option Command :=
  match parse payload with
  | Some (Object members) => fill zeroCommand members
  | Some Null => Some zeroCommand
  | _ => None
  end.

(** *** What reading makes of what was written *)

Definition readBack (l : list string) : list value :=
  map (fun s => Str (Utf8.ToValidUTF8 s)) l.

Definition sliceValue (s : StringSlice) : value :=
  match s with
  | NilSlice => Null
  | Slice l => Array (readBack l)
  end.

(** A slice read back: nil stays nil, the strings are coerced to valid
    UTF-8. *)
Definition coerceSlice (s : StringSlice) : StringSlice :=
  match s with
  | NilSlice => NilSlice
  | Slice l => Slice (map Utf8.ToValidUTF8 l)
  end.

(** A descriptor read back. *)
Definition coerce (c : Command) : Command :=
  mkCommand (Utf8.ToValidUTF8 (Name c)) (coerceSlice (Params c))
    (coerceSlice (Env c)) (Utf8.ToValidUTF8 (Out c)) (Utf8.ToValidUTF8 (In_ c))
    (Utf8.ToValidUTF8 (Error c)) (Utf8.ToValidUTF8 (Exit c)).

Definition validSlice (s : StringSlice) : bool :=
  forallb Utf8.ValidString (elems s).

(** Every string of the descriptor is valid UTF-8. *)
Definition validCommand (c : Command) : bool :=
  Utf8.ValidString (Name c) && validSlice (Params c) && validSlice (Env c)
  && Utf8.ValidString (Out c) && Utf8.ValidString (In_ c)
  && Utf8.ValidString (Error c) && Utf8.ValidString (Exit c).

End Json.

(** ** The processes and what they do *)

(** The four channels of an invocation. *)
Inductive Role : Type := ROut | RIn | RErr | RExit.

(** A connection the Executor dialled: which of its four dials made it,
    and the address dialled.  A [net.Conn] that is nil is [None]. *)
Record Conn : Type := mkConn {
  role : Role;
  address : string
}.

(** An argument of a format: a string, or the text of an error value,
    which is not modelled. *)
Inductive Arg : Type :=
| Text (s : string)
| ErrorText.

(** What [cmd.Run()] returns: nil, an [*exec.ExitError] (with what its
    [Sys()] holds), or another error. *)
Inductive SysValue : Type :=
| SysWaitStatus (status : Z)
| SysOther.

Inductive RunError : Type :=
| RunNil
| ExitError (sys : SysValue)
| OtherError.

(** The effects of the two programs, in the order they happen. *)
Inductive Event : Type :=
| EvLog (format : string) (args : list Arg)
| EvPrint (format : string) (args : list Arg)
| EvDial (r : Role) (addr : string) (ok : bool)
| EvClose (k : Conn)
| EvWrite (k : Conn) (data : string)
| EvReject
| EvRun (name : string) (args env : list string)
| EvOpenConnection (tag network addr : string) (db : Z)
| EvOpenQueue (name : string)
| EvListen (path : string) (ok : bool)
| EvGo (r : Role)
| EvPublish (queue payload : string)
| EvAccept (path : string) (ok : bool)
| EvStdout (data : string)
| EvStderr (data : string)
| EvRelay (path : string) (data : string)
| EvClosePeer (path : string)
| EvCloseListener (path : string)
| EvRemove (path : string) (ok : bool)
| EvCloseConnection.

Definition service : string := "cmdpipe".

(** [os.Getenv]: the value of the variable, [""] when it is not set. *)
Fixpoint Getenv (environ : list (string * string)) (name : string) : string :=
  match environ with
  | [] => ""
  | (k, v) :: rest => if String.eqb k name then v else Getenv rest name
  end.

(** [os.Environ]: the environment as [KEY=VALUE] strings. *)
Definition Environ (environ : list (string * string)) : list string :=
  map (fun kv => fst kv ++ "=" ++ snd kv) environ.

Definition getTemp (environ : list (string * string)) : string :=
  let tmp := Getenv environ "CMDPIPE_TMP_DIR" in
  if String.eqb tmp "" then "/tmp" else tmp.

Definition getQueueName (commandName : string) : string :=
  "command:" ++ commandName.

Definition inTemp (environ : list (string * string)) (relativeToTemp : string) : string :=
  Path.Join [getTemp environ; relativeToTemp].

Definition PropogateEnvironment (environ : list (string * string)) : StringSlice :=
  let env := Getenv environ "CMDPIPE_ENV" in
  if String.eqb env "" then Slice []
  else Slice (Strings.Split env ";").

(** Modelled from the spec: [RandStringBytesMaskImprSrc] is defined in a
    file of the repository that is not among the sources; the spec has it
    produce the "random 6-character suffix" of a rendezvous point's name.
    It is taken to draw its [n] characters one after the other from the
    process's random source, of which [pos] have been drawn before. *)
Definition RandStringBytesMaskImprSrc (random : nat -> ascii) (pos n : nat) : string :=
  string_of_list_ascii (map random (seq pos n)).

Definition genCommandPipeSocket (random : nat -> ascii) (pos : nat)
    (pipeType : string) : string :=
  "cmdpipe-" ++ RandStringBytesMaskImprSrc random pos 6 ++ "-" ++ pipeType.

(** *** The Executor *)

(** What the Executor process finds around it. *)
Record Host : Type := mkHost {
  (** its environment *)
  h_environ : list (string * string);
  (** whether [net.Dial("unix", address)] succeeds *)
  h_dial : string -> bool;
  (** the bytes the peer sends on a connection dialled at an address
      before it closes its side *)
  h_input : string -> string;
  (** a program run to its end: name, arguments, environment and standard
      input to standard output, standard error and what [cmd.Run] returns *)
  h_run : string -> list string -> list string -> string -> string * string * RunError
}.

(** How a function call ends: it returns, or it panics. *)
Inductive Result (A : Type) : Type :=
| Ok (a : A)
| Panic.

Arguments Ok {A} a.
Arguments Panic {A}.

Definition emit {A : Type} (evs : list Event) (rest : Result A * list Event)
    : Result A * list Event :=
  (fst rest, (evs ++ snd rest)%list).

(** [dialAll]: the four dials in the order out, in, error, exit; the
    first one that fails is logged and ends the function, the results
    not yet assigned staying nil. *)
Definition dialAll (h : Host) (command : Command)
    : (option Conn * option Conn * option Conn * option Conn) * list Event :=
  let outAddr := inTemp (h_environ h) (Out command) in
  if negb (h_dial h outAddr) then
    ((None, None, None, None),
     [EvDial ROut outAddr false;
      EvLog "Error dialing output %s: %s" [Text (Out command); ErrorText]])
  else
    let outConn := mkConn ROut outAddr in
    let inAddr := inTemp (h_environ h) (In_ command) in
    if negb (h_dial h inAddr) then
      ((Some outConn, None, None, None),
       [EvDial ROut outAddr true; EvDial RIn inAddr false;
        EvLog "Error dialing input %s: %s" [Text (In_ command); ErrorText]])
    else
      let inConn := mkConn RIn inAddr in
      let errAddr := inTemp (h_environ h) (Error command) in
      if negb (h_dial h errAddr) then
        ((Some outConn, Some inConn, None, None),
         [EvDial ROut outAddr true; EvDial RIn inAddr true;
          EvDial RErr errAddr false;
          EvLog "Error dialing error %s: %s" [Text (Error command); ErrorText]])
      else
        let errConn := mkConn RErr errAddr in
        let exitAddr := inTemp (h_environ h) (Exit command) in
        if negb (h_dial h exitAddr) then
          ((Some outConn, Some inConn, Some errConn, None),
           [EvDial ROut outAddr true; EvDial RIn inAddr true;
            EvDial RErr errAddr true; EvDial RExit exitAddr false;
            EvLog "Error dialing exit %s: %s" [Text (Exit command); ErrorText]])
        else
          ((Some outConn, Some inConn, Some errConn,
            Some (mkConn RExit exitAddr)),
           [EvDial ROut outAddr true; EvDial RIn inAddr true;
            EvDial RErr errAddr true; EvDial RExit exitAddr true]).

(** [defer conn.Close()].  The method value of a nil interface cannot be
    taken: the statement panics where it stands, and the rest of the
    function is not run.  Otherwise the connection is closed when the
    rest of the function has returned or panicked. *)
Definition deferClose {A : Type} (conn : option Conn)
    (rest : Conn -> Result A * list Event) : Result A * list Event :=
  match conn with
  | None => (Panic, [])
  | Some k => let r := rest k in (fst r, (snd r ++ [EvClose k])%list)
  end.

(** The exit code [Consume] reports for what [cmd.Run] returned. *)
Definition exitCodeOf (err : RunError) : Z :=
  match err with
  | RunNil => 0
  | ExitError (SysWaitStatus status) => Syscall.ExitStatus status
  | ExitError SysOther => -1
  | OtherError => -1
  end%Z.

Definition runLog (err : RunError) : list Event :=
  match err with
  | OtherError => [EvLog "Non exit-error running command: %s\n" [ErrorText]]
  | _ => []
  end.

(** [CommandConsumer.Consume] on a delivery with the given payload. *)
Definition Consume (c : CommandConsumer) (h : Host) (payload : string)
    : Result unit * list Event :=
  emit [EvPrint "%v\n" [Text payload]]
    match Json.Unmarshal payload with
    | None =>
      (Ok tt, [EvLog "Error %s" [ErrorText];
               EvLog "Problem unmarshalling payload %s" [Text payload]])
    | Some command =>
      let '((outConn, inConn, errConn, exitConn), dialled) := dialAll h command in
      emit dialled
        (deferClose outConn (fun outConn =>
         deferClose inConn (fun inConn =>
         deferClose errConn (fun errConn =>
         deferClose exitConn (fun exitConn =>
           emit [EvPrint "Got command [%s]\n" [Text (Name command)]]
             (if negb (String.eqb (Name command) (AllowedName c)) then
                (Ok tt, [EvLog "Rejecting [%s]\n" [Text (Name command)]; EvReject])
              else
                let args := elems (Params command) in
                let env := (Environ (h_environ h) ++ elems (Env command))%list in
                let '(stdout, stderr, err) :=
                  h_run h (AllowedName c) args env (h_input h (address inConn)) in
                let exitCode := exitCodeOf err in
                (Ok tt,
                 ([EvPrint "Dialed: %s %s %s %s\n"
                     [Text (Out command); Text (In_ command);
                      Text (Error command); Text (Exit command)];
                   EvPrint "Command started\n" [];
                   EvRun (AllowedName c) args env;
                   EvWrite outConn stdout;
                   EvWrite errConn stderr]
                  ++ runLog err
                  ++ [EvLog ("Writing to exitConn <- " ++ Strconv.Itoa exitCode) [];
                      EvWrite exitConn (Strconv.Itoa exitCode);
                      EvPrint "Command completed\n" []])%list)))))))
    end.

(** [Receive]: with no argument it logs and returns; otherwise it
    consumes the queue of the command named by its first argument with a
    [CommandConsumer] for that name, and never returns. *)
Definition Receive (args : list string) : option (string * CommandConsumer) :=
  if (List.length args <=? 1)%nat then None
  else
    let commandName := nth 1 args "" in
    Some (getQueueName commandName, mkConsumer commandName).

(** *** The Dispatcher *)

(** The standard input of the Dispatcher, in the three cases told apart
    here (an input that gives some data and then neither data nor its
    end is not among them). *)
Inductive Stdin : Type :=
(** an interactive terminal: [termutil.Isatty] holds and nothing is read *)
| Terminal
(** not a terminal: [data] is read, then the end of the input *)
| Ends (data : string)
(** not a terminal: a read never returns, neither data nor the end of the
    input ever comes *)
| Silent.

(** The standard input is a terminal, or comes to its end. *)
Definition ends (s : Stdin) : bool :=
  match s with
  | Silent => false
  | _ => true
  end.

(** What the Dispatcher process is started with. *)
Record Client : Type := mkClient {
  (** [os.Args] *)
  c_args : list string;
  c_environ : list (string * string);
  c_stdin : Stdin;
  (** the characters of the random source *)
  c_random : nat -> ascii;
  (** whether the broker answers when the connection is opened *)
  c_broker : bool;
  (** whether a socket can be bound at a path where no file is *)
  c_bind : string -> bool
}.

(** The state the Dispatcher acts on. *)
Record World : Type := mkWorld {
  (** the paths present in the file system *)
  files : list string;
  (** the paths of the unix sockets the process listens on *)
  listeners : list string;
  (** how many characters were drawn from the random source *)
  drawn : nat;
  (** what was published: queue and payload, the latest first *)
  published : list (string * string);
  (** the effects so far, the earliest first *)
  trace : list Event
}.

Definition initial (fs : list string) : World := mkWorld fs [] 0 [] [].

Definition record (evs : list Event) (w : World) : World :=
  mkWorld (files w) (listeners w) (drawn w) (published w) (trace w ++ evs).

Definition without (path : string) (l : list string) : list string :=
  filter (fun p => negb (String.eqb p path)) l.

Definition present (path : string) (l : list string) : bool :=
  existsb (String.eqb path) l.

(** How the goroutine running [Send] gets on. *)
Inductive Exec (A : Type) : Type :=
| Val (a : A)
(** it panicked: its deferred calls run, then the process ends *)
| Panics
(** another goroutine panicked and ended the process: no deferred call
    of this one runs *)
| Crashes
(** it waits for ever *)
| Blocks.

Arguments Val {A} a.
Arguments Panics {A}.
Arguments Crashes {A}.
Arguments Blocks {A}.

Definition M (A : Type) : Type := World -> Exec A * World.

Definition ret {A : Type} (a : A) : M A := fun w => (Val a, w).

Definition bind {A B : Type} (m : M A) (k : A -> M B) : M B :=
  fun w =>
    match m w with
    | (Val a, w') => k a w'
    | (Panics, w') => (Panics, w')
    | (Crashes, w') => (Crashes, w')
    | (Blocks, w') => (Blocks, w')
    end.

Notation "x <- m ;; k" := (bind m (fun x => k))
  (at level 61, m at next level, right associativity).

Notation "m ;;; k" := (bind m (fun _ => k))
  (at level 61, right associativity).

Definition say (evs : list Event) : M unit := fun w => (Val tt, record evs w).

(** [defer call]: [call] runs when the rest of the function has returned
    or panicked, and what it returns is dropped. *)
Definition defer {A : Type} (call : World -> World) (rest : M A) : M A :=
  fun w =>
    match rest w with
    | (Val a, w') => (Val a, call w')
    | (Panics, w') => (Panics, call w')
    | (Crashes, w') => (Crashes, w')
    | (Blocks, w') => (Blocks, w')
    end.

(** [rmq.OpenConnection]: it panics when the broker does not answer. *)
Definition OpenConnection (cl : Client) (tag network addr : string) (db : Z) : M unit :=
  fun w =>
    let w' := record [EvOpenConnection tag network addr db] w in
    if c_broker cl then (Val tt, w') else (Panics, w').

(** [conn.Close()] *)
Definition closeConnection (w : World) : World := record [EvCloseConnection] w.

(** [os.Remove(path)]: the file is removed when there is one; the error
    returned when there is none is dropped by the [defer]. *)
Definition osRemove (path : string) (w : World) : World :=
  mkWorld (without path (files w)) (listeners w) (drawn w) (published w)
    (trace w ++ [EvRemove path (present path (files w))]).

(** [genCommandPipeSocket], drawing from the process's random source. *)
Definition genSocket (cl : Client) (pipeType : string) : M string :=
  fun w =>
    (Val (genCommandPipeSocket (c_random cl) (drawn w) pipeType),
     mkWorld (files w) (listeners w) (drawn w + 6) (published w) (trace w)).

(** [net.Listen("unix", path)] followed by [panic(err.Error())] when it
    fails: binding creates the socket file, and fails when a file is
    there already. *)
Definition listenOrPanic (cl : Client) (path : string) : M unit :=
  fun w =>
    if present path (files w) || negb (c_bind cl path) then
      (Panics, record [EvListen path false] w)
    else
      (Val tt,
       mkWorld (path :: files w) (path :: listeners w) (drawn w) (published w)
         (trace w ++ [EvListen path true])).

(** [Close] of a listener that [net.Listen] made: it stops listening and
    unlinks the socket file. *)
Definition closeListener (path : string) (w : World) : World :=
  mkWorld (without path (files w)) (without path (listeners w)) (drawn w)
    (published w) (trace w ++ [EvCloseListener path]).

Definition publish (queue payload : string) : M unit :=
  fun w =>
    (Val tt,
     mkWorld (files w) (listeners w) (drawn w) ((queue, payload) :: published w)
       (trace w ++ [EvPublish queue payload])).

(** What happens at the other end of a listener. *)
Inductive Peer : Type :=
(** nobody ever dials: [Accept] does not return *)
| NoPeer
(** [Accept] returns an error, and a nil connection *)
| AcceptFails
(** a peer connects, sends [data] and closes; [readError] when the
    stream ends with an error rather than at its end *)
| Connected (data : string) (readError : bool)
(** a peer connects, sends [data] and keeps the connection open *)
| Lingers (data : string).

Record Peers : Type := mkPeers {
  p_out : Peer;
  p_err : Peer;
  p_in : Peer;
  p_exit : Peer
}.

(** The paths of the four sockets of an invocation. *)
Record Sockets : Type := mkSockets {
  s_out : string;
  s_err : string;
  s_in : string;
  s_exit : string
}.

(** How a goroutine started by [Send] ends. *)
Inductive TaskEnd : Type := Done | TaskPanics | TaskBlocks.

(** The goroutines relaying standard output and standard error.  On a
    nil connection [io.Copy] calls [Read] on a nil interface and panics;
    the deferred [Close] of the listener runs in either case.  [io.Copy]
    returns at the end of the stream only: it waits for ever on a peer
    that does not close. *)
Definition relayFrom (name : string) (sink : string -> Event) (path : string)
    (peer : Peer) (w : World) : TaskEnd * World :=
  match peer with
  | NoPeer => (TaskBlocks, w)
  | AcceptFails =>
    (TaskPanics,
     closeListener path
       (record [EvAccept path false;
                EvLog ("err opening " ++ name ++ " socket: %s\n") [ErrorText]] w))
  | Connected data _ =>
    (Done, closeListener path (record [EvAccept path true; sink data] w))
  | Lingers data => (TaskBlocks, record [EvAccept path true; sink data] w)
  end.

(** The goroutine relaying standard input: unless standard input is a
    terminal, [io.Copy] reads it to its end, and waits for ever in [Read]
    when neither data nor the end comes; then the connection is closed,
    whether the peer has closed its side or not.  With a nil connection
    [io.Copy] panics as soon as it has a byte to write, and [fd.Close()]
    panics otherwise. *)
Definition relayTo (cl : Client) (path : string) (peer : Peer) (w : World)
    : TaskEnd * World :=
  match peer with
  | NoPeer => (TaskBlocks, w)
  | AcceptFails =>
    let w1 :=
      record [EvAccept path false;
              EvLog "err opening input socket: %s\n" [ErrorText]] w in
    match c_stdin cl with
    | Silent => (TaskBlocks, w1)
    | _ => (TaskPanics, closeListener path w1)
    end
  | Connected _ _ | Lingers _ =>
    match c_stdin cl with
    | Terminal =>
      (Done, closeListener path (record [EvAccept path true; EvClosePeer path] w))
    | Ends data =>
      (Done,
       closeListener path
         (record [EvAccept path true; EvRelay path data; EvClosePeer path] w))
    | Silent => (TaskBlocks, record [EvAccept path true] w)
    end
  end.

(** What the goroutine for the exit status sends on the [exit] channel. *)
Inductive ExitTask : Type :=
| Sends (exitCode : Z)
| ExitPanics
| ExitBlocks.

(** The goroutine for the exit status, up to [exit <- exitCode]; its
    deferred [Close] runs after the value was received, or when it
    panics ([ioutil.ReadAll] of a nil connection).  [ioutil.ReadAll]
    returns at the end of the stream only. *)
Definition exitTask (path : string) (peer : Peer) (w : World) : ExitTask * World :=
  match peer with
  | NoPeer => (ExitBlocks, w)
  | AcceptFails =>
    (ExitPanics,
     closeListener path
       (record [EvAccept path false;
                EvLog "err opening exit socket: %s\n" [ErrorText]] w))
  | Connected buf readError =>
    let w1 := record [EvAccept path true] w in
    let w2 :=
      if readError
      then record [EvLog "err reading exit socket: %s\n" [ErrorText]] w1
      else w1 in
    match Strconv.Atoi buf with
    | Some exitCode => (Sends exitCode, w2)
    | None =>
      (Sends (-1),
       record [EvLog "Error converting exit code: %s: %s" [Text buf; ErrorText]] w2)
    end
  | Lingers _ => (ExitBlocks, record [EvAccept path true] w)
  end.

(** What the Dispatcher sends on the [in] channel, when it is accepted. *)
Definition relayed (cl : Client) : string :=
  match c_stdin cl with
  | Ends data => data
  | _ => ""
  end.

(** The rest of the world: how the peers of the four sockets behave,
    given the state at the moment the descriptor was published. *)
Definition Reaction : Type := Sockets -> World -> Peers.

(** [wg.Wait()] and [<-exit], with the four goroutines run one after the
    other in the order they were started (they share nothing but the
    wait group and the channel).  A goroutine that panics ends the
    process there and then; a relay that blocks keeps [wg.Wait()] from
    returning. *)
Definition await (cl : Client) (react : Reaction) (socks : Sockets) : M Z :=
  fun w =>
    let peers := react socks w in
    let '(o, w1) := relayFrom "output" EvStdout (s_out socks) (p_out peers) w in
    match o with
    | TaskPanics => (Crashes, w1)
    | _ =>
      let '(e, w2) := relayFrom "error" EvStderr (s_err socks) (p_err peers) w1 in
      match e with
      | TaskPanics => (Crashes, w2)
      | _ =>
        let '(i, w3) := relayTo cl (s_in socks) (p_in peers) w2 in
        match i with
        | TaskPanics => (Crashes, w3)
        | _ =>
          let '(x, w4) := exitTask (s_exit socks) (p_exit peers) w3 in
          match o, e, i, x with
          | _, _, _, ExitPanics => (Crashes, w4)
          | Done, Done, Done, Sends exitCode =>
            (Val exitCode, closeListener (s_exit socks) w4)
          | _, _, _, _ => (Blocks, w4)
          end
        end
      end
    end.

(** How a call of [Send] ends. *)
Inductive Outcome : Type :=
| Returned (code : Z)
| Panicked
| Crashed
| Blocked.

Definition outcome (r : Exec Z) : Outcome :=
  match r with
  | Val code => Returned code
  | Panics => Panicked
  | Crashes => Crashed
  | Blocks => Blocked
  end.

Definition sendBody (cl : Client) (react : Reaction) : M Z :=
  let commandName := nth 1 (c_args cl) "" in
  OpenConnection cl service "unix" (Path.Join [getTemp (c_environ cl); "redis.sock"]) 1 ;;;
  defer closeConnection (
    say [EvOpenQueue (getQueueName commandName)] ;;;
    outSock <- genSocket cl "out" ;;
    defer (osRemove (inTemp (c_environ cl) outSock)) (
      listenOrPanic cl (inTemp (c_environ cl) outSock) ;;;
      errSock <- genSocket cl "err" ;;
      defer (osRemove (inTemp (c_environ cl) errSock)) (
        listenOrPanic cl (inTemp (c_environ cl) errSock) ;;;
        inSock <- genSocket cl "in" ;;
        defer (osRemove (inTemp (c_environ cl) inSock)) (
          listenOrPanic cl (inTemp (c_environ cl) inSock) ;;;
          exitSock <- genSocket cl "exit" ;;
          defer (osRemove (inTemp (c_environ cl) exitSock)) (
            listenOrPanic cl (inTemp (c_environ cl) exitSock) ;;;
            say [EvGo ROut; EvGo RErr; EvGo RIn; EvGo RExit] ;;;
            let params :=
              if (2 <? List.length (c_args cl))%nat
              then Slice (skipn 2 (c_args cl)) else Slice [] in
            let bs :=
              Json.Marshal
                (mkCommand commandName params
                   (PropogateEnvironment (c_environ cl))
                   outSock inSock errSock exitSock) in
            publish (getQueueName commandName) bs ;;;
            await cl react
              (mkSockets (inTemp (c_environ cl) outSock)
                 (inTemp (c_environ cl) errSock)
                 (inTemp (c_environ cl) inSock)
                 (inTemp (c_environ cl) exitSock))))))).

(** [Send] *)
Definition Send (cl : Client) (react : Reaction) (w : World) : Outcome * World :=
  if (List.length (c_args cl) <=? 1)%nat then
    (Returned 1, record [EvLog "Need a command name argument" []] w)
  else
    let r := sendBody cl react w in (outcome (fst r), snd r).

(** *** One Dispatcher and one Executor *)

Definition roleEqb (a b : Role) : bool :=
  match a, b with
  | ROut, ROut | RIn, RIn | RErr, RErr | RExit, RExit => true
  | _, _ => false
  end.

Definition connEqb (a b : Conn) : bool :=
  roleEqb (role a) (role b) && String.eqb (address a) (address b).

(** The connection of the Executor that reached the listener at [path]:
    the first of its dials of that address that succeeded. *)
Fixpoint dialled (tr : list Event) (path : string) : option Conn :=
  match tr with
  | [] => None
  | EvDial r addr true :: rest =>
    if String.eqb addr path then Some (mkConn r addr) else dialled rest path
  | _ :: rest => dialled rest path
  end.

(** What the Executor wrote to a connection. *)
Fixpoint written (tr : list Event) (k : Conn) : string :=
  match tr with
  | [] => ""
  | EvWrite k' data :: rest =>
    if connEqb k' k then data ++ written rest k else written rest k
  | _ :: rest => written rest k
  end.

(** Whether the Executor closed a connection. *)
Fixpoint closed (tr : list Event) (k : Conn) : bool :=
  match tr with
  | [] => false
  | EvClose k' :: rest => connEqb k' k || closed rest k
  | _ :: rest => closed rest k
  end.

(** The peer a listener of the Dispatcher has in an Executor for which
    [Consume] went as [r]: a connection it dialled sends what was
    written on it; it is closed when [Consume] closed it, or with the
    process when [Consume] panicked, and stays open otherwise, the
    Executor living on. *)
Definition peerOf (r : Result unit * list Event) (path : string) : Peer :=
  match dialled (snd r) path with
  | Some k =>
    if closed (snd r) k || match fst r with Panic => true | Ok _ => false end
    then Connected (written (snd r) k) false
    else Lingers (written (snd r) k)
  | None => NoPeer
  end.

(** The Executor started with [args] handles the delivery [payload] while
    the Dispatcher listens on [socks]: it reaches the sockets the
    Dispatcher listens on, and reads on the [in] socket what the
    Dispatcher relays there.  [Consume] has the program run to its end,
    which asks for an input that ends: this is the Executor of a
    Dispatcher whose standard input is a terminal or ends (with one that
    is [Silent], [Send] waits whatever the Executor does, see
    [relayTo]). *)
Definition serve (args : list string) (environ : list (string * string))
    (run : string -> list string -> list string -> string -> string * string * RunError)
    (cl : Client) (payload : string) (socks : Sockets) (w : World)
    : Result unit * list Event :=
  match Receive args with
  | None => (Ok tt, [EvLog "Need an argument to signify the allowed command" []])
  | Some (_, consumer) =>
    Consume consumer
      (mkHost environ (fun addr => present addr (listeners w))
         (fun addr => if String.eqb addr (s_in socks) then relayed cl else "")
         run)
      payload
  end.

Definition peersOf (r : Result unit * list Event) (socks : Sockets) : Peers :=
  mkPeers (peerOf r (s_out socks)) (peerOf r (s_err socks))
    (peerOf r (s_in socks)) (peerOf r (s_exit socks)).

Definition nobody : Peers := mkPeers NoPeer NoPeer NoPeer NoPeer.

(** The first payload published on a queue. *)
Fixpoint firstOn (queue : string) (pub : list (string * string)) : option string :=
  match pub with
  | [] => None
  | (q, payload) :: rest =>
    match firstOn queue rest with
    | Some p => Some p
    | None => if String.eqb q queue then Some payload else None
    end
  end.

(** The broker between the two: the Executor is delivered what was
    published on the queue it consumes, and nothing else. *)
Definition brokered (args : list string) (environ : list (string * string))
    (run : string -> list string -> list string -> string -> string * string * RunError)
    (cl : Client) : Reaction :=
  fun socks w =>
    match Receive args with
    | None => nobody
    | Some (queue, _) =>
      match firstOn queue (published w) with
      | None => nobody
      | Some payload => peersOf (serve args environ run cl payload socks w) socks
      end
    end.


(** One exchange: [Send] in a file system holding [fs], with an Executor
    started with [args] behind the broker. *)
Definition exchange (cl : Client) (args : list string)
    (environ : list (string * string))
    (run : string -> list string -> list string -> string -> string * string * RunError)
    (fs : list string) : Outcome * World :=
  Send cl (brokered args environ run cl) (initial fs).

(** *** [Send], step by step *)

(** The command name [Send] is called for. *)
Definition commandName (cl : Client) : string := nth 1 (c_args cl) "".

Definition trailing (cl : Client) : StringSlice :=
  if (2 <? List.length (c_args cl))%nat then Slice (skipn 2 (c_args cl)) else Slice [].

(** The names of the four sockets of an invocation that starts when [n]
    random characters were drawn. *)
Definition outSock (cl : Client) (n : nat) : string :=
  genCommandPipeSocket (c_random cl) n "out".

Definition errSock (cl : Client) (n : nat) : string :=
  genCommandPipeSocket (c_random cl) (n + 6) "err".

Definition inSock (cl : Client) (n : nat) : string :=
  genCommandPipeSocket (c_random cl) (n + 6 + 6) "in".

Definition exitSock (cl : Client) (n : nat) : string :=
  genCommandPipeSocket (c_random cl) (n + 6 + 6 + 6) "exit".

(** The descriptor [Send] publishes. *)
Definition descriptor (cl : Client) (n : nat) : Command :=
  mkCommand (commandName cl) (trailing cl) (PropogateEnvironment (c_environ cl))
    (outSock cl n) (inSock cl n) (errSock cl n) (exitSock cl n).

(** The paths [Send] listens on. *)
Definition sockets (cl : Client) (n : nat) : Sockets :=
  mkSockets (inTemp (c_environ cl) (outSock cl n)) (inTemp (c_environ cl) (errSock cl n))
    (inTemp (c_environ cl) (inSock cl n)) (inTemp (c_environ cl) (exitSock cl n)).

(** A socket can be bound at [path]: no file is there, and nothing else
    is in the way. *)
Definition canBind (cl : Client) (path : string) (fs : list string) : bool :=
  negb (present path fs || negb (c_bind cl path)).

(** The four sockets can be bound one after the other. *)
Definition canListen (cl : Client) (n : nat) (fs : list string) : bool :=
  let s := sockets cl n in
  canBind cl (s_out s) fs
  && canBind cl (s_err s) (s_out s :: fs)
  && canBind cl (s_in s) (s_err s :: s_out s :: fs)
  && canBind cl (s_exit s) (s_in s :: s_err s :: s_out s :: fs).

(** What [Send] has done when it has published the descriptor. *)
Definition setupEvents (cl : Client) (n : nat) : list Event :=
  let s := sockets cl n in
  [EvOpenConnection service "unix" (Path.Join [getTemp (c_environ cl); "redis.sock"]) 1;
   EvOpenQueue (getQueueName (commandName cl));
   EvListen (s_out s) true; EvListen (s_err s) true;
   EvListen (s_in s) true; EvListen (s_exit s) true;
   EvGo ROut; EvGo RErr; EvGo RIn; EvGo RExit;
   EvPublish (getQueueName (commandName cl)) (Json.Marshal (descriptor cl n))].

(** The state when the descriptor has just been published. *)
Definition atPublication (cl : Client) (w : World) : World :=
  let s := sockets cl (drawn w) in
  mkWorld (s_exit s :: s_in s :: s_err s :: s_out s :: files w)
    (s_exit s :: s_in s :: s_err s :: s_out s :: listeners w)
    (drawn w + 6 + 6 + 6 + 6)
    ((getQueueName (commandName cl), Json.Marshal (descriptor cl (drawn w)))
       :: published w)
    (trace w ++ setupEvents cl (drawn w)).

(** The deferred calls of [Send], in the order they run. *)
Definition cleanup (cl : Client) (s : Sockets) (w : World) : World :=
  closeConnection (osRemove (s_out s) (osRemove (s_err s) (osRemove (s_in s)
    (osRemove (s_exit s) w)))).

Definition finish (cl : Client) (s : Sockets) (r : Exec Z * World) : Exec Z * World :=
  match fst r with
  | Val _ | Panics => (fst r, cleanup cl s (snd r))
  | Crashes | Blocks => r
  end.

(** The four dials of [dialAll] succeed. *)
Definition allDial (h : Host) (d : Command) : bool :=
  h_dial h (inTemp (h_environ h) (Out d))
  && h_dial h (inTemp (h_environ h) (In_ d))
  && h_dial h (inTemp (h_environ h) (Error d))
  && h_dial h (inTemp (h_environ h) (Exit d)).

(** The connections [dialAll] makes when its dials succeed. *)
Definition outConnOf (h : Host) (d : Command) : Conn :=
  mkConn ROut (inTemp (h_environ h) (Out d)).

Definition inConnOf (h : Host) (d : Command) : Conn :=
  mkConn RIn (inTemp (h_environ h) (In_ d)).

Definition errConnOf (h : Host) (d : Command) : Conn :=
  mkConn RErr (inTemp (h_environ h) (Error d)).

Definition exitConnOf (h : Host) (d : Command) : Conn :=
  mkConn RExit (inTemp (h_environ h) (Exit d)).

Definition dialEvents (h : Host) (d : Command) : list Event :=
  [EvDial ROut (inTemp (h_environ h) (Out d)) true;
   EvDial RIn (inTemp (h_environ h) (In_ d)) true;
   EvDial RErr (inTemp (h_environ h) (Error d)) true;
   EvDial RExit (inTemp (h_environ h) (Exit d)) true].

Definition closeEvents (h : Host) (d : Command) : list Event :=
  [EvClose (exitConnOf h d); EvClose (errConnOf h d);
   EvClose (inConnOf h d); EvClose (outConnOf h d)].

(** What [Consume] does with a descriptor of another name, its dials
    having succeeded. *)
Definition rejectEvents (h : Host) (payload : string) (d : Command) : list Event :=
  ([EvPrint "%v\n" [Text payload]] ++ dialEvents h d
   ++ [EvPrint "Got command [%s]\n" [Text (Name d)];
       EvLog "Rejecting [%s]\n" [Text (Name d)]; EvReject]
   ++ closeEvents h d)%list.

(** The environment the program is run in. *)
Definition commandEnv (h : Host) (d : Command) : list string :=
  (Environ (h_environ h) ++ elems (Env d))%list.

(** What the program of the descriptor does on this host. *)
Definition execution (c : CommandConsumer) (h : Host) (d : Command)
    : string * string * RunError :=
  h_run h (AllowedName c) (elems (Params d)) (commandEnv h d)
    (h_input h (inTemp (h_environ h) (In_ d))).

(** What [Consume] does with a descriptor of its name, its dials having
    succeeded. *)
Definition runEvents (c : CommandConsumer) (h : Host) (payload : string)
    (d : Command) : list Event :=
  let '(stdout, stderr, err) := execution c h d in
  ([EvPrint "%v\n" [Text payload]] ++ dialEvents h d
   ++ [EvPrint "Got command [%s]\n" [Text (Name d)];
       EvPrint "Dialed: %s %s %s %s\n"
         [Text (Out d); Text (In_ d); Text (Error d); Text (Exit d)];
       EvPrint "Command started\n" [];
       EvRun (AllowedName c) (elems (Params d)) (commandEnv h d);
       EvWrite (outConnOf h d) stdout;
       EvWrite (errConnOf h d) stderr]
   ++ runLog err
   ++ [EvLog ("Writing to exitConn <- " ++ Strconv.Itoa (exitCodeOf err)) [];
       EvWrite (exitConnOf h d) (Strconv.Itoa (exitCodeOf err));
       EvPrint "Command completed\n" []]
   ++ closeEvents h d)%list.

(** The sockets of the Dispatcher as seen from an Executor whose dials
    reached them. *)
Definition reached (h : Host) (d : Command) : Sockets :=
  mkSockets (inTemp (h_environ h) (Out d)) (inTemp (h_environ h) (Error d))
    (inTemp (h_environ h) (In_ d)) (inTemp (h_environ h) (Exit d)).

(** How a program comes to its end, and what [cmd.Run] returns then. *)
Inductive Termination : Type :=
(** the process exits by itself with this code *)
| Exits (code : Z)
(** a signal ends the process, which may dump core *)
| Signaled (signal : Z) (core : bool)
(** the process could not be started *)
| NotStarted
(** the process ended and the host gives no wait status for it *)
| Undetermined.

Definition runError (t : Termination) : RunError :=
  match t with
  | Exits code =>
    if (code =? 0)%Z then RunNil else ExitError (SysWaitStatus (Z.shiftl code 8))
  | Signaled signal core =>
    ExitError (SysWaitStatus (if core then Z.lor signal 128 else signal))
  | NotStarted => OtherError
  | Undetermined => ExitError SysOther
  end.

Definition wellFormed (t : Termination) : Prop :=
  match t with
  | Exits code => (0 <= code <= 255)%Z
  | Signaled signal _ => (1 <= signal < 127)%Z
  | _ => True
  end.

(** The exit status of the program: its exit code, -1 when there is none. *)
Definition status (t : Termination) : Z :=
  match t with
  | Exits code => code
  | _ => (-1)%Z
  end.

(** The host the Executor of an exchange runs on. *)
Definition hostOf (environ : list (string * string))
    (run : string -> list string -> list string -> string -> string * string * RunError)
    (cl : Client) (socks : Sockets) (w : World) : Host :=
  mkHost environ (fun addr => present addr (listeners w))
    (fun addr => if String.eqb addr (s_in socks) then relayed cl else "")
    run.

(** Events that do not publish. *)
Definition notPublish (e : Event) : bool :=
  match e with
  | EvPublish _ _ => false
  | _ => true
  end.

(** Events that neither publish nor start listening. *)
Definition late (e : Event) : bool :=
  match e with
  | EvPublish _ _ | EvListen _ _ => false
  | _ => true
  end.

(** The goroutines and the deferred calls only add late events, and only
    remove files. *)
Definition extends (w w' : World) : Prop :=
  (exists evs, trace w' = (trace w ++ evs)%list /\ forallb late evs = true)
  /\ (forall p, In p (files w') -> In p (files w))
  /\ published w' = published w.

(** *** Examples and measures *)

(** A random source of ASCII letters. *)
Definition letters (n : nat) : ascii :=
  match Nat.modulo n 6 with
  | 0 => "a" | 1 => "b" | 2 => "c" | 3 => "d" | 4 => "e" | _ => "f"
  end%char.

(** [send echo hi], with [payload] on standard input. *)
Definition echoClient : Client :=
  mkClient ["send"; "echo"; "hi"] [("CMDPIPE_ENV", "FOO=bar;X=1")] (Ends "payload")
    letters true (fun _ => true).

(** [send foo], from a terminal. *)
Definition fooClient : Client :=
  mkClient ["send"; "foo"] [] Terminal letters true (fun _ => true).

(** [send] for a command whose name is the two bytes [E9 74], from a
    terminal. *)
Definition latinClient : Client :=
  mkClient ["send"; String (byteOf 0xE9) "t"] [] Terminal letters true (fun _ => true).

(** [send echo hi] with a standard input that is not a terminal and on
    which nothing ever comes. *)
Definition silentClient : Client :=
  mkClient ["send"; "echo"; "hi"] [] Silent letters true (fun _ => true).

(** A host where every program writes nothing and exits with code 0. *)
Definition succeeds (name : string) (args env : list string) (stdin : string)
    : string * string * RunError :=
  ("", "", RunNil).

(** The programs of the example host: [echo] writes its arguments and
    its input, [false] exits with code 1, nothing else can be started. *)
Definition programs (name : string) (args env : list string) (stdin : string)
    : string * string * RunError :=
  if String.eqb name "echo" then (Join args " " ++ stdin, "", RunNil)
  else if String.eqb name "false" then ("", "", ExitError (SysWaitStatus 256))
  else ("", "", OtherError).

(** A host where nothing listens. *)
Definition lonelyHost : Host := mkHost [] (fun _ => false) (fun _ => "") programs.

(** The rejections and the program runs among events. *)
Definition rejections (tr : list Event) : nat :=
  List.length (filter (fun e => match e with EvReject => true | _ => false end) tr).

Definition runs (tr : list Event) : nat :=
  List.length (filter (fun e => match e with EvRun _ _ _ => true | _ => false end) tr).

Definition writes (tr : list Event) : nat :=
  List.length (filter (fun e => match e with EvWrite _ _ => true | _ => false end) tr).

(** A descriptor with a byte that is not UTF-8 in its name. *)
Definition latin1 : Command :=
  mkCommand (String (byteOf 0xE9) "t") (Slice []) NilSlice "o" "i" "e" "x".


Fixpoint contains (c : ascii) (s : string) : bool :=
  match s with
  | EmptyString => false
  | String x s' => Ascii.eqb x c || contains c s'
  end.

(** A host that keeps its sockets under [/var/run]. *)
Definition otherHost : Host :=
  mkHost [("CMDPIPE_TMP_DIR", "/var/run")] (fun _ => false) (fun _ => "") programs.

(** A host where everything listens but the [exit] socket of [send echo hi]. *)
Definition deafExit : Host :=
  mkHost [] (fun addr => negb (String.eqb addr "/tmp/cmdpipe-abcdef-exit"))
    (fun _ => "") programs.

(** The outputs are accepted, the connection on the [in] socket is not. *)
Definition inputRefused : Reaction :=
  fun _ _ => mkPeers (Connected "hi" false) (Connected "" false) AcceptFails
               (Connected "0" false).

(** The connection on the [out] socket is not accepted. *)
Definition outputRefused : Reaction :=
  fun _ _ => mkPeers AcceptFails (Connected "" false) (Connected "" false)
               (Connected "0" false).

Definition removals (tr : list Event) : nat :=
  List.length (filter (fun e => match e with EvRemove _ _ => true | _ => false end) tr).

(** A host where everything listens. *)
Definition busyHost : Host := mkHost [] (fun _ => true) (fun _ => "") programs.

(** *** Further measures *)

(** The connections made, in the order of the dials. *)
Fixpoint dials (tr : list Event) : list Conn :=
  match tr with
  | [] => []
  | EvDial r addr true :: rest => mkConn r addr :: dials rest
  | _ :: rest => dials rest
  end.

(** The connections closed, in the order of the calls of [Close]. *)
Fixpoint closes (tr : list Event) : list Conn :=
  match tr with
  | [] => []
  | EvClose k :: rest => k :: closes rest
  | _ :: rest => closes rest
  end.

(** The dials that failed and the lines of log among events. *)
Definition failures (tr : list Event) : nat :=
  List.length (filter (fun e => match e with EvDial _ _ false => true | _ => false end) tr).

Definition logs (tr : list Event) : nat :=
  List.length (filter (fun e => match e with EvLog _ _ => true | _ => false end) tr).

(** The connections of a result of [dialAll] that are not nil. *)
Definition made (conns : option Conn * option Conn * option Conn * option Conn)
    : list Conn :=
  let '(o, i, e, x) := conns in
  (match o with Some k => [k] | None => [] end)
  ++ (match i with Some k => [k] | None => [] end)
  ++ (match e with Some k => [k] | None => [] end)
  ++ (match x with Some k => [k] | None => [] end).

(** No peer of the four sockets fails to be accepted. *)
Definition accepted (p : Peers) : bool :=
  match p_out p, p_err p, p_in p, p_exit p with
  | AcceptFails, _, _, _ | _, AcceptFails, _, _
  | _, _, AcceptFails, _ | _, _, _, AcceptFails => false
  | _, _, _, _ => true
  end.

(** Each of the four sockets has a peer that connects, and the peers of
    the sockets [Send] reads from close. *)
Definition served (p : Peers) : bool :=
  match p_out p, p_err p, p_in p, p_exit p with
  | Connected _ _, Connected _ _, (Connected _ _ | Lingers _), Connected _ _ => true
  | _, _, _, _ => false
  end.

(** The calls of [Close] on the broker connection among events. *)
Definition disconnections (tr : list Event) : nat :=
  List.length
    (filter (fun e => match e with EvCloseConnection => true | _ => false end) tr).

(** How the goroutine for an output ends, by its peer. *)
Definition outEnd (peer : Peer) : TaskEnd :=
  match peer with
  | NoPeer | Lingers _ => TaskBlocks
  | AcceptFails => TaskPanics
  | Connected _ _ => Done
  end.

(** How the goroutine for standard input ends, by the input and its peer. *)
Definition inEnd (s : Stdin) (peer : Peer) : TaskEnd :=
  match peer, s with
  | NoPeer, _ | _, Silent => TaskBlocks
  | AcceptFails, _ => TaskPanics
  | _, _ => Done
  end.

(** What the goroutine for the exit status comes to, by its peer. *)
Definition exitEnd (peer : Peer) : ExitTask :=
  match peer with
  | NoPeer | Lingers _ => ExitBlocks
  | AcceptFails => ExitPanics
  | Connected buf _ =>
    match Strconv.Atoi buf with
    | Some exitCode => Sends exitCode
    | None => Sends (-1)
    end
  end.

(** How [wg.Wait()] and [<-exit] end, by the input and the four peers. *)
Definition verdict (s : Stdin) (p : Peers) : Exec Z :=
  match outEnd (p_out p), outEnd (p_err p), inEnd s (p_in p), exitEnd (p_exit p) with
  | TaskPanics, _, _, _ | _, TaskPanics, _, _ | _, _, TaskPanics, _
  | _, _, _, ExitPanics => Crashes
  | Done, Done, Done, Sends exitCode => Val exitCode
  | _, _, _, _ => Blocks
  end.

(** No file is removed with [os.Remove] and the broker connection is not
    closed between two states. *)
Definition quietly (w w' : World) : Prop :=
  removals (trace w') = removals (trace w)
  /\ disconnections (trace w') = disconnections (trace w).

(** A path element that [path.Clean] keeps as it is: it is not empty,
    does not start with a dot and has no slash. *)
Definition simple (s : string) : bool :=
  match s with
  | EmptyString => false
  | String c _ => negb (Ascii.eqb c ".") && negb (contains "/" s)
  end.

(** The absolute path made of the given elements. *)
Fixpoint absolute (l : list string) : string :=
  match l with
  | [] => ""
  | e :: rest => "/" ++ e ++ absolute rest
  end.

(** The functions of the library are not unfolded when a goal is
    simplified. *)
Arguments Path.Join : simpl never.
Arguments Path.Clean : simpl never.
Arguments inTemp : simpl never.
Arguments getTemp : simpl never.
Arguments genCommandPipeSocket : simpl never.
Arguments Json.Marshal : simpl never.
Arguments Json.Unmarshal : simpl never.
Arguments Strconv.Itoa : simpl never.
Arguments Strconv.Atoi : simpl never.
Arguments Utf8.ToValidUTF8 : simpl never.
Arguments Utf8.ValidString : simpl never.

(** * Properties *)

(** ** Strings *)

Lemma append_assoc (a b c : string) : ((a ++ b) ++ c = a ++ (b ++ c))%string.
Proof.
  induction a as [| x a IH]; simpl; [reflexivity | now rewrite IH].
Qed.

Lemma append_nil_r (a : string) : (a ++ "")%string = a.
Proof.
  induction a as [| x a IH]; simpl; [reflexivity | now rewrite IH].
Qed.

Lemma length_append (a b : string) :
  String.length (a ++ b) = (String.length a + String.length b)%nat.
Proof.
  induction a as [| x a IH]; simpl; [reflexivity | now rewrite IH].
Qed.

Lemma take_drop (n : nat) (s : string) : (take n s ++ drop n s)%string = s.
Proof.
  revert s; induction n as [| n IH]; intros [| c s]; simpl; try reflexivity.
  now rewrite IH.
Qed.

Lemma length_drop (n : nat) (s : string) :
  String.length (drop n s) = (String.length s - n)%nat.
Proof.
  revert s; induction n as [| n IH]; intros [| c s]; simpl; try reflexivity.
  apply IH.
Qed.

(** ** UTF-8 *)

Module Utf8Facts.
Import Utf8.

Lemma byteOf_byteN (b : ascii) : byteOf (byteN b) = b.
Proof. apply ascii_N_embedding. Qed.

Lemma byteN_bound (b : ascii) : (byteN b < 256)%N.
Proof. apply N_ascii_bounded. Qed.

Lemma in_rangeN (lo hi x : N) : (lo <= x <= hi)%N -> In x (rangeN lo hi).
Proof.
  intros H. unfold rangeN. apply in_map_iff. exists (N.to_nat x).
  split; [apply N2Nat.id |]. apply in_seq. lia.
Qed.

Lemma check_all : forallb check (rangeN 0x80 0xFF) = true.
Proof. vm_compute. reflexivity. Qed.


Lemma check_at (p0 : N) : (0x80 <= p0 < 256)%N -> check p0 = true.
Proof.
  intros H. pose proof check_all as A.
  rewrite forallb_forall in A. apply A, in_rangeN. lia.
Qed.

Lemma first_range (p0 : N) sz lo hi :
  first p0 = Some (sz, lo, hi) ->
  (0x80 <= p0)%N /\ (0x80 <= lo)%N /\ (hi <= 0xBF)%N /\ (2 <= sz <= 4)%nat.
Proof.
  unfold first.
  repeat match goal with
         | |- context [if ?c then _ else _] => destruct c eqn:?
         end; intros [= <- <- <-]; repeat split; try lia;
    match goal with
    | H : (p0 <? 194)%N = false |- _ => apply N.ltb_ge in H; lia
    end.
Qed.

(** Encoding the rune of a valid sequence gives the sequence back. *)
Lemma EncodeRune_DecodeRune (s : string) :
  invalidAt s = false ->
  (0x80 <= byteN (match s with String b _ => b | EmptyString => zero end))%N ->
  EncodeRune (fst (DecodeRune s)) = take (snd (DecodeRune s)) s
  /\ (1 <= snd (DecodeRune s) <= String.length s)%nat
  /\ forall t, DecodeRune (take (snd (DecodeRune s)) s ++ t) = DecodeRune s.
Proof.
  destruct s as [| b0 s1]; [intros _ H; cbv in H; now contradiction H |].
  unfold invalidAt, DecodeRune. intros Hv H0.
  assert ((byteN b0 <? 128)%N = false) as E0 by (apply N.ltb_ge; exact H0).
  rewrite E0 in *.
  destruct (first (byteN b0)) as [[[sz lo] hi] |] eqn:F; [| discriminate Hv].
  pose proof (first_range _ _ _ _ F) as (_ & Hlo & Hhi & Hsz).
  pose proof (check_at (byteN b0) (conj H0 (byteN_bound b0))) as C.
  unfold check in C. rewrite F in C. rewrite forallb_forall in C.
  destruct s1 as [| b1 s2]; [discriminate Hv |].
  destruct ((byteN b1 <? lo) || (hi <? byteN b1))%N eqn:E1; [discriminate Hv |].
  apply orb_false_iff in E1. destruct E1 as [E1a E1b].
  apply N.ltb_ge in E1a, E1b.
  specialize (C (byteN b1) (in_rangeN _ _ _ (conj E1a E1b))).
  cbn [append take] in *.
  destruct (sz <=? 2)%nat eqn:S2.
  - apply String.eqb_eq in C.
    cbn [fst snd take String.length]. unfold rune2, bytes in C. cbn in C.
    rewrite !byteOf_byteN in C. repeat split; try lia.
    + exact C.
    + intros t. cbn [append]. rewrite E0, F.
      replace ((byteN b1 <? lo) || (hi <? byteN b1))%N with false;
        [rewrite S2; reflexivity |].
      symmetry. apply orb_false_iff. split; apply N.ltb_ge; assumption.
  - rewrite forallb_forall in C.
    destruct s2 as [| b2 s3]; [discriminate Hv |].
    destruct (cont (byteN b2)) eqn:E2; cbn [negb] in *; [| discriminate Hv].
    assert (0x80 <= byteN b2 <= 0xBF)%N as R2.
    { unfold cont in E2. apply andb_true_iff in E2. destruct E2 as [A B].
      apply N.leb_le in A, B. lia. }
    specialize (C (byteN b2) (in_rangeN _ _ _ R2)).
    destruct (sz <=? 3)%nat eqn:S3.
    + apply String.eqb_eq in C.
      cbn [fst snd take String.length]. unfold rune3, bytes in C. cbn in C.
      rewrite !byteOf_byteN in C. repeat split; try lia.
      * exact C.
      * intros t. cbn [append]. rewrite E0, F.
        replace ((byteN b1 <? lo) || (hi <? byteN b1))%N with false;
          [rewrite S2; cbn [append]; rewrite E2; cbn [negb]; rewrite S3; reflexivity |].
        symmetry. apply orb_false_iff. split; apply N.ltb_ge; assumption.
    + rewrite forallb_forall in C.
      destruct s3 as [| b3 s4]; [discriminate Hv |].
      destruct (cont (byteN b3)) eqn:E3; cbn [negb] in *; [| discriminate Hv].
      assert (0x80 <= byteN b3 <= 0xBF)%N as R3.
      { unfold cont in E3. apply andb_true_iff in E3. destruct E3 as [A B].
        apply N.leb_le in A, B. lia. }
      specialize (C (byteN b3) (in_rangeN _ _ _ R3)).
      apply String.eqb_eq in C.
      cbn [fst snd take String.length]. unfold rune4, bytes in C. cbn in C.
      rewrite !byteOf_byteN in C. repeat split; try lia.
      * exact C.
      * intros t. cbn [append]. rewrite E0, F.
        replace ((byteN b1 <? lo) || (hi <? byteN b1))%N with false;
          [rewrite S2; cbn [append]; rewrite E2; cbn [negb]; rewrite S3;
           cbn [append]; rewrite E3; reflexivity |].
        symmetry. apply orb_false_iff. split; apply N.ltb_ge; assumption.
Qed.


Lemma DecodeRune_ascii (b : ascii) (s : string) :
  (byteN b < 0x80)%N ->
  DecodeRune (String b s) = (byteN b, 1%nat) /\ invalidAt (String b s) = false.
Proof.
  intros H. unfold invalidAt, DecodeRune.
  apply N.ltb_lt in H. rewrite H. split; [reflexivity |].
  apply N.ltb_lt in H.
  destruct (N.eqb_spec (byteN b) RuneError) as [E |]; [| reflexivity].
  unfold RuneError in E. lia.
Qed.

Lemma DecodeRune_size (s : string) :
  s <> "" -> (1 <= snd (DecodeRune s) <= String.length s)%nat.
Proof.
  destruct s as [| b s1]; [congruence |]. intros _.
  destruct (byteN b <? 0x80)%N eqn:E.
  - apply N.ltb_lt in E. destruct (DecodeRune_ascii b s1 E) as [-> _].
    cbn. lia.
  - apply N.ltb_ge in E.
    destruct (invalidAt (String b s1)) eqn:V.
    + unfold invalidAt in V. destruct (DecodeRune (String b s1)) as [c size].
      apply andb_true_iff in V. destruct V as [_ V].
      apply Nat.eqb_eq in V. subst. cbn. lia.
    + apply (EncodeRune_DecodeRune _ V E).
Qed.

(** A string that is valid UTF-8 is left as it is. *)
Lemma toValidFuel_valid (fuel : nat) :
  forall s, validFuel fuel s = true -> toValidFuel fuel s = s.
Proof.
  induction fuel as [| fuel IH]; intros [| b s1] H; try reflexivity.
  - discriminate H.
  - cbn [validFuel toValidFuel] in *.
    destruct (invalidAt (String b s1)); [discriminate H |].
    rewrite (IH _ H). apply take_drop.
Qed.

Lemma ToValidUTF8_valid (s : string) : ValidString s = true -> ToValidUTF8 s = s.
Proof. apply toValidFuel_valid. Qed.

Lemma validFuel_ascii (s : string) :
  isASCII s = true -> forall fuel, (String.length s <= fuel)%nat -> validFuel fuel s = true.
Proof.
  induction s as [| b s IH]; intros H fuel Hf.
  - destruct fuel; reflexivity.
  - cbn [isASCII] in H. apply andb_true_iff in H. destruct H as [Hb Hs].
    apply N.ltb_lt in Hb.
    destruct fuel as [| fuel]; [cbn in Hf; lia |].
    cbn [validFuel].
    destruct (DecodeRune_ascii b s Hb) as [-> ->]. cbn [snd drop].
    apply IH; [exact Hs | cbn in Hf; lia].
Qed.

Lemma ValidString_ascii (s : string) : isASCII s = true -> ValidString s = true.
Proof. intros H. apply validFuel_ascii; [exact H | lia]. Qed.

Lemma isASCII_app (a b : string) : isASCII (a ++ b) = isASCII a && isASCII b.
Proof.
  induction a as [| x a IH]; cbn [append isASCII]; [reflexivity |].
  rewrite IH. apply andb_assoc.
Qed.

End Utf8Facts.

(** ** The wire form of a descriptor *)

Module JsonFacts.
Import Json Utf8 Utf8Facts.

Lemma drop_take_app (n : nat) :
  forall s t, (n <= String.length s)%nat -> drop n (take n s ++ t) = t.
Proof.
  induction n as [| n IH]; intros s t H.
  - reflexivity.
  - destruct s as [| c s]; cbn in H; [lia |].
    cbn [take append drop]. apply IH. lia.
Qed.

Lemma escapeASCII_length (b : ascii) : (1 <= String.length (escapeASCII b))%nat.
Proof.
  unfold escapeASCII.
  repeat match goal with
         | |- context [if ?c then _ else _] => destruct c
         end; cbn; lia.
Qed.

(** Reading what was written for one ASCII byte gives the byte. *)
Lemma unquote_ascii (b : ascii) :
  (byteN b < 0x80)%N ->
  forall fuel rest acc,
    unquoteBody (S fuel) (escapeASCII b ++ rest) acc
    = unquoteBody fuel rest (acc ++ String b "").
Proof.
  intros H fuel rest acc.
  destruct b as [[] [] [] [] [] [] [] []];
    first [reflexivity | exfalso; vm_compute in H; discriminate H].
Qed.

Lemma unquote_replacement (fuel : nat) (rest acc : string) :
  unquoteBody (S fuel) (String backslash "ufffd" ++ rest) acc
  = unquoteBody fuel rest (acc ++ encode3 RuneError).
Proof. reflexivity. Qed.

Lemma unquote_separator (c : N) (fuel : nat) (rest acc : string) :
  c = 0x2028%N \/ c = 0x2029%N ->
  unquoteBody (S fuel)
    (String backslash "u202" ++ String (hexDigit (N.land c 0xF)) "" ++ rest) acc
  = unquoteBody fuel rest (acc ++ EncodeRune c).
Proof. intros [-> | ->]; reflexivity. Qed.

Lemma unquote_copy (s : string) (b : ascii) (s1 : string) :
  s = String b s1 ->
  (0x80 <= byteN b)%N ->
  invalidAt s = false ->
  forall fuel rest acc,
    unquoteBody (S fuel) (take (snd (DecodeRune s)) s ++ rest) acc
    = unquoteBody fuel rest (acc ++ take (snd (DecodeRune s)) s).
Proof.
  intros -> Hb Hv fuel rest acc.
  destruct (EncodeRune_DecodeRune _ Hv Hb) as (Henc & Hsize & Hpre).
  specialize (Hpre rest).
  destruct (DecodeRune (String b s1)) as [r size] eqn:D.
  cbn [fst snd] in *.
  destruct size as [| size]; [lia |].
  cbn [take append] in *.
  cbn [unquoteBody].
  assert ((byteN b =? 34)%N = false) as -> by (apply N.eqb_neq; lia).
  assert ((byteN b =? 92)%N = false) as -> by (apply N.eqb_neq; lia).
  assert ((byteN b <? 32)%N = false) as -> by (apply N.ltb_ge; lia).
  assert ((byteN b <? 128)%N = false) as -> by (apply N.ltb_ge; lia).
  rewrite Hpre. cbn [drop]. rewrite Henc.
  f_equal. apply drop_take_app. cbn in Hsize. lia.
Qed.


(** Reading the body of a written string gives the string coerced to
    valid UTF-8. *)
Lemma unquote_encodeBody (fe : nat) :
  forall s, (String.length s <= fe)%nat ->
  forall fu rest acc,
    (String.length (encodeBody fe s) < fu)%nat ->
    unquoteBody fu (encodeBody fe s ++ String dquote rest) acc
    = Some (acc ++ toValidFuel fe s, rest).
Proof.
  induction fe as [| fe IH]; intros s Hs fu rest acc Hfu.
  - destruct s; [| cbn in Hs; lia].
    destruct fu; [lia |]. cbn. now rewrite append_nil_r.
  - destruct s as [| b s1].
    + destruct fu; [lia |]. cbn. now rewrite append_nil_r.
    + cbn [String.length] in Hs.
      cbn [encodeBody toValidFuel] in *.
      destruct (byteN b <? 128)%N eqn:Eb.
      * apply N.ltb_lt in Eb.
        destruct (DecodeRune_ascii b s1 Eb) as [D V]. rewrite V, D.
        cbn [snd take drop append].
        rewrite length_append in Hfu. pose proof (escapeASCII_length b).
        destruct fu as [| fu]; [lia |].
        rewrite append_assoc, (unquote_ascii b Eb).
        rewrite IH by lia. now rewrite append_assoc.
      * apply N.ltb_ge in Eb.
        unfold invalidAt.
        pose proof (DecodeRune_size (String b s1) ltac:(discriminate)) as Hsize.
        pose proof (EncodeRune_DecodeRune (String b s1)) as Henc.
        pose proof (unquote_copy (String b s1) b s1 eq_refl Eb) as Hcopy.
        unfold invalidAt in Henc, Hcopy.
        destruct (DecodeRune (String b s1)) as [c size] eqn:D.
        cbn [fst snd] in *.
        destruct ((c =? RuneError)%N && (size =? 1)%nat) eqn:V.
        -- rewrite length_append in Hfu. cbn [String.length] in Hfu.
           destruct fu as [| fu]; [lia |].
           rewrite append_assoc, unquote_replacement.
           rewrite IH by lia. now rewrite append_assoc.
        -- specialize (Henc eq_refl Eb). destruct Henc as (Henc & _ & _).
           assert (String.length (drop size (String b s1)) <= fe)%nat as Hd
             by (rewrite length_drop; cbn [String.length]; lia).
           destruct ((c =? 8232)%N || (c =? 8233)%N) eqn:Sep.
           ++ rewrite !length_append in Hfu. cbn [String.length] in Hfu.
              destruct fu as [| fu]; [lia |].
              rewrite !append_assoc, unquote_separator.
              ** rewrite IH by lia. now rewrite Henc, append_assoc.
              ** apply orb_true_iff in Sep.
                 destruct Sep as [E | E]; apply N.eqb_eq in E; auto.
           ++ rewrite length_append in Hfu.
              assert (1 <= String.length (take size (String b s1)))%nat.
              { destruct size; [lia |]. cbn. lia. }
              destruct fu as [| fu]; [lia |].
              rewrite append_assoc, (Hcopy eq_refl).
              rewrite IH by lia. now rewrite append_assoc.
Qed.

(** A written string is read back as the string coerced to valid UTF-8. *)
Lemma parseValue_appendString (s rest : string) (fuel : nat) :
  parseValue (S fuel) (appendString s ++ rest) = Some (Str (ToValidUTF8 s), rest).
Proof.
  unfold appendString. cbn [append parseValue].
  change (byteN dquote =? 34)%N with true. cbv iota.
  rewrite append_assoc. cbn [append].
  rewrite unquote_encodeBody.
  - reflexivity.
  - lia.
  - cbn [String.length]. rewrite length_append. lia.
Qed.


Lemma encodeElems_head (e : string) (l : list string) :
  exists t, encodeElems (e :: l) = String dquote t.
Proof.
  destruct l; cbn [encodeElems]; unfold appendString; cbn [append]; eauto.
Qed.

Lemma parseElems_eq (fuel : nat) (s : string) :
  parseElems (S fuel) s =
  match parseValue fuel s with
  | None => None
  | Some (v, rest) =>
    match skipWS rest with
    | String c r1 =>
      if (byteN c =? 0x2C)%N then
        match parseElems fuel (skipWS r1) with
        | Some (vs, r2) => Some (v :: vs, r2)
        | None => None
        end
      else if (byteN c =? 0x5D)%N then Some ([v], r1)
      else None
    | EmptyString => None
    end
  end.
Proof. reflexivity. Qed.

Lemma parseElems_encodeElems (l : list string) :
  forall fuel rest,
    l <> [] -> (List.length l <= fuel)%nat ->
    parseElems (S fuel) (encodeElems l ++ String "]" rest)
    = Some (readBack l, rest).
Proof.
  induction l as [| e l IH]; intros fuel rest Hne Hf; [congruence |].
  cbn [List.length] in Hf. destruct fuel as [| fuel]; [lia |].
  destruct l as [| e2 l].
  - cbn [encodeElems]. rewrite parseElems_eq, parseValue_appendString.
    reflexivity.
  - change (encodeElems (e :: e2 :: l))
      with (appendString e ++ "," ++ encodeElems (e2 :: l)).
    rewrite append_assoc. rewrite parseElems_eq.
    rewrite parseValue_appendString.
    rewrite append_assoc. cbn [append skipWS].
    change (isSpace ",") with false. cbv iota.
    change (byteN "," =? 44)%N with true. cbv iota.
    destruct (encodeElems_head e2 l) as [t Ht].
    assert (skipWS (encodeElems (e2 :: l) ++ String "]" rest)
            = encodeElems (e2 :: l) ++ String "]" rest) as ->
      by (rewrite Ht; reflexivity).
    rewrite IH; [reflexivity | discriminate | cbn [List.length] in *; lia].
Qed.

Lemma parseValue_encodeSlice (s : StringSlice) (fuel : nat) (rest : string) :
  (List.length (elems s) <= fuel)%nat ->
  parseValue (S (S fuel)) (encodeSlice s ++ rest) = Some (sliceValue s, rest).
Proof.
  intros Hf. destruct s as [| [| e l]].
  - reflexivity.
  - reflexivity.
  - cbn [encodeSlice elems sliceValue] in *.
    rewrite !append_assoc. cbn [append parseValue].
    change (byteN "[" =? 34)%N with false.
    change (byteN "[" =? 123)%N with false.
    change (byteN "[" =? 91)%N with true. cbv iota.
    destruct (encodeElems_head e l) as [t Ht].
    pose proof (parseElems_encodeElems (e :: l) fuel rest ltac:(discriminate) Hf) as P.
    rewrite Ht in *. cbn [append skipWS] in *.
    change (isSpace dquote) with false. cbv iota.
    change (byteN dquote =? 93)%N with false. cbv iota.
    rewrite P. reflexivity.
Qed.

Lemma intoElems_readBack (l : list string) :
  intoElems (readBack l) = Some (map ToValidUTF8 l).
Proof.
  induction l as [| e l IH]; [reflexivity |].
  change (readBack (e :: l)) with (Str (ToValidUTF8 e) :: readBack l).
  cbn [intoElems intoString map]. now rewrite IH.
Qed.

Lemma intoSlice_sliceValue (s : StringSlice) :
  intoSlice (sliceValue s) = Some (coerceSlice s).
Proof.
  destruct s as [| l]; [reflexivity |].
  cbn [sliceValue intoSlice coerceSlice]. now rewrite intoElems_readBack.
Qed.

(** One member of an object, its key a plain name, followed by another
    member or by the closing brace. *)
Lemma parseMembers_member (name T tail : string) (v : value) (fuel : nat) :
  encodeBody (String.length name) name = name ->
  ToValidUTF8 name = name ->
  parseValue fuel (T ++ tail) = Some (v, tail) ->
  skipWS (T ++ tail) = T ++ tail ->
  (forall t ms r,
      tail = String "," t -> skipWS t = t ->
      parseMembers fuel t = Some (ms, r) ->
      parseMembers (S fuel) (key name ++ T ++ tail) = Some ((name, v) :: ms, r))
  /\ (forall r,
      tail = String "}" r ->
      parseMembers (S fuel) (key name ++ T ++ tail) = Some ([(name, v)], r)).
Proof.
  intros Henc Hval Hv Hws.
  assert (forall rest,
           unquoteBody (String.length (key name ++ rest))
             (name ++ String dquote (":" ++ rest)) ""
           = Some (name, ":" ++ rest)) as U.
  { intros rest.
    pose proof (unquote_encodeBody (String.length name) name (le_n _)
                  (String.length (key name ++ rest)) (":" ++ rest) "") as Q.
    unfold ToValidUTF8 in Hval. rewrite Henc, Hval in Q. apply Q.
    unfold key. cbn [String.length append]. rewrite !length_append. lia. }
  assert (forall rest, key name ++ rest
                       = String dquote (name ++ String dquote (":" ++ rest))) as K.
  { intros rest. unfold key. cbn [append]. now rewrite append_assoc. }
  split.
  - intros t ms r -> Ht Hms.
    pose proof (U (T ++ String "," t)) as Uk. rewrite K in *.
    cbn [parseMembers]. change (byteN dquote =? 34)%N with true. cbv iota.
    rewrite Uk. cbn [append skipWS].
    change (isSpace ":") with false. cbv iota.
    change (byteN ":" =? 58)%N with true. cbv iota.
    rewrite Hws, Hv. cbn [skipWS].
    change (isSpace ",") with false. cbv iota.
    change (byteN "," =? 44)%N with true. cbv iota.
    rewrite Ht, Hms. reflexivity.
  - intros r ->.
    pose proof (U (T ++ String "}" r)) as Uk. rewrite K in *.
    cbn [parseMembers]. change (byteN dquote =? 34)%N with true. cbv iota.
    rewrite Uk. cbn [append skipWS].
    change (isSpace ":") with false. cbv iota.
    change (byteN ":" =? 58)%N with true. cbv iota.
    rewrite Hws, Hv. cbn [skipWS].
    change (isSpace "}") with false. cbv iota.
    change (byteN "}" =? 44)%N with false.
    change (byteN "}" =? 125)%N with true. cbv iota.
    reflexivity.
Qed.


Lemma parseValue_object (fuel : nat) (s1 : string) :
  parseValue (S fuel) (String "{" s1) =
  match skipWS s1 with
  | String c' rest =>
    if (byteN c' =? 0x7D)%N then Some (Object [], rest)
    else
      match parseMembers fuel (skipWS s1) with
      | Some (ms, rest') => Some (Object ms, rest')
      | None => None
      end
  | EmptyString => None
  end.
Proof. reflexivity. Qed.

Lemma skipWS_encodeSlice (s : StringSlice) (rest : string) :
  skipWS (encodeSlice s ++ rest) = encodeSlice s ++ rest.
Proof. destruct s; reflexivity. Qed.

Lemma parseValue_Marshal (c : Command) (fuel : nat) :
  (List.length (elems (Params c)) <= fuel)%nat ->
  (List.length (elems (Env c)) <= fuel)%nat ->
  parseValue (10 + fuel) (Marshal c)
  = Some (Object [("name", Str (ToValidUTF8 (Name c)));
                  ("params", sliceValue (Params c));
                  ("env", sliceValue (Env c));
                  ("out", Str (ToValidUTF8 (Out c)));
                  ("in", Str (ToValidUTF8 (In_ c)));
                  ("error", Str (ToValidUTF8 (Error c)));
                  ("exit", Str (ToValidUTF8 (Exit c)))], "").
Proof.
  intros HP HE. unfold Marshal. cbn [Nat.add].
  change ("{" ++ ?x) with (String "{" x).
  rewrite parseValue_object.
  assert (forall n x, skipWS (key n ++ x) = key n ++ x) as SK by reflexivity.
  rewrite SK. unfold key at 1. cbn [append].
  change (byteN dquote =? 125)%N with false. cbv iota.
  fold (key "name").
  change (String dquote ("name" ++ String dquote ":" ++ ?x)) with (key "name" ++ x).
  erewrite (proj1 (parseMembers_member "name" _ _ _ _ eq_refl eq_refl
                     (parseValue_appendString _ _ _) eq_refl));
    [reflexivity | reflexivity | apply SK |].
  erewrite (proj1 (parseMembers_member "params" _ _ _ _ eq_refl eq_refl
                     (parseValue_encodeSlice _ _ _ _) (skipWS_encodeSlice _ _)));
    [reflexivity | reflexivity | apply SK |].
  erewrite (proj1 (parseMembers_member "env" _ _ _ _ eq_refl eq_refl
                     (parseValue_encodeSlice _ _ _ _) (skipWS_encodeSlice _ _)));
    [reflexivity | reflexivity | apply SK |].
  erewrite (proj1 (parseMembers_member "out" _ _ _ _ eq_refl eq_refl
                     (parseValue_appendString _ _ _) eq_refl));
    [reflexivity | reflexivity | apply SK |].
  erewrite (proj1 (parseMembers_member "in" _ _ _ _ eq_refl eq_refl
                     (parseValue_appendString _ _ _) eq_refl));
    [reflexivity | reflexivity | apply SK |].
  erewrite (proj1 (parseMembers_member "error" _ _ _ _ eq_refl eq_refl
                     (parseValue_appendString _ _ _) eq_refl));
    [reflexivity | reflexivity | apply SK |].
  apply (proj2 (parseMembers_member "exit" _ _ _ _ eq_refl eq_refl
                  (parseValue_appendString _ _ _) eq_refl)).
  reflexivity.
  Unshelve. all: lia.
Qed.


Lemma appendString_length (s : string) : (2 <= String.length (appendString s))%nat.
Proof.
  unfold appendString. cbn [String.length]. rewrite length_append. cbn. lia.
Qed.

Lemma encodeElems_length (l : list string) :
  (List.length l <= String.length (encodeElems l))%nat.
Proof.
  induction l as [| e l IH]; [cbn; lia |].
  pose proof (appendString_length e).
  destruct l as [| e2 l]; [cbn [encodeElems List.length]; lia |].
  change (encodeElems (e :: e2 :: l))
    with (appendString e ++ "," ++ encodeElems (e2 :: l)).
  rewrite !length_append. cbn [List.length] in *. lia.
Qed.

Lemma encodeSlice_length (s : StringSlice) :
  (List.length (elems s) <= String.length (encodeSlice s))%nat.
Proof.
  destruct s as [| l]; [cbn; lia |].
  cbn [elems encodeSlice]. rewrite !length_append.
  pose proof (encodeElems_length l). lia.
Qed.

(** Writing a descriptor and reading it back gives the descriptor with
    every string coerced to valid UTF-8. *)
Theorem Unmarshal_Marshal (c : Command) : Unmarshal (Marshal c) = Some (coerce c).
Proof.
  unfold Unmarshal, parse.
  assert (skipWS (Marshal c) = Marshal c) as -> by reflexivity.
  pose proof (encodeSlice_length (Params c)) as LP.
  pose proof (encodeSlice_length (Env c)) as LE.
  assert (String.length (encodeSlice (Params c))
          + String.length (encodeSlice (Env c)) + 4
          <= String.length (Marshal c))%nat as L.
  { unfold Marshal. rewrite !length_append. cbn [String.length]. lia. }
  replace (2 * String.length (Marshal c) + 2)%nat
    with (10 + (2 * String.length (Marshal c) - 8))%nat by lia.
  rewrite parseValue_Marshal by lia.
  cbn [skipWS]. unfold zeroCommand.
  cbn [fill fieldOf exactField String.eqb Ascii.eqb Bool.eqb setField intoString
       Name Params Env Out In_ Error Exit].
  rewrite !intoSlice_sliceValue. reflexivity.
Qed.

End JsonFacts.

(** ** Decimal text of an exit code *)

Module StrconvFacts.

Import Strconv.

Local Open Scope Z_scope.

Lemma digit_value (d : Z) :
  0 <= d < 10 -> isDigit (digit d) = true /\ Z.of_N (byteN (digit d)) - 48 = d.
Proof.
  intros H.
  assert (d = 0 \/ d = 1 \/ d = 2 \/ d = 3 \/ d = 4 \/ d = 5 \/ d = 6 \/ d = 7
          \/ d = 8 \/ d = 9) as Hd by lia.
  repeat (destruct Hd as [-> | Hd]; [split; reflexivity |]).
  subst d; split; reflexivity.
Qed.

Lemma parseDigits_app (s1 s2 : string) :
  forall n,
    parseDigits n (s1 ++ s2) =
    match parseDigits n s1 with
    | Some m => parseDigits m s2
    | None => None
    end.
Proof.
  induction s1 as [| c s1 IH]; intros n; simpl.
  - reflexivity.
  - destruct (isDigit c); [apply IH | reflexivity].
Qed.

Lemma formatLoop_acc (fuel : nat) :
  forall u a, formatLoop fuel u a = (formatLoop fuel u "" ++ a)%string.
Proof.
  induction fuel as [| fuel IH]; intros u a; simpl.
  - reflexivity.
  - destruct (10 <=? u).
    + rewrite (IH _ (String _ a)), (IH _ (String _ "")).
      rewrite append_assoc. reflexivity.
    + reflexivity.
Qed.

Lemma parseDigits_formatLoop (fuel : nat) :
  forall u, 0 <= u < 10 ^ Z.of_nat fuel ->
    parseDigits 0 (formatLoop fuel u "") = Some u.
Proof.
  induction fuel as [| fuel IH]; intros u Hu.
  - simpl in *. assert (u = 0) by lia. subst. reflexivity.
  - cbn [formatLoop]. destruct (10 <=? u) eqn:E.
    + apply Z.leb_le in E.
      rewrite formatLoop_acc, parseDigits_app.
      rewrite IH.
      * cbn [parseDigits].
        destruct (digit_value (u mod 10)) as [Hd Hv];
          [apply Z.mod_pos_bound; lia |].
        rewrite Hd, Hv. f_equal.
        pose proof (Z.div_mod u 10). lia.
      * split; [apply Z.div_pos; lia |].
        apply Z.div_lt_upper_bound; [lia |].
        rewrite Nat2Z.inj_succ, Z.pow_succ_r in Hu by lia. lia.
    + apply Z.leb_gt in E. cbn [parseDigits].
      destruct (digit_value u) as [Hd Hv]; [lia |].
      rewrite Hd, Hv. f_equal; lia.
Qed.

Lemma digit_not_sign (c : ascii) :
  isDigit c = true -> Ascii.eqb c "-" = false /\ Ascii.eqb c "+" = false.
Proof.
  intros H; split.
  - destruct (Ascii.eqb_spec c "-") as [-> |]; [discriminate H | reflexivity].
  - destruct (Ascii.eqb_spec c "+") as [-> |]; [discriminate H | reflexivity].
Qed.

Lemma formatLoop_nonempty (fuel : nat) (u : Z) :
  formatLoop (S fuel) u "" <> "".
Proof.
  cbn [formatLoop]. destruct (10 <=? u).
  - rewrite formatLoop_acc.
    destruct (formatLoop fuel (u / 10) ""); discriminate.
  - discriminate.
Qed.

Lemma formatLoop_head (u : Z) :
  0 <= u < 10 ^ 20 ->
  exists c rest, formatLoop 20 u "" = String c rest /\ isDigit c = true.
Proof.
  intros Hu.
  pose proof (parseDigits_formatLoop 20 u Hu) as P.
  pose proof (formatLoop_nonempty 19 u) as NE.
  destruct (formatLoop 20 u "") as [| c rest] eqn:E.
  - now contradiction NE.
  - exists c, rest. split; [reflexivity |].
    cbn [parseDigits] in P. destruct (isDigit c); [reflexivity | discriminate P].
Qed.

(** Reading back the decimal text of an [int] gives that [int]: what the
    Executor writes on the exit channel is what the Dispatcher reads. *)
Lemma Atoi_Itoa (i : Z) : minInt <= i <= maxInt -> Atoi (Itoa i) = Some i.
Proof.
  unfold minInt, maxInt. intros Hi. unfold Itoa.
  destruct (i <? 0) eqn:E.
  - apply Z.ltb_lt in E.
    assert (0 <= - i < 10 ^ 20) as Hu by lia.
    destruct (formatLoop_head _ Hu) as (c & rest & Hf & _).
    pose proof (parseDigits_formatLoop 20 (- i) Hu) as P.
    unfold Atoi. cbn [Ascii.eqb Bool.eqb orb]. rewrite Hf in *. rewrite P.
    rewrite Z.opp_involutive.
    unfold minInt, maxInt.
    replace ((- 2 ^ 63 <=? i) && (i <=? 2 ^ 63 - 1)) with true; [reflexivity |].
    symmetry. apply andb_true_iff. split; apply Z.leb_le; lia.
  - apply Z.ltb_ge in E.
    assert (0 <= i < 10 ^ 20) as Hu by lia.
    destruct (formatLoop_head _ Hu) as (c & rest & Hf & Hc).
    pose proof (parseDigits_formatLoop 20 i Hu) as P.
    destruct (digit_not_sign c Hc) as [Hm Hp].
    unfold Atoi. rewrite Hf in *. rewrite Hm, Hp. cbn [orb]. rewrite P.
    unfold minInt, maxInt.
    replace ((- 2 ^ 63 <=? i) && (i <=? 2 ^ 63 - 1)) with true; [reflexivity |].
    symmetry. apply andb_true_iff. split; apply Z.leb_le; lia.
Qed.

End StrconvFacts.

(** ** Exit codes *)

Module ExitFacts.

Local Open Scope Z_scope.

Lemma ExitStatus_range (w : Z) : -1 <= Syscall.ExitStatus w <= 255.
Proof.
  unfold Syscall.ExitStatus. destruct (negb (Syscall.Exited w)); [lia |].
  assert (Z.land (Z.shiftr w Syscall.shift) 255
          = Z.shiftr w Syscall.shift mod 2 ^ 8) as ->.
  { change 255 with (Z.ones 8). apply Z.land_ones. lia. }
  pose proof (Z.mod_pos_bound (Z.shiftr w Syscall.shift) (2 ^ 8) ltac:(lia)).
  lia.
Qed.

(** A process that exits by itself with code [c] has wait status
    [c << 8], and [ExitStatus] gives [c] back. *)
Lemma ExitStatus_exited (c : Z) :
  0 <= c <= 255 -> Syscall.ExitStatus (Z.shiftl c 8) = c.
Proof.
  intros Hc. unfold Syscall.ExitStatus, Syscall.Exited, Syscall.mask,
    Syscall.exited, Syscall.shift.
  change 127 with (Z.ones 7). rewrite Z.land_ones by lia.
  rewrite Z.shiftl_mul_pow2 by lia.
  replace (c * 2 ^ 8) with (c * 2 * 2 ^ 7) by lia.
  rewrite Z.mod_mul by lia. cbn [Z.eqb negb].
  rewrite Z.shiftr_div_pow2 by lia.
  replace (c * 2 * 2 ^ 7) with (c * 2 ^ 8) by lia.
  rewrite Z.div_mul by lia.
  change 255 with (Z.ones 8). rewrite Z.land_ones by lia.
  apply Z.mod_small. lia.
Qed.

(** A process ended by signal [s] has wait status [s] (with 0x80 added
    when it dumped core): [ExitStatus] is -1. *)
Lemma ExitStatus_signaled (s : Z) (core : bool) :
  1 <= s < 127 ->
  Syscall.ExitStatus (if core then Z.lor s 128 else s) = -1.
Proof.
  intros Hs. unfold Syscall.ExitStatus, Syscall.Exited, Syscall.mask,
    Syscall.exited.
  assert (Z.land (if core then Z.lor s 128 else s) 127 = s) as ->.
  { change 127 with (Z.ones 7). rewrite Z.land_ones by lia.
    destruct core.
    - change 128 with (2 ^ 7). rewrite <- (Z.mod_small s (2 ^ 7)) at 2 by lia.
      rewrite <- !Z.land_ones by lia. rewrite Z.land_lor_distr_l.
      change (Z.land (2 ^ 7) (Z.ones 7)) with 0. apply Z.lor_0_r.
    - apply Z.mod_small. lia. }
  destruct (s =? 0) eqn:E; [apply Z.eqb_eq in E; lia | reflexivity].
Qed.

Lemma exitCodeOf_range (err : RunError) : -1 <= exitCodeOf err <= 255.
Proof.
  destruct err as [| [w |] |]; cbn [exitCodeOf]; try lia.
  apply ExitStatus_range.
Qed.

Lemma exitCodeOf_int (err : RunError) :
  Strconv.minInt <= exitCodeOf err <= Strconv.maxInt.
Proof.
  pose proof (exitCodeOf_range err).
  unfold Strconv.minInt, Strconv.maxInt. lia.
Qed.

End ExitFacts.

(** ** The Dispatcher *)

Lemma record_record (a b : list Event) (w : World) :
  record b (record a w) = record (a ++ b) w.
Proof. unfold record; cbn. now rewrite <- app_assoc. Qed.

Lemma sendBody_listening (cl : Client) (react : Reaction) (w : World) :
  c_broker cl = true ->
  canListen cl (drawn w) (files w) = true ->
  sendBody cl react w
  = finish cl (sockets cl (drawn w))
      (await cl react (sockets cl (drawn w)) (atPublication cl w)).
Proof.
  intros Hb Hl. unfold canListen, canBind in Hl.
  apply andb_true_iff in Hl. destruct Hl as [Hl H4].
  apply andb_true_iff in Hl. destruct Hl as [Hl H3].
  apply andb_true_iff in Hl. destruct Hl as [H1 H2].
  apply negb_true_iff in H1, H2, H3, H4.
  unfold sendBody, bind, defer, OpenConnection, say, genSocket, listenOrPanic, publish.
  rewrite Hb. cbn [files listeners drawn published trace record].
  cbn [sockets s_out s_err s_in s_exit] in *.
  unfold outSock, errSock, inSock, exitSock in *.
  rewrite H1. cbn [files listeners drawn published trace record].
  rewrite H2. cbn [files listeners drawn published trace record].
  rewrite H3. cbn [files listeners drawn published trace record].
  rewrite H4. cbn [files listeners drawn published trace record].
  unfold finish, atPublication, setupEvents, descriptor, sockets, commandName, trailing,
    outSock, errSock, inSock, exitSock.
  cbn [s_out s_err s_in s_exit].
  rewrite <- !app_assoc. cbn [app].
  match goal with
  | |- context [await cl react ?s ?w0] => generalize (await cl react s w0)
  end.
  intros [[] ?]; reflexivity.
Qed.

(** ** The Executor *)

Lemma dialAll_ok (h : Host) (d : Command) :
  allDial h d = true ->
  dialAll h d
  = ((Some (outConnOf h d), Some (inConnOf h d), Some (errConnOf h d),
      Some (exitConnOf h d)), dialEvents h d).
Proof.
  unfold allDial. intros H.
  apply andb_true_iff in H. destruct H as [H H4].
  apply andb_true_iff in H. destruct H as [H H3].
  apply andb_true_iff in H. destruct H as [H1 H2].
  unfold dialAll. rewrite H1, H2, H3, H4. reflexivity.
Qed.

Lemma Consume_rejects (c : CommandConsumer) (h : Host) (payload : string)
    (d : Command) :
  Json.Unmarshal payload = Some d ->
  allDial h d = true ->
  Name d <> AllowedName c ->
  Consume c h payload = (Ok tt, rejectEvents h payload d).
Proof.
  intros Hd Ha Hn. unfold Consume. rewrite Hd, (dialAll_ok _ _ Ha).
  apply String.eqb_neq in Hn. unfold deferClose, emit. rewrite Hn.
  reflexivity.
Qed.

Lemma Consume_runs (c : CommandConsumer) (h : Host) (payload : string)
    (d : Command) :
  Json.Unmarshal payload = Some d ->
  allDial h d = true ->
  Name d = AllowedName c ->
  Consume c h payload = (Ok tt, runEvents c h payload d).
Proof.
  intros Hd Ha Hn. unfold Consume. rewrite Hd, (dialAll_ok _ _ Ha).
  apply String.eqb_eq in Hn. unfold deferClose, emit. rewrite Hn.
  unfold runEvents, execution. cbn [negb address inConnOf].
  destruct (h_run h _ _ _ _) as [[stdout stderr] err].
  cbn [fst snd app]. rewrite <- !app_assoc. reflexivity.
Qed.

(** A dial that fails ends [Consume] in a panic, at the first deferred
    [Close] of a nil connection: nothing is rejected and nothing is run. *)
Lemma Consume_panics (c : CommandConsumer) (h : Host) (payload : string)
    (d : Command) :
  Json.Unmarshal payload = Some d ->
  allDial h d = false ->
  fst (Consume c h payload) = Panic
  /\ ~ In EvReject (snd (Consume c h payload))
  /\ (forall name args env, ~ In (EvRun name args env) (snd (Consume c h payload)))
  /\ (exists r addr, In (EvDial r addr false) (snd (Consume c h payload))).
Proof.
  intros Hd Ha. unfold Consume. rewrite Hd. unfold allDial in Ha. unfold dialAll.
  destruct (h_dial h (inTemp (h_environ h) (Out d))); cbn [negb andb] in *.
  - destruct (h_dial h (inTemp (h_environ h) (In_ d))); cbn [negb andb] in *.
    + destruct (h_dial h (inTemp (h_environ h) (Error d))); cbn [negb andb] in *.
      * rewrite Ha. cbn.
        repeat split; try (intros; intuition discriminate).
        eexists _, _. right. right. right. right. left. reflexivity.
      * cbn. repeat split; try (intros; intuition discriminate).
        eexists _, _. right. right. right. left. reflexivity.
    + cbn. repeat split; try (intros; intuition discriminate).
      eexists _, _. right. right. left. reflexivity.
  - cbn. repeat split; try (intros; intuition discriminate).
    eexists _, _. right. left. reflexivity.
Qed.

(** ** One Dispatcher and one Executor *)

Lemma eqb_distinct (a b : string) : a <> b -> String.eqb a b = false /\ String.eqb b a = false.
Proof.
  intros H; split; apply String.eqb_neq; congruence.
Qed.

Lemma NoDup4 (a b c d : string) :
  NoDup [a; b; c; d] ->
  a <> b /\ a <> c /\ a <> d /\ b <> c /\ b <> d /\ c <> d.
Proof.
  intros H.
  inversion H as [| ? ? N1 H1]; subst.
  inversion H1 as [| ? ? N2 H2]; subst.
  inversion H2 as [| ? ? N3 H3]; subst.
  cbn in *. repeat split; intros ->; intuition.
Qed.

Ltac distinct H :=
  destruct (NoDup4 _ _ _ _ H) as (?D1 & ?D2 & ?D3 & ?D4 & ?D5 & ?D6);
  destruct (eqb_distinct _ _ D1) as [?E ?E];
  destruct (eqb_distinct _ _ D2) as [?E ?E];
  destruct (eqb_distinct _ _ D3) as [?E ?E];
  destruct (eqb_distinct _ _ D4) as [?E ?E];
  destruct (eqb_distinct _ _ D5) as [?E ?E];
  destruct (eqb_distinct _ _ D6) as [?E ?E].

Lemma peersOf_run (c : CommandConsumer) (h : Host) (payload : string) (d : Command) :
  NoDup [inTemp (h_environ h) (Out d); inTemp (h_environ h) (Error d);
         inTemp (h_environ h) (In_ d); inTemp (h_environ h) (Exit d)] ->
  peersOf (Ok tt, runEvents c h payload d) (reached h d)
  = mkPeers (Connected (fst (fst (execution c h d))) false)
      (Connected (snd (fst (execution c h d))) false)
      (Connected "" false)
      (Connected (Strconv.Itoa (exitCodeOf (snd (execution c h d)))) false).
Proof.
  unfold peersOf, peerOf, runEvents, reached, dialEvents, closeEvents,
    outConnOf, inConnOf, errConnOf, exitConnOf.
  destruct (execution c h d) as [[stdout stderr] err].
  generalize (inTemp (h_environ h) (Out d)) (inTemp (h_environ h) (Error d))
    (inTemp (h_environ h) (In_ d)) (inTemp (h_environ h) (Exit d)).
  intros ao ae ai ax ND. distinct ND.
  destruct err as [| sys |];
    repeat (cbn -[String.eqb Strconv.Itoa];
            rewrite ?String.eqb_refl, ?E, ?E0, ?E1, ?E2, ?E3, ?E4, ?E5, ?E6, ?E7,
              ?E8, ?E9, ?E10, ?append_nil_r, ?orb_true_r);
    reflexivity.
Qed.


(** When each of the four listeners gets a peer that connects, sends and
    closes, and standard input ends, [wg.Wait()] returns and [Send]
    returns what the bytes read on the [exit] socket stand for, -1 when
    they are no number. *)
Lemma await_connected (cl : Client) (react : Reaction) (socks : Sockets)
    (w : World) (o e i x : string) (ro re ri rx : bool) :
  ends (c_stdin cl) = true ->
  react socks w = mkPeers (Connected o ro) (Connected e re) (Connected i ri)
                    (Connected x rx) ->
  fst (await cl react socks w)
  = Val (match Strconv.Atoi x with Some n => n | None => -1 end)%Z.
Proof.
  intros He H. unfold await. rewrite H. cbn [p_out p_err p_in p_exit relayFrom relayTo].
  unfold exitTask.
  destruct (c_stdin cl); [| | discriminate He]; destruct (Strconv.Atoi x); reflexivity.
Qed.


Lemma fst_finish (cl : Client) (s : Sockets) (r : Exec Z * World) :
  fst (finish cl s r) = fst r.
Proof. unfold finish. destruct r as [[] ?]; reflexivity. Qed.

Lemma Send_connected (cl : Client) (react : Reaction) (w : World)
    (o e i x : string) (ro re ri rx : bool) :
  (1 < List.length (c_args cl))%nat ->
  c_broker cl = true ->
  canListen cl (drawn w) (files w) = true ->
  ends (c_stdin cl) = true ->
  react (sockets cl (drawn w)) (atPublication cl w)
  = mkPeers (Connected o ro) (Connected e re) (Connected i ri) (Connected x rx) ->
  fst (Send cl react w)
  = Returned (match Strconv.Atoi x with Some n => n | None => -1 end)%Z.
Proof.
  intros Ha Hb Hl He Hr. unfold Send.
  destruct (Nat.leb_spec (List.length (c_args cl)) 1) as [L | _]; [lia |].
  cbn [fst]. rewrite (sendBody_listening _ _ _ Hb Hl), fst_finish.
  now rewrite (await_connected _ _ _ _ _ _ _ _ _ _ _ _ He Hr).
Qed.


Import Utf8 Utf8Facts JsonFacts.

Lemma rand_ascii (random : nat -> ascii) :
  (forall i, (byteN (random i) < 128)%N) ->
  forall n pos, isASCII (RandStringBytesMaskImprSrc random pos n) = true.
Proof.
  intros H. unfold RandStringBytesMaskImprSrc.
  induction n as [| n IH]; intros pos; [reflexivity |].
  cbn [seq map string_of_list_ascii isASCII].
  rewrite IH. specialize (H pos). apply N.ltb_lt in H. now rewrite H.
Qed.

Lemma socket_valid (random : nat -> ascii) (pos : nat) (pipeType : string) :
  (forall i, (byteN (random i) < 128)%N) ->
  isASCII pipeType = true ->
  ToValidUTF8 (genCommandPipeSocket random pos pipeType)
  = genCommandPipeSocket random pos pipeType.
Proof.
  intros H Ht. apply ToValidUTF8_valid, ValidString_ascii.
  unfold genCommandPipeSocket. rewrite !isASCII_app, rand_ascii, Ht by exact H.
  reflexivity.
Qed.

Lemma canListen_spec (cl : Client) (n : nat) (fs : list string) :
  canListen cl n fs = true ->
  NoDup [s_out (sockets cl n); s_err (sockets cl n); s_in (sockets cl n);
         s_exit (sockets cl n)].
Proof.
  unfold canListen, canBind.
  generalize (s_out (sockets cl n)) (s_err (sockets cl n)) (s_in (sockets cl n))
    (s_exit (sockets cl n)).
  intros a b c d H.
  apply andb_true_iff in H. destruct H as [H H4].
  apply andb_true_iff in H. destruct H as [H H3].
  apply andb_true_iff in H. destruct H as [_ H2].
  apply negb_true_iff, orb_false_iff in H2, H3, H4.
  destruct H2 as [H2 _], H3 as [H3 _], H4 as [H4 _].
  unfold present in *. cbn [existsb] in *.
  repeat match goal with
         | H : _ || _ = false |- _ => apply orb_false_iff in H; destruct H
         end.
  repeat match goal with
         | H : String.eqb _ _ = false |- _ => apply String.eqb_neq in H
         end.
  repeat constructor; cbn; intuition congruence.
Qed.

Lemma exitCodeOf_runError (t : Termination) :
  wellFormed t -> exitCodeOf (runError t) = status t.
Proof.
  destruct t as [code | signal core | |]; cbn [wellFormed runError status]; intros H.
  - destruct (Z.eqb_spec code 0) as [-> | Hc]; [reflexivity |].
    cbn [exitCodeOf]. apply ExitFacts.ExitStatus_exited. exact H.
  - cbn [exitCodeOf]. apply ExitFacts.ExitStatus_signaled. exact H.
  - reflexivity.
  - reflexivity.
Qed.

Section Exchange.

Variable cl : Client.
Variable environ : list (string * string).
Variable run : string -> list string -> list string -> string -> string * string * RunError.
Variable fs : list string.

Hypothesis Hargs : (1 < List.length (c_args cl))%nat.
Hypothesis Hrandom : forall i, (byteN (c_random cl i) < 128)%N.
Hypothesis Hbroker : c_broker cl = true.
Hypothesis Hlisten : canListen cl 0 fs = true.
Hypothesis Htemp : getTemp environ = getTemp (c_environ cl).

Let d : Command := descriptor cl 0.
Let socks : Sockets := sockets cl 0.
Let w : World := atPublication cl (initial fs).
Let h : Host := hostOf environ run cl socks w.

Lemma inTemp_same (x : string) : inTemp environ x = inTemp (c_environ cl) x.
Proof. unfold inTemp. now rewrite Htemp. Qed.

Lemma reached_sockets : reached h (Json.coerce d) = socks.
Proof.
  unfold reached, socks, sockets, d, descriptor, Json.coerce, h, hostOf.
  cbn [h_environ Out In_ Error Exit].
  unfold outSock, errSock, inSock, exitSock.
  rewrite !socket_valid by (exact Hrandom || reflexivity).
  now rewrite !inTemp_same.
Qed.

Lemma sockets_distinct :
  NoDup [inTemp (h_environ h) (Out (Json.coerce d));
         inTemp (h_environ h) (Error (Json.coerce d));
         inTemp (h_environ h) (In_ (Json.coerce d));
         inTemp (h_environ h) (Exit (Json.coerce d))].
Proof.
  pose proof reached_sockets as R. unfold reached in R.
  pose proof (canListen_spec _ _ _ Hlisten) as ND. fold socks in ND.
  rewrite <- R in ND. exact ND.
Qed.

Lemma allDial_sockets : allDial h (Json.coerce d) = true.
Proof.
  pose proof reached_sockets as R. unfold reached in R.
  unfold allDial.
  replace (inTemp (h_environ h) (Out (Json.coerce d))) with (s_out socks)
    by (rewrite <- R; reflexivity).
  replace (inTemp (h_environ h) (In_ (Json.coerce d))) with (s_in socks)
    by (rewrite <- R; reflexivity).
  replace (inTemp (h_environ h) (Error (Json.coerce d))) with (s_err socks)
    by (rewrite <- R; reflexivity).
  replace (inTemp (h_environ h) (Exit (Json.coerce d))) with (s_exit socks)
    by (rewrite <- R; reflexivity).
  unfold h, hostOf, w, atPublication, present. cbn [h_dial listeners existsb initial].
  fold socks. rewrite !String.eqb_refl, !orb_true_r. reflexivity.
Qed.

Lemma input_relayed :
  h_input h (inTemp (h_environ h) (In_ (Json.coerce d))) = relayed cl.
Proof.
  pose proof reached_sockets as R. unfold reached in R.
  replace (inTemp (h_environ h) (In_ (Json.coerce d))) with (s_in socks)
    by (rewrite <- R; reflexivity).
  unfold h, hostOf. cbn [h_input]. now rewrite String.eqb_refl.
Qed.

Lemma brokered_serves (prog : string) :
  brokered [prog; commandName cl] environ run cl socks w
  = peersOf (Consume (mkConsumer (commandName cl)) h (Json.Marshal d)) socks.
Proof.
  unfold brokered, serve, Receive. cbn [List.length Nat.leb nth].
  unfold w, atPublication. cbn [published initial firstOn drawn].
  now rewrite String.eqb_refl.
Qed.


(** C1 (amended): in an exchange between a Dispatcher called for a
    command whose name is valid UTF-8 and an Executor that allows that
    command, whatever the arguments, when the standard input of the
    Dispatcher is a terminal or comes to its end, [Send] returns the
    exit status of the program the Executor ran: 0 when it exited with
    code 0, its exit code when it exited with another code, and -1 when
    it could not be started, when a signal ended it or when the host
    gives no wait status for it.  The exchange is one where the broker
    answers, the four sockets can be bound, both sides resolve the same
    base directory and the random suffixes are ASCII; [Send] returns
    because the Executor closes its four connections. *)
Theorem exchange_status (prog : string) (t : Termination) (stdout stderr : string) :
  Utf8.ValidString (commandName cl) = true ->
  ends (c_stdin cl) = true ->
  wellFormed t ->
  run (commandName cl) (elems (Json.coerceSlice (trailing cl)))
    (Environ environ
     ++ elems (Json.coerceSlice (PropogateEnvironment (c_environ cl))))%list
    (relayed cl)
  = (stdout, stderr, runError t) ->
  fst (exchange cl [prog; commandName cl] environ run fs) = Returned (status t).
Proof.
  intros Hname Hends Hwf Hrun. unfold exchange.
  assert (execution (mkConsumer (commandName cl)) h (Json.coerce d)
          = (stdout, stderr, runError t)) as Hex.
  { unfold execution. rewrite input_relayed. exact Hrun. }
  rewrite (Send_connected cl _ (initial fs) stdout stderr ""
             (Strconv.Itoa (exitCodeOf (runError t))) false false false false
             Hargs Hbroker Hlisten Hends).
  - rewrite StrconvFacts.Atoi_Itoa by apply ExitFacts.exitCodeOf_int.
    now rewrite exitCodeOf_runError.
  - cbn [drawn initial]. fold socks w. rewrite brokered_serves.
    rewrite (Consume_runs _ h _ (Json.coerce d)).
    + rewrite <- reached_sockets.
      rewrite (peersOf_run _ _ _ _ sockets_distinct), Hex. reflexivity.
    + apply Unmarshal_Marshal.
    + apply allDial_sockets.
    + cbn [Json.coerce d descriptor Name AllowedName].
      now apply ToValidUTF8_valid.
Qed.

End Exchange.

Lemma in_without (p q : string) (l : list string) :
  In p (without q l) <-> In p l /\ p <> q.
Proof.
  unfold without. rewrite filter_In, negb_true_iff, String.eqb_neq. tauto.
Qed.

Lemma extends_refl (w : World) : extends w w.
Proof.
  repeat split; [exists []; split; [now rewrite app_nil_r | reflexivity] | auto].
Qed.

Lemma extends_trans (a b c : World) : extends a b -> extends b c -> extends a c.
Proof.
  intros ((e1 & T1 & L1) & F1 & P1) ((e2 & T2 & L2) & F2 & P2).
  repeat split.
  - exists (e1 ++ e2)%list. rewrite T2, T1, <- app_assoc, forallb_app, L1, L2. auto.
  - auto.
  - congruence.
Qed.

Lemma extends_record (evs : list Event) (w : World) :
  forallb late evs = true -> extends w (record evs w).
Proof.
  intros H. repeat split; [exists evs; auto | auto].
Qed.

Lemma extends_closeListener (path : string) (w : World) :
  extends w (closeListener path w).
Proof.
  repeat split; cbn.
  - eexists; split; reflexivity.
  - intros p H. now apply in_without in H.
Qed.

Lemma extends_osRemove (path : string) (w : World) : extends w (osRemove path w).
Proof.
  repeat split; cbn.
  - eexists; split; reflexivity.
  - intros p H. now apply in_without in H.
Qed.

Lemma extends_closeConnection (w : World) : extends w (closeConnection w).
Proof. apply extends_record. reflexivity. Qed.

Lemma extends_relayFrom name sink path peer w :
  (forall data, late (sink data) = true) ->
  extends w (snd (relayFrom name sink path peer w)).
Proof.
  intros Hs. destruct peer; cbn [relayFrom snd].
  - apply extends_refl.
  - eapply extends_trans; [| apply extends_closeListener].
    apply extends_record. reflexivity.
  - eapply extends_trans; [| apply extends_closeListener].
    apply extends_record. cbn. now rewrite Hs.
  - apply extends_record. cbn. now rewrite Hs.
Qed.

Lemma extends_relayTo cl path peer w : extends w (snd (relayTo cl path peer w)).
Proof.
  destruct peer; cbn [relayTo snd]; try apply extends_refl;
    destruct (c_stdin cl); cbn [snd];
    repeat first [apply extends_record; reflexivity
                 | eapply extends_trans; [| apply extends_closeListener]].
Qed.

Lemma extends_exitTask path peer w : extends w (snd (exitTask path peer w)).
Proof.
  destruct peer as [| | buf rerr |]; cbn [exitTask];
    [| | | apply extends_record; reflexivity].
  - apply extends_refl.
  - eapply extends_trans; [| apply extends_closeListener].
    apply extends_record. reflexivity.
  - assert (extends w (if rerr
                       then record [EvLog "err reading exit socket: %s\n" [ErrorText]]
                              (record [EvAccept path true] w)
                       else record [EvAccept path true] w)) as H.
    { destruct rerr.
      - eapply extends_trans; apply extends_record; reflexivity.
      - apply extends_record; reflexivity. }
    destruct (Strconv.Atoi buf); cbn [snd]; [exact H |].
    eapply extends_trans; [exact H | apply extends_record; reflexivity].
Qed.

Lemma extends_await cl react socks w : extends w (snd (await cl react socks w)).
Proof.
  unfold await.
  pose proof (extends_relayFrom "output" EvStdout (s_out socks)
                (p_out (react socks w)) w (fun _ => eq_refl)) as H1.
  destruct (relayFrom "output" EvStdout _ _ w) as [o w1]. cbn [snd] in H1.
  pose proof (extends_relayFrom "error" EvStderr (s_err socks)
                (p_err (react socks w)) w1 (fun _ => eq_refl)) as H2.
  destruct (relayFrom "error" EvStderr _ _ w1) as [e w2]. cbn [snd] in H2.
  pose proof (extends_relayTo cl (s_in socks) (p_in (react socks w)) w2) as H3.
  destruct (relayTo cl _ _ w2) as [i w3]. cbn [snd] in H3.
  pose proof (extends_exitTask (s_exit socks) (p_exit (react socks w)) w3) as H4.
  destruct (exitTask _ _ w3) as [x w4]. cbn [snd] in H4.
  assert (extends w w2) as H12 by eauto using extends_trans.
  assert (extends w w3) as H13 by eauto using extends_trans.
  assert (extends w w4) as H by eauto using extends_trans.
  destruct o, e, i, x; cbn [snd]; try assumption.
  eapply extends_trans; [exact H | apply extends_closeListener].
Qed.

Lemma extends_cleanup cl s w : extends w (cleanup cl s w).
Proof.
  unfold cleanup.
  repeat (eapply extends_trans;
          [| first [apply extends_closeConnection | apply extends_osRemove]]).
  apply extends_refl.
Qed.

Lemma extends_finish cl s r w : extends w (snd r) -> extends w (snd (finish cl s r)).
Proof.
  intros H. unfold finish. destruct r as [[] w']; cbn [fst snd] in *; try exact H;
    (eapply extends_trans; [exact H | apply extends_cleanup]).
Qed.

(** The files left when the deferred calls of [Send] have run. *)
Lemma cleanup_files cl s w p :
  In p (files (cleanup cl s w)) ->
  In p (files w) /\ p <> s_out s /\ p <> s_err s /\ p <> s_in s /\ p <> s_exit s.
Proof.
  unfold cleanup, closeConnection, osRemove. cbn [files record].
  rewrite !in_without. tauto.
Qed.

Ltac step_listen :=
  cbn [files listeners drawn published trace record];
  match goal with
  | |- context [if present ?p ?l || negb (c_bind ?cl ?p) then _ else _] =>
    destruct (present p l || negb (c_bind cl p)) eqn:?
  end.

Ltac failed_listen :=
  cbn -[inTemp genCommandPipeSocket without present Path.Join];
  repeat split; auto;
  [ eexists; rewrite <- !app_assoc; split; reflexivity
  | intros ?; rewrite !in_without; cbn [In]; intuition congruence ].

(** When the broker does not answer or a socket cannot be bound, [Send]
    panics having published nothing, and leaves no file of its own. *)
Lemma sendBody_failing (cl : Client) (react : Reaction) (w : World) :
  c_broker cl && canListen cl (drawn w) (files w) = false ->
  fst (sendBody cl react w) = Panics
  /\ (exists evs, trace (snd (sendBody cl react w)) = (trace w ++ evs)%list
                  /\ forallb notPublish evs = true)
  /\ (forall p, In p (files (snd (sendBody cl react w))) -> In p (files w))
  /\ published (snd (sendBody cl react w)) = published w.
Proof.
  intros H.
  unfold canListen, canBind, sockets, outSock, errSock, inSock, exitSock in H.
  cbn [s_out s_err s_in s_exit] in H.
  unfold sendBody, bind, defer, OpenConnection, say, genSocket, listenOrPanic, publish.
  destruct (c_broker cl);
    [| cbn; repeat split; auto; eexists; split; reflexivity].
  step_listen; [failed_listen |].
  step_listen; [failed_listen |].
  step_listen; [failed_listen |].
  step_listen; [failed_listen |].
  exfalso.
  repeat match goal with
         | E : _ || _ = false |- _ => rewrite E in H; clear E
         end.
  discriminate H.
Qed.

Lemma late_notPublish (evs : list Event) :
  forallb late evs = true -> forallb notPublish evs = true.
Proof.
  rewrite !forallb_forall. intros H e He. specialize (H e He).
  destruct e; try reflexivity; discriminate H.
Qed.

(** The events of a call of [Send]: either nothing is published, or the
    events up to the publication are those of the set-up, the four
    sockets listened on, and nothing is published or listened on
    afterwards. *)
Lemma Send_trace (cl : Client) (react : Reaction) (w : World) :
  exists evs,
    trace (snd (Send cl react w)) = (trace w ++ evs)%list
    /\ (forallb notPublish evs = true
        \/ exists tail, evs = (setupEvents cl (drawn w) ++ tail)%list
                        /\ forallb late tail = true).
Proof.
  unfold Send. destruct (List.length (c_args cl) <=? 1)%nat.
  - cbn. eexists; split; [reflexivity | left; reflexivity].
  - cbn [snd].
    destruct (c_broker cl && canListen cl (drawn w) (files w)) eqn:E.
    + apply andb_true_iff in E. destruct E as [Hb Hl].
      rewrite (sendBody_listening _ _ _ Hb Hl).
      pose proof (extends_finish cl (sockets cl (drawn w))
                    (await cl react (sockets cl (drawn w)) (atPublication cl w))
                    (atPublication cl w) (extends_await _ _ _ _))
        as ((tail & T & L) & _).
      exists (setupEvents cl (drawn w) ++ tail)%list. split.
      * rewrite T. cbn [atPublication trace]. now rewrite app_assoc.
      * right. eauto.
    + destruct (sendBody_failing cl react w E) as (_ & (evs & T & N) & _).
      exists evs. auto.
Qed.

Lemma split_at_publication (a b before after : list Event) (x y : Event) :
  forallb notPublish a = true ->
  forallb notPublish b = true ->
  notPublish x = false -> notPublish y = false ->
  (a ++ x :: b = before ++ y :: after)%list ->
  before = a /\ y = x /\ after = b.
Proof.
  revert before. induction a as [| e a IH]; intros before Ha Hb Hx Hy H.
  - destruct before as [| e' before]; cbn in H.
    + injection H as -> ->. auto.
    + injection H as -> H. exfalso.
      assert (forallb notPublish (before ++ y :: after) = true) as F
        by (rewrite <- H; exact Hb).
      rewrite forallb_app in F. cbn in F. rewrite Hy in F.
      now rewrite andb_false_r in F.
  - cbn in Ha. apply andb_true_iff in Ha. destruct Ha as [He Ha].
    destruct before as [| e' before]; cbn in H.
    + injection H as <- _. congruence.
    + injection H as <- H. destruct (IH before Ha Hb Hx Hy H) as (-> & -> & ->).
      auto.
Qed.

(** The two ways a call of [Send] goes: it stops before the set-up is
    complete, having published nothing; or it sets up, publishes, waits
    and cleans up. *)
Lemma Send_cases (cl : Client) (react : Reaction) (w : World) :
  ((fst (Send cl react w) = Returned 1 \/ fst (Send cl react w) = Panicked)
   /\ (exists evs, trace (snd (Send cl react w)) = (trace w ++ evs)%list
                   /\ forallb notPublish evs = true)
   /\ (forall p, In p (files (snd (Send cl react w))) -> In p (files w))
   /\ published (snd (Send cl react w)) = published w)
  \/ ((1 < List.length (c_args cl))%nat
      /\ c_broker cl = true
      /\ canListen cl (drawn w) (files w) = true
      /\ Send cl react w
         = (outcome (fst (finish cl (sockets cl (drawn w))
                            (await cl react (sockets cl (drawn w))
                               (atPublication cl w)))),
            snd (finish cl (sockets cl (drawn w))
                   (await cl react (sockets cl (drawn w)) (atPublication cl w))))).
Proof.
  unfold Send. destruct (Nat.leb_spec (List.length (c_args cl)) 1) as [L | L].
  - left. cbn. repeat split; auto. eexists; split; reflexivity.
  - destruct (c_broker cl && canListen cl (drawn w) (files w)) eqn:E.
    + right. apply andb_true_iff in E. destruct E as [Hb Hl].
      rewrite (sendBody_listening _ _ _ Hb Hl). auto.
    + left. destruct (sendBody_failing cl react w E) as (F & T & Fs & P).
      cbn [fst snd]. rewrite F. auto.
Qed.

(** ** [Send] without a command name *)

(** C10: when [Send] is called with no command name (os.Args holds the
    program name only, or nothing), it returns 1 at once: the only
    effect is a line of log; in particular no connection to the broker
    is opened, no file is created, nothing is listened on and nothing is
    published. *)
Theorem Send_without_command_name (cl : Client) (react : Reaction) (w : World) :
  (List.length (c_args cl) <= 1)%nat ->
  Send cl react w = (Returned 1, record [EvLog "Need a command name argument" []] w)
  /\ files (snd (Send cl react w)) = files w
  /\ listeners (snd (Send cl react w)) = listeners w
  /\ published (snd (Send cl react w)) = published w
  /\ trace (snd (Send cl react w))
     = (trace w ++ [EvLog "Need a command name argument" []])%list.
Proof.
  intros H. unfold Send. apply Nat.leb_le in H. rewrite H. auto.
Qed.

Lemma Send_without_command_name_witness :
  Send (mkClient ["send"] [] Terminal letters true (fun _ => true)) (fun _ _ => nobody)
    (initial [])
  = (Returned 1, record [EvLog "Need a command name argument" []] (initial [])).
Proof.
  apply (Send_without_command_name
           (mkClient ["send"] [] Terminal letters true (fun _ => true))
           (fun _ _ => nobody) (initial [])).
  cbn. lia.
Defined.

(** ** Listening comes before publication *)

Lemma present_In (p : string) (l : list string) : present p l = false -> ~ In p l.
Proof.
  unfold present. intros H I.
  assert (existsb (String.eqb p) l = true) as E
    by (apply existsb_exists; exists p; split; [exact I | apply String.eqb_refl]).
  congruence.
Qed.
















Lemma canListen_absent (cl : Client) (n : nat) (fs : list string) :
  canListen cl n fs = true ->
  ~ In (s_out (sockets cl n)) fs /\ ~ In (s_err (sockets cl n)) fs
  /\ ~ In (s_in (sockets cl n)) fs /\ ~ In (s_exit (sockets cl n)) fs.
Proof.
  unfold canListen, canBind.
  generalize (s_out (sockets cl n)) (s_err (sockets cl n)) (s_in (sockets cl n))
    (s_exit (sockets cl n)).
  intros a b c d H.
  apply andb_true_iff in H. destruct H as [H H4].
  apply andb_true_iff in H. destruct H as [H H3].
  apply andb_true_iff in H. destruct H as [H1 H2].
  apply negb_true_iff, orb_false_iff in H1, H2, H3, H4.
  destruct H1 as [H1 _], H2 as [H2 _], H3 as [H3 _], H4 as [H4 _].
  apply present_In in H1, H2, H3, H4. cbn [In] in *. tauto.
Qed.

(** C5: in every call of [Send], whatever the rest of the world does,
    the descriptor is published once the four sockets named in it are
    created and listened on: the events before a publication are the
    opening of the broker connection and of the queue, the four
    successful [Listen] on the paths of the descriptor's addresses and
    the start of the four goroutines, and after the publication nothing
    is listened on or published any more.  In the state the descriptor
    is published in, which is the state the rest of the world reacts to
    and all that [Send] does afterwards starts from, the four paths are
    four different files that were not there before the call, the
    process listens on each of them, so that a dial of any of them
    finds a listener, and the descriptor is the only thing published. *)
Theorem listening_before_publication (cl : Client) (react : Reaction)
    (fs : list string) (queue payload : string) (before after : list Event) :
  trace (snd (Send cl react (initial fs)))
  = (before ++ EvPublish queue payload :: after)%list ->
  payload = Json.Marshal (descriptor cl 0)
  /\ queue = getQueueName (commandName cl)
  /\ before
     = [EvOpenConnection service "unix"
          (Path.Join [getTemp (c_environ cl); "redis.sock"]) 1;
        EvOpenQueue (getQueueName (commandName cl));
        EvListen (inTemp (c_environ cl) (Out (descriptor cl 0))) true;
        EvListen (inTemp (c_environ cl) (Error (descriptor cl 0))) true;
        EvListen (inTemp (c_environ cl) (In_ (descriptor cl 0))) true;
        EvListen (inTemp (c_environ cl) (Exit (descriptor cl 0))) true;
        EvGo ROut; EvGo RErr; EvGo RIn; EvGo RExit]
  /\ forallb late after = true
  /\ trace (atPublication cl (initial fs)) = (before ++ [EvPublish queue payload])%list
  /\ published (atPublication cl (initial fs)) = [(queue, payload)]
  /\ listeners (atPublication cl (initial fs))
     = [inTemp (c_environ cl) (Exit (descriptor cl 0));
        inTemp (c_environ cl) (In_ (descriptor cl 0));
        inTemp (c_environ cl) (Error (descriptor cl 0));
        inTemp (c_environ cl) (Out (descriptor cl 0))]
  /\ files (atPublication cl (initial fs))
     = inTemp (c_environ cl) (Exit (descriptor cl 0))
       :: inTemp (c_environ cl) (In_ (descriptor cl 0))
       :: inTemp (c_environ cl) (Error (descriptor cl 0))
       :: inTemp (c_environ cl) (Out (descriptor cl 0)) :: fs
  /\ NoDup [inTemp (c_environ cl) (Out (descriptor cl 0));
            inTemp (c_environ cl) (Error (descriptor cl 0));
            inTemp (c_environ cl) (In_ (descriptor cl 0));
            inTemp (c_environ cl) (Exit (descriptor cl 0))]
  /\ (forall p,
         In p [inTemp (c_environ cl) (Out (descriptor cl 0));
               inTemp (c_environ cl) (Error (descriptor cl 0));
               inTemp (c_environ cl) (In_ (descriptor cl 0));
               inTemp (c_environ cl) (Exit (descriptor cl 0))] ->
         ~ In p fs /\ present p (listeners (atPublication cl (initial fs))) = true)
  /\ Send cl react (initial fs)
     = (outcome
          (fst (finish cl (sockets cl 0)
                  (await cl react (sockets cl 0) (atPublication cl (initial fs))))),
        snd (finish cl (sockets cl 0)
               (await cl react (sockets cl 0) (atPublication cl (initial fs))))).
Proof.
  intros H.
  assert (forallb notPublish (before ++ EvPublish queue payload :: after) = false) as NP.
  { rewrite forallb_app. cbn. now rewrite andb_false_r. }
  destruct (Send_cases cl react (initial fs))
    as [(_ & (evs & T & N) & _) | (Hargs & Hbroker & Hlisten & Eq)].
  { exfalso. cbn [initial trace app] in T. rewrite T in H. subst evs. congruence. }
  cbn [drawn initial files] in Hlisten, Eq.
  destruct (Send_trace cl react (initial fs)) as (evs & T & [N | (tail & E & L)]).
  - exfalso. cbn [initial trace app] in T. rewrite T in H. subst evs. congruence.
  - cbn [initial trace app drawn] in T, E. rewrite T, E in H.
    assert ((setupEvents cl 0 ++ tail)%list
            = ([EvOpenConnection service "unix"
                  (Path.Join [getTemp (c_environ cl); "redis.sock"]) 1;
                EvOpenQueue (getQueueName (commandName cl));
                EvListen (inTemp (c_environ cl) (Out (descriptor cl 0))) true;
                EvListen (inTemp (c_environ cl) (Error (descriptor cl 0))) true;
                EvListen (inTemp (c_environ cl) (In_ (descriptor cl 0))) true;
                EvListen (inTemp (c_environ cl) (Exit (descriptor cl 0))) true;
                EvGo ROut; EvGo RErr; EvGo RIn; EvGo RExit]
               ++ EvPublish (getQueueName (commandName cl))
                    (Json.Marshal (descriptor cl 0)) :: tail)%list) as S
      by reflexivity.
    rewrite S in H.
    apply split_at_publication in H; try reflexivity.
    + destruct H as (-> & [= -> ->] & ->).
      destruct (canListen_absent _ _ _ Hlisten) as (A1 & A2 & A3 & A4).
      repeat (split; [reflexivity || assumption |]).
      split; [exact (canListen_spec _ _ _ Hlisten) |].
      split; [| exact Eq].
      intros p Hp. unfold atPublication. cbn [listeners initial drawn present existsb].
      cbn [In] in Hp.
      destruct Hp as [<- | [<- | [<- | [<- | []]]]];
        (split; [assumption |]); rewrite String.eqb_refl, ?orb_true_r; reflexivity.
    + apply late_notPublish, L.
Qed.

Lemma listening_before_publication_witness :
  forallb late
    (skipn 11 (trace (snd (Send echoClient (fun _ _ => nobody) (initial [])))))
  = true.
Proof.
  apply (listening_before_publication echoClient (fun _ _ => nobody) []
           (getQueueName "echo") (Json.Marshal (descriptor echoClient 0))
           (firstn 10 (trace (snd (Send echoClient (fun _ _ => nobody) (initial [])))))
           (skipn 11 (trace (snd (Send echoClient (fun _ _ => nobody) (initial [])))))).
  vm_compute. reflexivity.
Defined.

(** ** Descriptors on the wire *)

Lemma coerceSlice_valid (s : StringSlice) :
  Json.validSlice s = true -> Json.coerceSlice s = s.
Proof.
  destruct s as [| l]; [reflexivity |]. unfold Json.validSlice. cbn [elems Json.coerceSlice].
  intros H. f_equal. induction l as [| e l IH]; [reflexivity |].
  cbn [forallb map] in *. apply andb_true_iff in H. destruct H as [He Hl].
  now rewrite (ToValidUTF8_valid _ He), IH.
Qed.

(** C6, as stated, fails: a Go string holds any bytes, and [json.Marshal]
    writes a byte that is not valid UTF-8 as U+FFFD, so that the name
    [E9 74] is read back as [EF BF BD 74]. *)
Lemma roundtrip_not_for_every_descriptor :
  Json.Unmarshal (Json.Marshal latin1)
  = Some (mkCommand (String (byteOf 0xEF) (String (byteOf 0xBF) (String (byteOf 0xBD) "t")))
            (Slice []) NilSlice "o" "i" "e" "x")
  /\ Json.Unmarshal (Json.Marshal latin1) <> Some latin1.
Proof.
  split; [vm_compute; reflexivity |]. vm_compute. discriminate.
Qed.

(** C6 (amended): for every descriptor whose strings are valid UTF-8,
    whether its params and env are nil, empty or not empty, reading back
    what [json.Marshal] wrote gives the descriptor itself, field for
    field. *)
Theorem Unmarshal_Marshal_valid (c : Command) :
  Json.validCommand c = true -> Json.Unmarshal (Json.Marshal c) = Some c.
Proof.
  intros H. rewrite Unmarshal_Marshal. f_equal.
  unfold Json.validCommand in H.
  repeat match type of H with
         | _ && _ = true => apply andb_true_iff in H; destruct H as [H ?]
         end.
  destruct c as [n p e o i er ex]. unfold Json.coerce. cbn [Name Params Env Out In_ Error Exit] in *.
  rewrite !ToValidUTF8_valid, !coerceSlice_valid by assumption. reflexivity.
Qed.

Lemma Unmarshal_Marshal_valid_witness :
  Json.Unmarshal
    (Json.Marshal (mkCommand "echo" (Slice ["hi"; "a<b"]) NilSlice "o" "i" "e" "x"))
  = Some (mkCommand "echo" (Slice ["hi"; "a<b"]) NilSlice "o" "i" "e" "x").
Proof.
  apply (Unmarshal_Marshal_valid
           (mkCommand "echo" (Slice ["hi"; "a<b"]) NilSlice "o" "i" "e" "x")).
  vm_compute. reflexivity.
Defined.

(** ** The environment of the program *)





Lemma contains_app (c : ascii) (a b : string) :
  contains c (a ++ b) = contains c a || contains c b.
Proof.
  induction a as [| x a IH]; cbn [append contains]; [reflexivity |].
  now rewrite IH, orb_assoc.
Qed.




(** ** An exchange, run *)

Lemma letters_ascii (i : nat) : (byteN (letters i) < 128)%N.
Proof.
  unfold letters. destruct (Nat.modulo i 6) as [| [| [| [| [| ?]]]]]; reflexivity.
Qed.

Lemma exchange_status_witness :
  fst (exchange echoClient ["receive"; "echo"] [("HOME", "/root")] programs [])
  = Returned 0.
Proof.
  apply (exchange_status echoClient [("HOME", "/root")] programs []
           ltac:(cbn; lia) letters_ascii eq_refl
           ltac:(vm_compute; reflexivity) eq_refl
           "receive" (Exits 0) "hipayload" "").
  - vm_compute. reflexivity.
  - reflexivity.
  - cbn. lia.
  - vm_compute. reflexivity.
Defined.

(** ** A descriptor of another name *)




(** ** The addresses *)

Lemma RandString_length (random : nat -> ascii) (pos n : nat) :
  String.length (RandStringBytesMaskImprSrc random pos n) = n.
Proof.
  unfold RandStringBytesMaskImprSrc. revert pos.
  induction n as [| n IH]; intros pos; [reflexivity |].
  cbn [seq map string_of_list_ascii String.length]. now rewrite IH.
Qed.

(** C7, as stated, fails: the descriptor carries the bare names of the
    sockets, not their paths ([cmdpipe-abcdef-out] where the Dispatcher
    listens on [/tmp/cmdpipe-abcdef-out]), and each side joins a name
    under its own base directory, so that an Executor started with
    another CMDPIPE_TMP_DIR dials a path the Dispatcher does not listen
    on. *)
Lemma descriptor_carries_names :
  published (snd (Send echoClient (fun _ _ => nobody) (initial [])))
  = [("command:echo", Json.Marshal (descriptor echoClient 0))]
  /\ Out (descriptor echoClient 0) = "cmdpipe-abcdef-out"
  /\ In (EvListen "/tmp/cmdpipe-abcdef-out" true)
        (trace (snd (Send echoClient (fun _ _ => nobody) (initial []))))
  /\ ~ In (EvListen (Out (descriptor echoClient 0)) true)
          (trace (snd (Send echoClient (fun _ _ => nobody) (initial []))))
  /\ snd (dialAll otherHost (descriptor echoClient 0))
     = [EvDial ROut "/var/run/cmdpipe-abcdef-out" false;
        EvLog "Error dialing output %s: %s" [Text "cmdpipe-abcdef-out"; ErrorText]].
Proof.
  split; [vm_compute; reflexivity |].
  split; [vm_compute; reflexivity |].
  split; [vm_compute; auto 10 |].
  split; [| vm_compute; reflexivity].
  vm_compute. intros H.
  repeat (destruct H as [H | H]; [discriminate H |]). exact H.
Qed.

Lemma Send_published (cl : Client) (react : Reaction) (fs : list string)
    (queue payload : string) :
  In (queue, payload) (published (snd (Send cl react (initial fs)))) ->
  queue = getQueueName (commandName cl)
  /\ payload = Json.Marshal (descriptor cl 0)
  /\ exists tail,
       trace (snd (Send cl react (initial fs))) = (setupEvents cl 0 ++ tail)%list.
Proof.
  intros H.
  destruct (Send_cases cl react (initial fs)) as [(_ & _ & _ & P) | (_ & _ & _ & E)].
  - rewrite P in H. contradiction H.
  - rewrite E in H |- *. cbn [snd drawn initial] in *.
    pose proof (extends_finish cl (sockets cl 0)
                  (await cl react (sockets cl 0) (atPublication cl (initial fs)))
                  (atPublication cl (initial fs)) (extends_await _ _ _ _))
      as ((tail & T & _) & _ & P).
    rewrite P in H. cbn [atPublication published initial drawn In] in H.
    destruct H as [[= <- <-] | []].
    repeat split. exists tail. rewrite T. reflexivity.
Qed.

(** C7 (amended): the four addresses of every published descriptor are
    the names [cmdpipe-<suffix>-<role>] of the sockets, the role being
    out, in, err or exit and the suffix six characters long; the
    Dispatcher listens on each name joined under its base directory,
    which is CMDPIPE_TMP_DIR or [/tmp] when that is empty or not set;
    and an Executor that resolves the same base directory dials, for a
    descriptor whose suffixes are ASCII, exactly the four paths listened
    on. *)
Theorem rendezvous_addresses (cl : Client) (react : Reaction) (fs : list string)
    (queue payload : string) :
  In (queue, payload) (published (snd (Send cl react (initial fs)))) ->
  exists out inp err ext,
    String.length out = 6%nat /\ String.length inp = 6%nat
    /\ String.length err = 6%nat /\ String.length ext = 6%nat
    /\ payload
       = Json.Marshal
           (mkCommand (commandName cl) (trailing cl)
              (PropogateEnvironment (c_environ cl))
              ("cmdpipe-" ++ out ++ "-out") ("cmdpipe-" ++ inp ++ "-in")
              ("cmdpipe-" ++ err ++ "-err") ("cmdpipe-" ++ ext ++ "-exit"))
    /\ In (EvListen (Path.Join [getTemp (c_environ cl); "cmdpipe-" ++ out ++ "-out"]) true)
          (trace (snd (Send cl react (initial fs))))
    /\ In (EvListen (Path.Join [getTemp (c_environ cl); "cmdpipe-" ++ inp ++ "-in"]) true)
          (trace (snd (Send cl react (initial fs))))
    /\ In (EvListen (Path.Join [getTemp (c_environ cl); "cmdpipe-" ++ err ++ "-err"]) true)
          (trace (snd (Send cl react (initial fs))))
    /\ In (EvListen (Path.Join [getTemp (c_environ cl); "cmdpipe-" ++ ext ++ "-exit"]) true)
          (trace (snd (Send cl react (initial fs))))
    /\ (Getenv (c_environ cl) "CMDPIPE_TMP_DIR" = "" -> getTemp (c_environ cl) = "/tmp")
    /\ (Getenv (c_environ cl) "CMDPIPE_TMP_DIR" <> "" ->
        getTemp (c_environ cl) = Getenv (c_environ cl) "CMDPIPE_TMP_DIR")
    /\ forall (h : Host) (command : Command),
         Json.Unmarshal payload = Some command ->
         (forall i, (byteN (c_random cl i) < 128)%N) ->
         getTemp (h_environ h) = getTemp (c_environ cl) ->
         allDial h command = true ->
         snd (dialAll h command)
         = [EvDial ROut (Path.Join [getTemp (c_environ cl); "cmdpipe-" ++ out ++ "-out"]) true;
            EvDial RIn (Path.Join [getTemp (c_environ cl); "cmdpipe-" ++ inp ++ "-in"]) true;
            EvDial RErr (Path.Join [getTemp (c_environ cl); "cmdpipe-" ++ err ++ "-err"]) true;
            EvDial RExit (Path.Join [getTemp (c_environ cl); "cmdpipe-" ++ ext ++ "-exit"]) true].
Proof.
  intros H. destruct (Send_published _ _ _ _ _ H) as (-> & -> & tail & T).
  exists (RandStringBytesMaskImprSrc (c_random cl) 0 6),
    (RandStringBytesMaskImprSrc (c_random cl) 12 6),
    (RandStringBytesMaskImprSrc (c_random cl) 6 6),
    (RandStringBytesMaskImprSrc (c_random cl) 18 6).
  rewrite !RandString_length, T.
  repeat (split; [reflexivity |]).
  repeat (split; [apply in_or_app; left; cbn; auto 10 |]).
  split; [| split].
  - intros E. unfold getTemp. now rewrite E.
  - intros E. unfold getTemp. apply String.eqb_neq in E. now rewrite E.
  - intros h command Hd Hrandom Htemp Hdial.
    rewrite Unmarshal_Marshal in Hd. injection Hd as <-.
    rewrite (dialAll_ok _ _ Hdial). cbn [snd]. unfold dialEvents.
    unfold Json.coerce, descriptor, outSock, inSock, errSock, exitSock.
    cbn [Out In_ Error Exit Nat.add].
    rewrite !socket_valid by (exact Hrandom || reflexivity).
    unfold inTemp. rewrite Htemp. reflexivity.
Qed.

Lemma rendezvous_addresses_witness :
  exists out inp err ext,
    String.length out = 6%nat /\ String.length inp = 6%nat
    /\ String.length err = 6%nat /\ String.length ext = 6%nat
    /\ Json.Marshal (descriptor echoClient 0)
       = Json.Marshal
           (mkCommand (commandName echoClient) (trailing echoClient)
              (PropogateEnvironment (c_environ echoClient))
              ("cmdpipe-" ++ out ++ "-out") ("cmdpipe-" ++ inp ++ "-in")
              ("cmdpipe-" ++ err ++ "-err") ("cmdpipe-" ++ ext ++ "-exit")).
Proof.
  destruct (rendezvous_addresses echoClient (fun _ _ => nobody) [] "command:echo"
              (Json.Marshal (descriptor echoClient 0))
              ltac:(vm_compute; auto))
    as (out & inp & err & ext & H1 & H2 & H3 & H4 & H5 & _).
  exists out, inp, err, ext. auto.
Defined.

(** ** Failures on a channel *)

(** C2 fails on the code: a dial that fails is logged, [dialAll] returns
    at once, and [Consume] panics at the first deferred [Close] of a
    connection left nil, before the name is looked at, so that the
    program of a descriptor of the allowed name is not run; an [Accept]
    that fails is logged, and the goroutine goes on to use the nil
    connection and panics, which ends the Dispatcher. *)
Theorem failure_on_a_channel_is_fatal :
  Consume (mkConsumer "echo") lonelyHost (Json.Marshal (descriptor echoClient 0))
  = (Panic,
     [EvPrint "%v\n" [Text (Json.Marshal (descriptor echoClient 0))];
      EvDial ROut "/tmp/cmdpipe-abcdef-out" false;
      EvLog "Error dialing output %s: %s" [Text "cmdpipe-abcdef-out"; ErrorText]])
  /\ Consume (mkConsumer "echo") deafExit (Json.Marshal (descriptor echoClient 0))
     = (Panic,
        [EvPrint "%v\n" [Text (Json.Marshal (descriptor echoClient 0))];
         EvDial ROut "/tmp/cmdpipe-abcdef-out" true;
         EvDial RIn "/tmp/cmdpipe-abcdef-in" true;
         EvDial RErr "/tmp/cmdpipe-abcdef-err" true;
         EvDial RExit "/tmp/cmdpipe-abcdef-exit" false;
         EvLog "Error dialing exit %s: %s" [Text "cmdpipe-abcdef-exit"; ErrorText];
         EvClose (mkConn RErr "/tmp/cmdpipe-abcdef-err");
         EvClose (mkConn RIn "/tmp/cmdpipe-abcdef-in");
         EvClose (mkConn ROut "/tmp/cmdpipe-abcdef-out")])
  /\ fst (Send echoClient inputRefused (initial [])) = Crashed
  /\ In (EvLog "err opening input socket: %s\n" [ErrorText])
        (trace (snd (Send echoClient inputRefused (initial [])))).
Proof.
  split; [vm_compute; reflexivity |].
  split; [vm_compute; reflexivity |].
  split; [vm_compute; reflexivity |].
  vm_compute. auto 30.
Qed.

(** C4 fails on the code: the descriptor of [send foo], delivered to an
    Executor that allows [bar] only and cannot dial the [out] address,
    is not rejected: [Consume] panics at the deferred [Close] of the nil
    connection before it compares the names. *)
Theorem mismatch_is_not_rejected_when_a_dial_fails :
  fst (Consume (mkConsumer "bar") lonelyHost (Json.Marshal (descriptor fooClient 0)))
  = Panic
  /\ rejections
       (snd (Consume (mkConsumer "bar") lonelyHost (Json.Marshal (descriptor fooClient 0))))
     = 0%nat
  /\ runs
       (snd (Consume (mkConsumer "bar") lonelyHost (Json.Marshal (descriptor fooClient 0))))
     = 0%nat.
Proof.
  repeat split; vm_compute; reflexivity.
Qed.

(** C8 fails on the code: when [Accept] fails on the [out] socket, the
    goroutine panics and the process ends without running the deferred
    calls of [Send]: no [os.Remove] is made, and the sockets of the
    other three channels stay in the file system. *)
Theorem sockets_left_when_accept_fails :
  fst (Send echoClient outputRefused (initial [])) = Crashed
  /\ files (snd (Send echoClient outputRefused (initial [])))
     = ["/tmp/cmdpipe-abcdef-exit"; "/tmp/cmdpipe-abcdef-in"; "/tmp/cmdpipe-abcdef-err"]
  /\ removals (trace (snd (Send echoClient outputRefused (initial [])))) = 0%nat.
Proof.
  repeat split; vm_compute; reflexivity.
Qed.

(** ** Further properties *)

(** Whenever [Send] returns or panics, its deferred calls have run: every
    file left was there before the call. *)
Theorem Send_leaves_no_file (cl : Client) (react : Reaction) (fs : list string)
    (p : string) :
  (exists code, fst (Send cl react (initial fs)) = Returned code)
  \/ fst (Send cl react (initial fs)) = Panicked ->
  In p (files (snd (Send cl react (initial fs)))) -> In p fs.
Proof.
  intros H Hp.
  destruct (Send_cases cl react (initial fs)) as [(_ & _ & F & _) | (_ & _ & _ & E)].
  - exact (F p Hp).
  - rewrite E in H, Hp. cbn [fst snd] in H, Hp. rewrite fst_finish in H.
    pose proof (extends_await cl react (sockets cl (drawn (initial fs)))
                  (atPublication cl (initial fs))) as (_ & F & _).
    destruct (await cl react _ (atPublication cl (initial fs))) as [r w] eqn:A.
    unfold finish in Hp. cbn [fst snd] in *.
    assert (In p (files (cleanup cl (sockets cl (drawn (initial fs))) w))) as C.
    { destruct r; cbn [fst snd outcome] in *; try exact Hp;
        destruct H as [[code H] | H]; discriminate H. }
    apply cleanup_files in C. destruct C as (C & N1 & N2 & N3 & N4).
    apply F in C. cbn [atPublication files initial In] in C.
    intuition congruence.
Qed.

Lemma Send_leaves_no_file_witness : In "/etc/hosts" ["/etc/hosts"].
Proof.
  apply (Send_leaves_no_file fooClient
           (fun _ _ => mkPeers (Connected "" false) (Connected "" false)
                         (Connected "" false) (Connected "3" false))
           ["/etc/hosts"] "/etc/hosts").
  - left. exists 3%Z. vm_compute. reflexivity.
  - vm_compute. auto.
Defined.

(** A descriptor of another name whose four addresses can be dialled is
    rejected once: the four connections are made, nothing is run,
    nothing is written, and the four connections are closed in the
    reverse order. *)
Theorem Consume_rejects_other_names (c : CommandConsumer) (h : Host)
    (payload : string) (d : Command) :
  Json.Unmarshal payload = Some d ->
  allDial h d = true ->
  Name d <> AllowedName c ->
  fst (Consume c h payload) = Ok tt
  /\ rejections (snd (Consume c h payload)) = 1%nat
  /\ runs (snd (Consume c h payload)) = 0%nat
  /\ writes (snd (Consume c h payload)) = 0%nat
  /\ exists before,
       snd (Consume c h payload)
       = (before ++ [EvReject; EvClose (exitConnOf h d); EvClose (errConnOf h d);
                     EvClose (inConnOf h d); EvClose (outConnOf h d)])%list.
Proof.
  intros Hd Ha Hn. rewrite (Consume_rejects c h payload d Hd Ha Hn).
  repeat split.
  eexists. unfold rejectEvents, closeEvents, dialEvents. cbn [app].
  repeat (rewrite app_comm_cons). 
  change ([EvReject; EvClose (exitConnOf h d); EvClose (errConnOf h d);
           EvClose (inConnOf h d); EvClose (outConnOf h d)])
    with ([EvReject] ++ [EvClose (exitConnOf h d); EvClose (errConnOf h d);
                         EvClose (inConnOf h d); EvClose (outConnOf h d)])%list.
  rewrite app_assoc. f_equal.
  instantiate (1 := [_; _; _; _; _; _; _]). reflexivity.
Qed.

Lemma Consume_rejects_other_names_witness :
  fst (Consume (mkConsumer "bar") busyHost (Json.Marshal (descriptor fooClient 0))) = Ok tt.
Proof.
  apply (Consume_rejects_other_names (mkConsumer "bar") busyHost
           (Json.Marshal (descriptor fooClient 0)) (descriptor fooClient 0)).
  - vm_compute. reflexivity.
  - vm_compute. reflexivity.
  - discriminate.
Defined.

(** A payload that is no descriptor is logged twice and dropped: nothing
    is dialled, nothing is rejected and nothing is run. *)
Theorem Consume_drops_malformed_payload (c : CommandConsumer) (h : Host)
    (payload : string) :
  Json.Unmarshal payload = None ->
  Consume c h payload
  = (Ok tt, [EvPrint "%v\n" [Text payload]; EvLog "Error %s" [ErrorText];
             EvLog "Problem unmarshalling payload %s" [Text payload]]).
Proof.
  intros H. unfold Consume. rewrite H. reflexivity.
Qed.

Lemma Consume_drops_malformed_payload_witness :
  Consume (mkConsumer "echo") lonelyHost "{"
  = (Ok tt, [EvPrint "%v\n" [Text "{"]; EvLog "Error %s" [ErrorText];
             EvLog "Problem unmarshalling payload %s" [Text "{"]]).
Proof.
  apply (Consume_drops_malformed_payload (mkConsumer "echo") lonelyHost "{").
  vm_compute. reflexivity.
Defined.

(** What the Executor decodes from the descriptor that was encoded: the
    descriptor with every byte sequence that is not UTF-8 replaced by
    U+FFFD, and a nil list read back as nil. *)
Theorem decoded_descriptor (c : Command) :
  Json.Unmarshal (Json.Marshal c) = Some (Json.coerce c).
Proof. apply Unmarshal_Marshal. Qed.

(** The text of an exit code reads back as the exit code. *)
Theorem exit_code_text (n : Z) :
  (Strconv.minInt <= n <= Strconv.maxInt)%Z ->
  Strconv.Atoi (Strconv.Itoa n) = Some n.
Proof. apply StrconvFacts.Atoi_Itoa. Qed.

Lemma exit_code_text_witness : Strconv.Atoi (Strconv.Itoa (-1)) = Some (-1)%Z.
Proof. apply (exit_code_text (-1)). vm_compute. split; discriminate. Defined.

(** ** The Executor, whatever it is delivered *)


Lemma dials_app (a b : list Event) : dials (a ++ b) = (dials a ++ dials b)%list.
Proof.
  induction a as [| e a IH]; [reflexivity |].
  destruct e as [| | ? ? [] | | | | | | | | | | | | | | | | |];
    cbn [app dials]; rewrite ?IH; reflexivity.
Qed.

(** [dialAll] dials in the order out, in, error, exit and stops at the
    first dial that fails: the connections it returns are those it made,
    in that order, a connection is nil as soon as an earlier one is, and
    the failure, if there is one, is the last dial and is logged once. *)
Theorem dialAll_stops_at_first_failure (h : Host) (d : Command) :
  made (fst (dialAll h d)) = dials (snd (dialAll h d))
  /\ (let '(o, i, e, x) := fst (dialAll h d) in
      (x <> None -> e <> None) /\ (e <> None -> i <> None)
      /\ (i <> None -> o <> None) /\ (x <> None <-> allDial h d = true))
  /\ failures (snd (dialAll h d)) = (if allDial h d then 0 else 1)%nat
  /\ logs (snd (dialAll h d)) = (if allDial h d then 0 else 1)%nat
  /\ (allDial h d = false ->
      exists before r addr format name,
        snd (dialAll h d)
        = (before ++ [EvDial r addr false; EvLog format [Text name; ErrorText]])%list
        /\ failures before = 0%nat /\ logs before = 0%nat).
Proof.
  unfold dialAll, allDial.
  destruct (h_dial h (inTemp (h_environ h) (Out d)));
    [destruct (h_dial h (inTemp (h_environ h) (In_ d)));
     [destruct (h_dial h (inTemp (h_environ h) (Error d)));
      [destruct (h_dial h (inTemp (h_environ h) (Exit d))) | ] | ] | ];
    cbn [negb andb fst snd made dials app failures logs filter List.length];
    (split; [reflexivity |]);
    (split; [repeat split; try congruence; try discriminate |]);
    (split; [reflexivity |]); (split; [reflexivity |]);
    intros H; try discriminate H.
  - exists [EvDial ROut (inTemp (h_environ h) (Out d)) true;
            EvDial RIn (inTemp (h_environ h) (In_ d)) true;
            EvDial RErr (inTemp (h_environ h) (Error d)) true].
    eexists _, _, _, _. repeat split.
  - exists [EvDial ROut (inTemp (h_environ h) (Out d)) true;
            EvDial RIn (inTemp (h_environ h) (In_ d)) true].
    eexists _, _, _, _. repeat split.
  - exists [EvDial ROut (inTemp (h_environ h) (Out d)) true].
    eexists _, _, _, _. repeat split.
  - exists []. eexists _, _, _, _. repeat split.
Qed.

Lemma runEvents_counts (c : CommandConsumer) (h : Host) (payload : string) (d : Command) :
  runs (runEvents c h payload d) = 1%nat
  /\ rejections (runEvents c h payload d) = 0%nat
  /\ (forall name args env,
         In (EvRun name args env) (runEvents c h payload d) ->
         name = AllowedName c /\ args = elems (Params d) /\ env = commandEnv h d)
  /\ (forall k data,
         In (EvWrite k data) (runEvents c h payload d) ->
         (k = outConnOf h d /\ data = fst (fst (execution c h d)))
         \/ (k = errConnOf h d /\ data = snd (fst (execution c h d)))
         \/ (k = exitConnOf h d
             /\ data = Strconv.Itoa (exitCodeOf (snd (execution c h d))))).
Proof.
  unfold runEvents. destruct (execution c h d) as [[so se] err].
  unfold dialEvents, closeEvents, runs, rejections.
  destruct err as [| sys |]; cbn [runLog app filter List.length fst snd];
    (split; [reflexivity |]); (split; [reflexivity |]); split;
    intros; cbn [In] in *;
    repeat match goal with
           | H : _ \/ _ |- _ => destruct H as [H | H]; try discriminate H
           | H : False |- _ => contradiction H
           end;
    match goal with H : _ = _ |- _ => injection H as <- <-; auto end.
Qed.

Lemma rejectEvents_counts (h : Host) (payload : string) (d : Command) :
  runs (rejectEvents h payload d) = 0%nat
  /\ rejections (rejectEvents h payload d) = 1%nat
  /\ writes (rejectEvents h payload d) = 0%nat.
Proof. repeat split. Qed.

(** The three ways [Consume] goes with a payload. *)
Lemma Consume_cases (c : CommandConsumer) (h : Host) (payload : string) :
  (Json.Unmarshal payload = None
   /\ Consume c h payload
      = (Ok tt, [EvPrint "%v\n" [Text payload]; EvLog "Error %s" [ErrorText];
                 EvLog "Problem unmarshalling payload %s" [Text payload]]))
  \/ (exists d, Json.Unmarshal payload = Some d /\ allDial h d = false
                /\ fst (Consume c h payload) = Panic
                /\ ~ In EvReject (snd (Consume c h payload))
                /\ (forall name args env,
                       ~ In (EvRun name args env) (snd (Consume c h payload))))
  \/ (exists d, Json.Unmarshal payload = Some d /\ allDial h d = true
                /\ Name d <> AllowedName c
                /\ Consume c h payload = (Ok tt, rejectEvents h payload d))
  \/ (exists d, Json.Unmarshal payload = Some d /\ allDial h d = true
                /\ Name d = AllowedName c
                /\ Consume c h payload = (Ok tt, runEvents c h payload d)).
Proof.
  destruct (Json.Unmarshal payload) as [d |] eqn:U.
  - destruct (allDial h d) eqn:A.
    + destruct (String.eqb_spec (Name d) (AllowedName c)) as [E | E].
      * right. right. right. exists d. auto using Consume_runs.
      * right. right. left. exists d. auto using Consume_rejects.
    + right. left. exists d.
      destruct (Consume_panics c h payload d U A) as (P & R & N & _). auto.
  - left. split; [reflexivity |]. unfold Consume. rewrite U. reflexivity.
Qed.

(** The Executor runs no program but its own: whatever the payload and
    whatever can be dialled, a program that [Consume] starts is the
    allowed one, with the parameters and the environment of a
    descriptor that names it and whose four addresses were dialled; it
    is started once, and the delivery is not rejected. *)
Theorem Consume_runs_only_the_allowed_program (c : CommandConsumer) (h : Host)
    (payload name : string) (args env : list string) :
  In (EvRun name args env) (snd (Consume c h payload)) ->
  name = AllowedName c
  /\ (exists d,
        Json.Unmarshal payload = Some d /\ Name d = AllowedName c
        /\ allDial h d = true /\ args = elems (Params d)
        /\ env = (Environ (h_environ h) ++ elems (Env d))%list)
  /\ runs (snd (Consume c h payload)) = 1%nat
  /\ rejections (snd (Consume c h payload)) = 0%nat.
Proof.
  intros H.
  destruct (Consume_cases c h payload)
    as [[_ E] | [(d & _ & _ & _ & _ & N) | [(d & _ & _ & _ & E) | (d & U & A & Hn & E)]]].
  - rewrite E in H. cbn in H. intuition discriminate.
  - now apply N in H.
  - rewrite E in H. cbn in H. intuition discriminate.
  - rewrite E in *. cbn [snd] in *.
    destruct (runEvents_counts c h payload d) as (R & J & Hr & _).
    destruct (Hr _ _ _ H) as (-> & -> & ->).
    split; [reflexivity |]. split; [| auto]. exists d. auto.
Qed.

Lemma Consume_runs_only_the_allowed_program_witness :
  "echo" = AllowedName (mkConsumer "echo").
Proof.
  apply (Consume_runs_only_the_allowed_program (mkConsumer "echo") busyHost
           (Json.Marshal (descriptor echoClient 0)) "echo" ["hi"]
           ["FOO=bar"; "X=1"]).
  vm_compute. auto 20.
Defined.

(** A delivery is rejected only for a descriptor of another name whose
    four addresses were dialled, and then once, with no program run and
    nothing written. *)
Theorem Consume_rejects_only_other_names (c : CommandConsumer) (h : Host)
    (payload : string) :
  In EvReject (snd (Consume c h payload)) ->
  (exists d,
      Json.Unmarshal payload = Some d /\ Name d <> AllowedName c
      /\ allDial h d = true)
  /\ rejections (snd (Consume c h payload)) = 1%nat
  /\ runs (snd (Consume c h payload)) = 0%nat
  /\ writes (snd (Consume c h payload)) = 0%nat.
Proof.
  intros H.
  destruct (Consume_cases c h payload)
    as [[_ E] | [(d & _ & _ & _ & R & _) | [(d & U & A & Hn & E) | (d & U & A & Hn & E)]]].
  - rewrite E in H. cbn in H. intuition discriminate.
  - contradiction.
  - rewrite E. cbn [snd]. split; [exists d; auto | repeat split].
  - exfalso. rewrite E in H. cbn [snd] in H.
    destruct (runEvents_counts c h payload d) as (_ & J & _).
    unfold rejections in J. apply List.length_zero_iff_nil in J.
    assert (In EvReject (filter (fun e => match e with EvReject => true | _ => false end)
                           (runEvents c h payload d))) as F
      by (apply filter_In; auto).
    rewrite J in F. exact F.
Qed.

Lemma Consume_rejects_only_other_names_witness :
  rejections (snd (Consume (mkConsumer "bar") busyHost
                     (Json.Marshal (descriptor fooClient 0)))) = 1%nat.
Proof.
  apply (Consume_rejects_only_other_names (mkConsumer "bar") busyHost
           (Json.Marshal (descriptor fooClient 0))).
  vm_compute. auto 20.
Defined.

(** [Consume] panics exactly when the payload is a descriptor one of
    whose four addresses cannot be dialled, whatever its name; it
    returns in every other case. *)
Theorem Consume_panics_exactly_on_a_failed_dial (c : CommandConsumer) (h : Host)
    (payload : string) :
  (fst (Consume c h payload) = Panic
   <-> exists d, Json.Unmarshal payload = Some d /\ allDial h d = false)
  /\ (fst (Consume c h payload) = Ok tt
      <-> Json.Unmarshal payload = None
          \/ exists d, Json.Unmarshal payload = Some d /\ allDial h d = true).
Proof.
  destruct (Consume_cases c h payload)
    as [[U E] | [(d & U & A & P & _) | [(d & U & A & _ & E) | (d & U & A & _ & E)]]];
    rewrite ?E, ?P, U; cbn [fst]; split; split;
      try discriminate; try (intros [d' [[= <-] A']]; congruence); eauto;
      try (intros [[=] | [d' [[= <-] A']]]; congruence);
      try (intros [d' [[=] _]]).
Qed.

(** Every connection [Consume] makes it closes, whether it returns or
    panics: the connections closed are those dialled, in the reverse
    order, and nothing is dialled after a connection was closed. *)
Theorem Consume_closes_what_it_dialled (c : CommandConsumer) (h : Host)
    (payload : string) :
  closes (snd (Consume c h payload)) = rev (dials (snd (Consume c h payload)))
  /\ exists before after,
       snd (Consume c h payload) = (before ++ after)%list
       /\ closes before = [] /\ dials after = []
       /\ after = map EvClose (closes (snd (Consume c h payload))).
Proof.
  destruct (Consume_cases c h payload)
    as [[_ E] | [(d & U & A & _) | [(d & _ & _ & _ & E) | (d & _ & _ & _ & E)]]].
  - rewrite E. cbn [snd]. split; [reflexivity |].
    eexists _, []. rewrite app_nil_r. repeat split.
  - unfold Consume. rewrite U. unfold allDial in A. unfold dialAll.
    destruct (h_dial h (inTemp (h_environ h) (Out d)));
      [destruct (h_dial h (inTemp (h_environ h) (In_ d)));
       [destruct (h_dial h (inTemp (h_environ h) (Error d)));
        [destruct (h_dial h (inTemp (h_environ h) (Exit d))); [discriminate A |] | ] | ] | ];
      cbn [negb emit deferClose fst snd app closes dials rev];
      (split; [reflexivity |]).
    + eexists [_; _; _; _; _; _], _. repeat split.
    + eexists [_; _; _; _; _], _. repeat split.
    + eexists [_; _; _; _], _. repeat split.
    + eexists [_; _; _], _. repeat split.
  - rewrite E. cbn [snd]. split; [reflexivity |].
    unfold rejectEvents, dialEvents, closeEvents. cbn [app].
    eexists [_; _; _; _; _; _; _; _], _. repeat split.
  - rewrite E. cbn [snd]. unfold runEvents.
    destruct (execution c h d) as [[so se] err].
    unfold dialEvents, closeEvents.
    destruct err as [| sys |]; cbn [runLog app closes dials rev];
      (split; [reflexivity |]).
    + eexists [_; _; _; _; _; _; _; _; _; _; _; _; _; _], _. repeat split.
    + eexists [_; _; _; _; _; _; _; _; _; _; _; _; _; _], _. repeat split.
    + eexists [_; _; _; _; _; _; _; _; _; _; _; _; _; _; _], _. repeat split.
Qed.

(** What the Executor writes on the [exit] connection is the decimal
    text of a code between -1 and 255, which [strconv.Atoi] reads back;
    it writes nothing on the [in] connection. *)
Theorem Consume_writes_an_exit_code (c : CommandConsumer) (h : Host)
    (payload data : string) (k : Conn) :
  In (EvWrite k data) (snd (Consume c h payload)) ->
  role k <> RIn
  /\ (role k = RExit ->
      exists code, (-1 <= code <= 255)%Z /\ data = Strconv.Itoa code
                   /\ Strconv.Atoi data = Some code).
Proof.
  intros H.
  destruct (Consume_cases c h payload)
    as [[_ E] | [(d & U & A & _) | [(d & _ & _ & _ & E) | (d & _ & _ & _ & E)]]].
  - rewrite E in H. cbn in H. intuition discriminate.
  - exfalso. revert H. unfold Consume. rewrite U. unfold allDial in A. unfold dialAll.
    destruct (h_dial h (inTemp (h_environ h) (Out d)));
      [destruct (h_dial h (inTemp (h_environ h) (In_ d)));
       [destruct (h_dial h (inTemp (h_environ h) (Error d)));
        [destruct (h_dial h (inTemp (h_environ h) (Exit d))); [discriminate A |] | ] | ] | ];
      cbn [negb emit deferClose fst snd app In]; intuition discriminate.
  - rewrite E in H. cbn in H. intuition discriminate.
  - rewrite E in H. cbn [snd] in H.
    destruct (runEvents_counts c h payload d) as (_ & _ & _ & W).
    destruct (W k data H) as [[-> ->] | [[-> ->] | [-> ->]]];
      (split; [discriminate |]); try discriminate.
    intros _. exists (exitCodeOf (snd (execution c h d))).
    split; [apply ExitFacts.exitCodeOf_range |]. split; [reflexivity |].
    apply StrconvFacts.Atoi_Itoa, ExitFacts.exitCodeOf_int.
Qed.

Lemma Consume_writes_an_exit_code_witness :
  role (mkConn RExit "/tmp/cmdpipe-abcdef-exit") <> RIn.
Proof.
  apply (Consume_writes_an_exit_code (mkConsumer "echo") busyHost
           (Json.Marshal (descriptor echoClient 0)) "0"
           (mkConn RExit "/tmp/cmdpipe-abcdef-exit")).
  vm_compute. auto 30.
Defined.

(** ** The Dispatcher, whatever the rest of the world does *)




Lemma removals_app (a b : list Event) : removals (a ++ b) = (removals a + removals b)%nat.
Proof. unfold removals. now rewrite filter_app, length_app. Qed.

Lemma disconnections_app (a b : list Event) :
  disconnections (a ++ b) = (disconnections a + disconnections b)%nat.
Proof. unfold disconnections. now rewrite filter_app, length_app. Qed.

Lemma quietly_record (evs : list Event) (w : World) :
  removals evs = 0%nat -> disconnections evs = 0%nat -> quietly w (record evs w).
Proof.
  intros R D. unfold quietly. cbn [record trace].
  rewrite removals_app, disconnections_app, R, D. lia.
Qed.

Lemma quietly_closeListener (path : string) (w : World) : quietly w (closeListener path w).
Proof.
  unfold quietly. cbn [closeListener trace].
  rewrite removals_app, disconnections_app. cbn. lia.
Qed.

Lemma quietly_trans (a b c : World) : quietly a b -> quietly b c -> quietly a c.
Proof. unfold quietly. intros [? ?] [? ?]. split; congruence. Qed.

Lemma quietly_refl (w : World) : quietly w w.
Proof. split; reflexivity. Qed.

Ltac quiet :=
  lazymatch goal with
  | |- quietly ?w ?w => apply quietly_refl
  | |- quietly ?w (closeListener ?p ?w') =>
    apply (quietly_trans w w'); [quiet | apply quietly_closeListener]
  | |- quietly ?w (record ?evs ?w') =>
    apply (quietly_trans w w'); [quiet | apply quietly_record; reflexivity]
  end.

(** How the goroutines end, and that they only relay. *)
Lemma relayFrom_end name sink path peer w :
  (forall data, removals [sink data] = 0%nat /\ disconnections [sink data] = 0%nat) ->
  fst (relayFrom name sink path peer w) = outEnd peer
  /\ quietly w (snd (relayFrom name sink path peer w)).
Proof.
  intros Hs.
  assert (forall data ok, removals [EvAccept path ok; sink data] = 0%nat
                          /\ disconnections [EvAccept path ok; sink data] = 0%nat) as H2.
  { intros data ok. destruct (Hs data) as [R D].
    change [EvAccept path ok; sink data] with ([EvAccept path ok] ++ [sink data])%list.
    now rewrite removals_app, disconnections_app, R, D. }
  destruct peer as [| | data rerr | data]; cbn [relayFrom fst snd outEnd];
    (split; [reflexivity |]).
  - quiet.
  - quiet.
  - destruct (H2 data true).
    apply (quietly_trans w (record [EvAccept path true; sink data] w));
      [apply quietly_record; assumption | apply quietly_closeListener].
  - destruct (H2 data true). apply quietly_record; assumption.
Qed.

Lemma relayTo_end cl path peer w :
  fst (relayTo cl path peer w) = inEnd (c_stdin cl) peer
  /\ quietly w (snd (relayTo cl path peer w)).
Proof.
  destruct peer; cbn [relayTo]; destruct (c_stdin cl); cbn [fst snd inEnd];
    (split; [reflexivity |]); quiet.
Qed.

Lemma exitTask_end path peer w :
  fst (exitTask path peer w) = exitEnd peer /\ quietly w (snd (exitTask path peer w)).
Proof.
  destruct peer as [| | buf rerr | data].
  - split; [reflexivity | cbn [exitTask snd]; quiet].
  - split; [reflexivity | cbn [exitTask snd]; quiet].
  - cbn [exitTask exitEnd].
    destruct rerr, (Strconv.Atoi buf); cbn [fst snd]; (split; [reflexivity |]); quiet.
  - split; [reflexivity | cbn [exitTask snd]; quiet].
Qed.

Lemma await_verdict (cl : Client) (react : Reaction) (socks : Sockets) (w : World) :
  fst (await cl react socks w) = verdict (c_stdin cl) (react socks w)
  /\ quietly w (snd (await cl react socks w)).
Proof.
  unfold await, verdict.
  destruct (relayFrom_end "output" EvStdout (s_out socks) (p_out (react socks w)) w
              (fun _ => conj eq_refl eq_refl)) as [E1 Q1].
  destruct (relayFrom "output" EvStdout _ _ w) as [o w1]. cbn [fst snd] in E1, Q1.
  destruct (relayFrom_end "error" EvStderr (s_err socks) (p_err (react socks w)) w1
              (fun _ => conj eq_refl eq_refl)) as [E2 Q2].
  destruct (relayFrom "error" EvStderr _ _ w1) as [e w2]. cbn [fst snd] in E2, Q2.
  destruct (relayTo_end cl (s_in socks) (p_in (react socks w)) w2) as [E3 Q3].
  destruct (relayTo cl _ _ w2) as [i w3]. cbn [fst snd] in E3, Q3.
  destruct (exitTask_end (s_exit socks) (p_exit (react socks w)) w3) as [E4 Q4].
  destruct (exitTask _ _ w3) as [x w4]. cbn [fst snd] in E4, Q4.
  rewrite <- E1, <- E2, <- E3, <- E4.
  assert (quietly w w2) as Q12 by eauto using quietly_trans.
  assert (quietly w w3) as Q13 by eauto using quietly_trans.
  assert (quietly w w4) as Q14 by eauto using quietly_trans.
  destruct o, e, i, x; cbn [fst snd]; (split; [reflexivity |]); try assumption.
  eapply quietly_trans; [exact Q14 | apply quietly_closeListener].
Qed.

Lemma finish_stuck (cl : Client) (s : Sockets) (r : Exec Z * World) :
  fst r = Crashes \/ fst r = Blocks -> finish cl s r = r.
Proof. unfold finish. intros [H | H]; rewrite H; reflexivity. Qed.

(** What a call of [Send] that has published comes to. *)
Lemma Send_verdict (cl : Client) (react : Reaction) (fs : list string) :
  (1 < List.length (c_args cl))%nat ->
  c_broker cl = true ->
  canListen cl 0 fs = true ->
  fst (Send cl react (initial fs))
  = outcome (verdict (c_stdin cl)
               (react (sockets cl 0) (atPublication cl (initial fs))))
  /\ (fst (Send cl react (initial fs)) = Crashed
      \/ fst (Send cl react (initial fs)) = Blocked ->
      removals (trace (snd (Send cl react (initial fs)))) = 0%nat
      /\ disconnections (trace (snd (Send cl react (initial fs)))) = 0%nat).
Proof.
  intros Ha Hb Hl. unfold Send.
  destruct (Nat.leb_spec (List.length (c_args cl)) 1) as [L | _]; [lia |].
  cbn [fst snd]. rewrite (sendBody_listening cl react (initial fs) Hb Hl).
  cbn [drawn initial]. rewrite fst_finish.
  destruct (await_verdict cl react (sockets cl 0) (atPublication cl (initial fs)))
    as [V Q].
  rewrite V. split; [reflexivity |].
  intros S. rewrite finish_stuck.
  - destruct Q as [-> ->]. split; reflexivity.
  - rewrite V.
    destruct (verdict (c_stdin cl) _); cbn [outcome] in S; auto;
      destruct S; discriminate.
Qed.

(** An [Accept] that fails ends the Dispatcher where it stands, whatever
    happens on the other sockets: on the [out], [err] or [exit] socket
    always, and on the [in] socket unless standard input yields neither
    data nor its end; [Send] does not return, none of its deferred calls
    runs, so that no socket is removed by [os.Remove] and the broker
    connection is not closed.  With a standard input that yields
    nothing, an [Accept] that fails on the [in] socket only leaves the
    goroutine waiting in [Read], and [Send] waits. *)
Theorem Send_crashes_when_accept_fails (cl : Client) (react : Reaction)
    (fs : list string) :
  (1 < List.length (c_args cl))%nat ->
  c_broker cl = true ->
  canListen cl 0 fs = true ->
  (p_out (react (sockets cl 0) (atPublication cl (initial fs))) = AcceptFails
   \/ p_err (react (sockets cl 0) (atPublication cl (initial fs))) = AcceptFails
   \/ p_exit (react (sockets cl 0) (atPublication cl (initial fs))) = AcceptFails
   \/ (p_in (react (sockets cl 0) (atPublication cl (initial fs))) = AcceptFails
       /\ c_stdin cl <> Silent) ->
   fst (Send cl react (initial fs)) = Crashed
   /\ removals (trace (snd (Send cl react (initial fs)))) = 0%nat
   /\ disconnections (trace (snd (Send cl react (initial fs)))) = 0%nat)
  /\ (p_in (react (sockets cl 0) (atPublication cl (initial fs))) = AcceptFails ->
      c_stdin cl = Silent ->
      p_out (react (sockets cl 0) (atPublication cl (initial fs))) <> AcceptFails ->
      p_err (react (sockets cl 0) (atPublication cl (initial fs))) <> AcceptFails ->
      p_exit (react (sockets cl 0) (atPublication cl (initial fs))) <> AcceptFails ->
      fst (Send cl react (initial fs)) = Blocked).
Proof.
  intros Ha Hb Hl. destruct (Send_verdict cl react fs Ha Hb Hl) as [V Q].
  split.
  - intros H.
    assert (fst (Send cl react (initial fs)) = Crashed) as C.
    { rewrite V.
      destruct (react (sockets cl 0) (atPublication cl (initial fs)))
        as [po pe pi px]; cbn [p_out p_err p_in p_exit] in H.
      unfold verdict. cbn [p_out p_err p_in p_exit].
      destruct H as [-> | [-> | [-> | [-> S]]]].
      - reflexivity.
      - destruct po; reflexivity.
      - destruct po, pe, pi, (c_stdin cl); reflexivity.
      - destruct po, pe, (c_stdin cl); try reflexivity; congruence. }
    split; [exact C |]. apply Q. now left.
  - intros Hi Hs Ho He Hx. rewrite V, Hs.
    destruct (react (sockets cl 0) (atPublication cl (initial fs)))
      as [po pe pi px]; cbn [p_out p_err p_in p_exit] in *. subst pi.
    unfold verdict. cbn [p_out p_err p_in p_exit].
    destruct po, pe, px; try congruence; cbn [outEnd inEnd exitEnd];
      try reflexivity;
      match goal with
      | |- context [Strconv.Atoi ?s] => destruct (Strconv.Atoi s); reflexivity
      end.
Qed.

Lemma Send_crashes_when_accept_fails_witness :
  fst (Send echoClient outputRefused (initial [])) = Crashed.
Proof.
  apply (Send_crashes_when_accept_fails echoClient outputRefused []).
  - cbn. lia.
  - reflexivity.
  - vm_compute. reflexivity.
  - left. reflexivity.
Defined.

(** [Send] waits without end, its four sockets still in the file system
    and its deferred calls not run, as long as one of its sockets has no
    peer (and no [Accept] fails): nothing in it times out. *)
Theorem Send_waits_for_every_channel (cl : Client) (react : Reaction)
    (fs : list string) :
  (1 < List.length (c_args cl))%nat ->
  c_broker cl = true ->
  canListen cl 0 fs = true ->
  accepted (react (sockets cl 0) (atPublication cl (initial fs))) = true ->
  served (react (sockets cl 0) (atPublication cl (initial fs))) = false ->
  fst (Send cl react (initial fs)) = Blocked
  /\ removals (trace (snd (Send cl react (initial fs)))) = 0%nat
  /\ disconnections (trace (snd (Send cl react (initial fs)))) = 0%nat.
Proof.
  intros Ha Hb Hl Hp Hs. destruct (Send_verdict cl react fs Ha Hb Hl) as [V Q].
  assert (fst (Send cl react (initial fs)) = Blocked) as B.
  { rewrite V.
    destruct (react (sockets cl 0) (atPublication cl (initial fs)))
      as [po pe pi px].
    unfold verdict, accepted, served in *. cbn [p_out p_err p_in p_exit] in *.
    destruct po, pe, pi, px; try discriminate Hp; try discriminate Hs;
      destruct (c_stdin cl); cbn [outEnd inEnd exitEnd]; try reflexivity;
      match goal with
      | |- context [Strconv.Atoi ?s] => destruct (Strconv.Atoi s); reflexivity
      end. }
  split; [exact B |]. apply Q. now right.
Qed.

Lemma Send_waits_for_every_channel_witness :
  fst (Send echoClient (fun _ _ => nobody) (initial [])) = Blocked.
Proof.
  apply (Send_waits_for_every_channel echoClient (fun _ _ => nobody) []).
  - cbn. lia.
  - reflexivity.
  - vm_compute. reflexivity.
  - reflexivity.
  - reflexivity.
Defined.

(** When the broker does not answer or one of the four sockets cannot be
    bound, [Send] panics before it has published anything, and the sockets it
    had bound are removed: no file is left that was not there; with no
    broker it has done nothing but try to connect. *)
Theorem Send_fails_before_publication (cl : Client) (react : Reaction)
    (fs : list string) :
  (1 < List.length (c_args cl))%nat ->
  c_broker cl && canListen cl 0 fs = false ->
  fst (Send cl react (initial fs)) = Panicked
  /\ published (snd (Send cl react (initial fs))) = []
  /\ (forall p, In p (files (snd (Send cl react (initial fs)))) -> In p fs)
  /\ (c_broker cl = false ->
      trace (snd (Send cl react (initial fs)))
      = [EvOpenConnection service "unix"
           (Path.Join [getTemp (c_environ cl); "redis.sock"]) 1]).
Proof.
  intros Ha E. unfold Send.
  destruct (Nat.leb_spec (List.length (c_args cl)) 1) as [L | _]; [lia |].
  cbn [fst snd].
  destruct (sendBody_failing cl react (initial fs) E) as (F & _ & Fs & P).
  rewrite F, P. repeat split; [exact Fs |].
  intros Hb. unfold sendBody, bind, OpenConnection. rewrite Hb. reflexivity.
Qed.

Lemma Send_fails_before_publication_witness :
  fst (Send (mkClient ["send"; "echo"] [] Terminal letters false (fun _ => true))
         (fun _ _ => nobody) (initial []))
  = Panicked.
Proof.
  apply (Send_fails_before_publication
           (mkClient ["send"; "echo"] [] Terminal letters false (fun _ => true))
           (fun _ _ => nobody) []).
  - cbn. lia.
  - reflexivity.
Defined.

(** [os.Remove] is deferred before [net.Listen] is called: when a file
    is already at the path of the [out] socket, [Listen] fails, [Send]
    panics, and the deferred call removes that file, which [Send] did
    not create. *)
Theorem Send_removes_the_file_in_its_way (cl : Client) (react : Reaction)
    (fs : list string) :
  (1 < List.length (c_args cl))%nat ->
  c_broker cl = true ->
  In (s_out (sockets cl 0)) fs ->
  fst (Send cl react (initial fs)) = Panicked
  /\ ~ In (s_out (sockets cl 0)) (files (snd (Send cl react (initial fs))))
  /\ trace (snd (Send cl react (initial fs)))
     = [EvOpenConnection service "unix"
          (Path.Join [getTemp (c_environ cl); "redis.sock"]) 1;
        EvOpenQueue (getQueueName (commandName cl));
        EvListen (s_out (sockets cl 0)) false;
        EvRemove (s_out (sockets cl 0)) true;
        EvCloseConnection].
Proof.
  intros Ha Hb Hin. unfold Send.
  destruct (Nat.leb_spec (List.length (c_args cl)) 1) as [L | _]; [lia |].
  cbn [fst snd].
  assert (present (s_out (sockets cl 0)) fs = true) as P.
  { unfold present. apply existsb_exists. exists (s_out (sockets cl 0)).
    split; [exact Hin | apply String.eqb_refl]. }
  unfold sockets, outSock in *. cbn [s_out] in *.
  unfold sendBody, bind, defer, OpenConnection, say, genSocket, listenOrPanic.
  rewrite Hb. cbn [files listeners drawn published trace record initial].
  rewrite P. cbn [orb fst snd outcome].
  unfold closeConnection, osRemove, record.
  cbn [files listeners drawn published trace app]. rewrite P.
  repeat split. rewrite in_without. tauto.
Qed.

Lemma Send_removes_the_file_in_its_way_witness :
  fst (Send echoClient (fun _ _ => nobody) (initial ["/tmp/cmdpipe-abcdef-out"]))
  = Panicked.
Proof.
  apply (Send_removes_the_file_in_its_way echoClient (fun _ _ => nobody)
           ["/tmp/cmdpipe-abcdef-out"]).
  - cbn. lia.
  - reflexivity.
  - vm_compute. auto.
Defined.

(** ** Queues *)

Lemma getQueueName_inj (a b : string) : getQueueName a = getQueueName b -> a = b.
Proof. unfold getQueueName. cbn. intros H. now injection H. Qed.

Lemma Send_unserved (cl : Client) (react : Reaction) (fs : list string) :
  (1 < List.length (c_args cl))%nat ->
  c_broker cl = true ->
  canListen cl 0 fs = true ->
  react (sockets cl 0) (atPublication cl (initial fs)) = nobody ->
  Send cl react (initial fs) = (Blocked, atPublication cl (initial fs)).
Proof.
  intros Ha Hb Hl Hr. unfold Send.
  destruct (Nat.leb_spec (List.length (c_args cl)) 1) as [L | _]; [lia |].
  rewrite (sendBody_listening cl react (initial fs) Hb Hl).
  cbn [drawn initial]. unfold finish, await. rewrite Hr. reflexivity.
Qed.

(** The queue is named after the command, and different commands have
    different queues: an Executor started for one command is delivered
    nothing of what [Send] publishes for another, so that [Send] waits
    without end at the point where it has published, its four sockets
    listening. *)
Theorem other_commands_are_not_delivered (cl : Client) (prog allowed : string)
    (environ : list (string * string))
    (run : string -> list string -> list string -> string -> string * string * RunError)
    (fs : list string) :
  (1 < List.length (c_args cl))%nat ->
  c_broker cl = true ->
  canListen cl 0 fs = true ->
  allowed <> commandName cl ->
  exchange cl [prog; allowed] environ run fs
  = (Blocked, atPublication cl (initial fs))
  /\ published (atPublication cl (initial fs))
     = [(getQueueName (commandName cl), Json.Marshal (descriptor cl 0))]
  /\ option_map fst (Receive [prog; allowed]) = Some (getQueueName allowed)
  /\ getQueueName allowed <> getQueueName (commandName cl).
Proof.
  intros Ha Hb Hl Hn.
  assert (getQueueName allowed <> getQueueName (commandName cl)) as Q
    by (intros E; apply Hn, getQueueName_inj, E).
  repeat split; [| exact Q].
  apply Send_unserved; auto.
  unfold brokered, Receive. cbn [List.length Nat.leb nth].
  unfold atPublication. cbn [published initial firstOn].
  apply not_eq_sym, String.eqb_neq in Q. now rewrite Q.
Qed.

Lemma other_commands_are_not_delivered_witness :
  exchange fooClient ["receive"; "bar"] [] programs []
  = (Blocked, atPublication fooClient (initial [])).
Proof.
  apply (other_commands_are_not_delivered fooClient "receive" "bar" [] programs []).
  - cbn. lia.
  - reflexivity.
  - vm_compute. reflexivity.
  - discriminate.
Defined.

(** ** What an exchange relays and leaves *)






(** ** Paths *)

Lemma drop_app (a b : string) : drop (String.length a) (a ++ b) = b.
Proof. induction a as [| c a IH]; [now destruct b | exact IH]. Qed.

Lemma element_app (e x : string) :
  contains "/" e = false -> Path.endOrSlash x = true -> Path.element (e ++ x) = e.
Proof.
  induction e as [| c e IH]; intros He Hx.
  - destruct x as [| c x]; [reflexivity |]. cbn in Hx |- *. now rewrite Hx.
  - cbn [contains] in He. apply orb_false_iff in He. destruct He as [Hc He].
    cbn [append Path.element]. rewrite Hc, IH by assumption. reflexivity.
Qed.

Lemma endOrSlash_absolute (l : list string) : Path.endOrSlash (absolute l) = true.
Proof. destruct l; reflexivity. Qed.

Lemma simple_spec (e : string) :
  simple e = true ->
  exists c e', e = String c e' /\ Ascii.eqb c "." = false
               /\ Ascii.eqb c "/" = false /\ contains "/" e' = false.
Proof.
  destruct e as [| c e']; [discriminate |]. cbn [simple contains].
  intros H. apply andb_true_iff in H. destruct H as [H1 H2].
  apply negb_true_iff in H1, H2. apply orb_false_iff in H2. destruct H2.
  exists c, e'. auto.
Qed.

Lemma length_absolute (l : list string) :
  forallb simple l = true -> (2 * List.length l <= String.length (absolute l))%nat.
Proof.
  induction l as [| e l IH]; intros H; [cbn; lia |].
  cbn [forallb] in H. apply andb_true_iff in H. destruct H as [He Hl].
  destruct (simple_spec e He) as (c & e' & -> & _).
  cbn [absolute append String.length List.length].
  rewrite length_append. specialize (IH Hl). lia.
Qed.

(** One element read by the main loop of [path.Clean]. *)
Lemma cleanLoop_element (fuel : nat) (e x out : string) (dotdot : nat) :
  simple e = true -> Path.endOrSlash x = true ->
  Path.cleanLoop (S fuel) true (e ++ x) out dotdot
  = Path.cleanLoop fuel true x
      ((if (String.length out =? 1)%nat then out else out ++ "/") ++ e) dotdot.
Proof.
  intros He Hx. destruct (simple_spec e He) as (c & e' & -> & Hd & Hs & Hc).
  assert (Path.element (String c e' ++ x) = String c e') as El
    by (apply element_app; [cbn [contains]; now rewrite Hs, Hc | exact Hx]).
  change (String c e' ++ x) with (String c (e' ++ x)) in *.
  cbn [Path.cleanLoop]. rewrite Hs, Hd. cbn [andb orb negb]. rewrite El.
  change (String c (e' ++ x)) with (String c e' ++ x).
  rewrite drop_app. destruct (String.length out =? 1)%nat; reflexivity.
Qed.

Lemma cleanLoop_absolute (rest : list string) :
  forall (fuel : nat) (e out : string) (dotdot : nat),
    simple e = true -> forallb simple rest = true ->
    (2 * List.length rest < fuel)%nat ->
    Path.cleanLoop fuel true (e ++ absolute rest) out dotdot
    = (if (String.length out =? 1)%nat then out else out ++ "/") ++ e ++ absolute rest.
Proof.
  induction rest as [| r rest IH]; intros fuel e out dotdot He Hr Hf.
  - destruct fuel as [| fuel]; [lia |].
    rewrite cleanLoop_element by (exact He || reflexivity).
    cbn [absolute]. rewrite append_nil_r. destruct fuel; reflexivity.
  - cbn [forallb] in Hr. apply andb_true_iff in Hr. destruct Hr as [Hr Hrest].
    cbn [List.length] in Hf.
    destruct fuel as [| [| fuel]]; try lia.
    rewrite cleanLoop_element by (exact He || apply endOrSlash_absolute).
    cbn [absolute]. change ("/" ++ r ++ absolute rest) with (String "/" (r ++ absolute rest)).
    cbn [Path.cleanLoop]. cbn [Ascii.eqb Bool.eqb andb].
    rewrite IH by (assumption || lia).
    destruct (simple_spec e He) as (c & e' & -> & _).
    assert ((String.length ((if (String.length out =? 1)%nat then out else out ++ "/")
                            ++ String c e') =? 1)%nat = false) as L.
    { apply Nat.eqb_neq. rewrite length_append. cbn [String.length].
      destruct (Nat.eqb_spec (String.length out) 1) as [E | E];
        [| rewrite length_append; cbn [String.length]]; lia. }
    rewrite L, !append_assoc. reflexivity.
Qed.

Lemma Clean_absolute (l : list string) :
  l <> [] -> forallb simple l = true -> Path.Clean (absolute l) = absolute l.
Proof.
  destruct l as [| e rest]; [congruence |]. intros _ H.
  cbn [forallb] in H. apply andb_true_iff in H. destruct H as [He Hr].
  cbn [absolute]. change ("/" ++ e ++ absolute rest) with (String "/" (e ++ absolute rest)).
  unfold Path.Clean. cbn [Ascii.eqb Bool.eqb andb drop].
  rewrite cleanLoop_absolute; try assumption.
  - reflexivity.
  - cbn [String.length]. rewrite length_append.
    pose proof (length_absolute rest Hr).
    destruct (simple_spec e He) as (c & e' & -> & _). cbn [String.length]. lia.
Qed.

Lemma absolute_app (a b : list string) : absolute (a ++ b) = absolute a ++ absolute b.
Proof.
  induction a as [| e a IH]; [reflexivity |].
  cbn [app absolute]. rewrite IH.
  change ("/" ++ e ++ absolute a ++ absolute b) with (String "/" (e ++ absolute a ++ absolute b)).
  change ("/" ++ e ++ absolute a) with (String "/" (e ++ absolute a)).
  cbn [append]. now rewrite append_assoc.
Qed.

Lemma joinBuf_two (c : ascii) (d name : string) :
  Path.joinBuf "" [String c d; name] = (String c d ++ "/") ++ name.
Proof. reflexivity. Qed.

(** [path.Join] of a clean absolute directory and a simple name is the
    directory, a slash and the name. *)
Lemma Join_absolute (l : list string) (name : string) :
  l <> [] -> forallb simple l = true -> simple name = true ->
  Path.Join [absolute l; name] = absolute l ++ "/" ++ name.
Proof.
  intros Hl Hs Hn. unfold Path.Join.
  destruct l as [| e rest]; [congruence |].
  change (absolute (e :: rest)) with (String "/" (e ++ absolute rest)).
  cbn [forallb String.eqb andb]. rewrite joinBuf_two.
  change (String "/" (e ++ absolute rest)) with (absolute (e :: rest)).
  rewrite append_assoc.
  replace (absolute (e :: rest) ++ "/" ++ name) with (absolute ((e :: rest) ++ [name])).
  - rewrite Clean_absolute; [reflexivity | discriminate |].
    rewrite forallb_app, Hs. cbn. now rewrite Hn.
  - rewrite absolute_app. cbn [absolute]. now rewrite append_nil_r.
Qed.

Lemma inTemp_absolute (environ : list (string * string))
    (l : list string) (name : string) :
  l <> [] -> forallb simple l = true -> getTemp environ = absolute l ->
  simple name = true ->
  inTemp environ name = getTemp environ ++ "/" ++ name.
Proof.
  intros Hl Hs Ht Hn. unfold inTemp. rewrite Ht. now apply Join_absolute.
Qed.

(** A name joined under the base directory is in that directory: when
    the base directory is a clean absolute path and the name a simple
    one, [inTemp] is the directory, a slash and the name. *)
Theorem inTemp_in_the_base_directory (environ : list (string * string))
    (l : list string) (name : string) :
  l <> [] -> forallb simple l = true -> getTemp environ = absolute l ->
  simple name = true ->
  inTemp environ name = getTemp environ ++ "/" ++ name.
Proof. apply inTemp_absolute. Qed.

Lemma inTemp_in_the_base_directory_witness :
  inTemp [] "redis.sock" = getTemp [] ++ "/" ++ "redis.sock".
Proof.
  apply (inTemp_in_the_base_directory [] ["tmp"] "redis.sock");
    [discriminate | reflexivity | reflexivity | reflexivity].
Defined.

Lemma drop_socket (random : nat -> ascii) (pos : nat) (pipeType : string) :
  drop 15 (genCommandPipeSocket random pos pipeType) = pipeType.
Proof.
  unfold genCommandPipeSocket.
  change (drop 15 ("cmdpipe-" ++ RandStringBytesMaskImprSrc random pos 6 ++ "-" ++ pipeType))
    with (drop 7 (RandStringBytesMaskImprSrc random pos 6 ++ "-" ++ pipeType)).
  unfold RandStringBytesMaskImprSrc. reflexivity.
Qed.

(** The names of the sockets tell the channels apart whatever the random
    source draws: a name is [cmdpipe-], six characters, a dash and the
    role, so that two names of different roles differ, and the four
    addresses of the descriptor [Send] publishes are pairwise distinct. *)
Theorem socket_names_tell_the_channels (random : nat -> ascii) :
  (forall pos pipeType,
      String.length (genCommandPipeSocket random pos pipeType)
      = (15 + String.length pipeType)%nat)
  /\ (forall pos pos' pipeType pipeType',
         genCommandPipeSocket random pos pipeType
         = genCommandPipeSocket random pos' pipeType' ->
         pipeType = pipeType')
  /\ forall args environ stdin broker bind n,
       NoDup [Out (descriptor (mkClient args environ stdin random broker bind) n);
              In_ (descriptor (mkClient args environ stdin random broker bind) n);
              Error (descriptor (mkClient args environ stdin random broker bind) n);
              Exit (descriptor (mkClient args environ stdin random broker bind) n)].
Proof.
  assert (forall pos pos' pipeType pipeType',
             genCommandPipeSocket random pos pipeType
             = genCommandPipeSocket random pos' pipeType' ->
             pipeType = pipeType') as Inj.
  { intros pos pos' t t' H. apply (f_equal (drop 15)) in H.
    now rewrite !drop_socket in H. }
  split; [| split; [exact Inj |]].
  - intros pos t. unfold genCommandPipeSocket.
    rewrite !length_append, RandString_length. reflexivity.
  - intros args environ stdin broker bind n.
    unfold descriptor, outSock, inSock, errSock, exitSock.
    cbn [Out In_ Error Exit c_random].
    repeat constructor; cbn [In]; intros H;
      repeat match goal with
             | H : _ \/ _ |- _ => destruct H as [H | H]
             | H : False |- _ => contradiction H
             | H : genCommandPipeSocket _ _ _ = genCommandPipeSocket _ _ _ |- _ =>
               apply Inj in H; discriminate H
             end.
Qed.

Lemma rand_simple (random : nat -> ascii) :
  (forall i, random i <> "/"%char) ->
  forall n pos, contains "/" (RandStringBytesMaskImprSrc random pos n) = false.
Proof.
  intros H. unfold RandStringBytesMaskImprSrc.
  induction n as [| n IH]; intros pos; [reflexivity |].
  cbn [seq map string_of_list_ascii contains]. rewrite IH.
  specialize (H pos). apply Ascii.eqb_neq in H. now rewrite H.
Qed.

Lemma socket_simple (random : nat -> ascii) (pos : nat) (pipeType : string) :
  (forall i, random i <> "/"%char) -> contains "/" pipeType = false ->
  simple (genCommandPipeSocket random pos pipeType) = true.
Proof.
  intros H Ht. unfold genCommandPipeSocket.
  change ("cmdpipe-" ++ RandStringBytesMaskImprSrc random pos 6 ++ "-" ++ pipeType)
    with (String "c" ("mdpipe-" ++ RandStringBytesMaskImprSrc random pos 6 ++ "-" ++ pipeType)).
  unfold simple.
  change (String "c" ("mdpipe-" ++ RandStringBytesMaskImprSrc random pos 6 ++ "-" ++ pipeType))
    with ("cmdpipe-" ++ RandStringBytesMaskImprSrc random pos 6 ++ "-" ++ pipeType).
  rewrite !contains_app, rand_simple, Ht by exact H. reflexivity.
Qed.

Lemma append_cancel (a b c : string) : a ++ b = a ++ c -> b = c.
Proof.
  induction a as [| x a IH]; cbn [append]; intros H; [exact H |].
  injection H as H. auto.
Qed.

Lemma absent_present (p : string) (l : list string) : ~ In p l -> present p l = false.
Proof.
  intros H. unfold present. destruct (existsb (String.eqb p) l) eqn:E; [| reflexivity].
  apply existsb_exists in E. destruct E as (q & I & E).
  apply String.eqb_eq in E. subst q. contradiction.
Qed.

(** The four sockets of an invocation are in the base directory, under
    four different paths, whatever the random source draws but a slash;
    so the four calls of [Listen] succeed as soon as these paths are
    free and may be bound: the sockets of one invocation never collide
    with one another. *)
Theorem sockets_in_the_base_directory (cl : Client) (n : nat) (l fs : list string) :
  l <> [] -> forallb simple l = true -> getTemp (c_environ cl) = absolute l ->
  (forall i, c_random cl i <> "/"%char) ->
  sockets cl n
  = mkSockets (getTemp (c_environ cl) ++ "/" ++ outSock cl n)
      (getTemp (c_environ cl) ++ "/" ++ errSock cl n)
      (getTemp (c_environ cl) ++ "/" ++ inSock cl n)
      (getTemp (c_environ cl) ++ "/" ++ exitSock cl n)
  /\ NoDup [s_out (sockets cl n); s_err (sockets cl n); s_in (sockets cl n);
            s_exit (sockets cl n)]
  /\ ((forall p,
          In p [s_out (sockets cl n); s_err (sockets cl n); s_in (sockets cl n);
                s_exit (sockets cl n)] ->
          ~ In p fs /\ c_bind cl p = true) ->
      canListen cl n fs = true).
Proof.
  intros Hl Hs Ht Hr.
  assert (sockets cl n
          = mkSockets (getTemp (c_environ cl) ++ "/" ++ outSock cl n)
              (getTemp (c_environ cl) ++ "/" ++ errSock cl n)
              (getTemp (c_environ cl) ++ "/" ++ inSock cl n)
              (getTemp (c_environ cl) ++ "/" ++ exitSock cl n)) as S.
  { unfold sockets, outSock, errSock, inSock, exitSock.
    rewrite !(inTemp_absolute (c_environ cl) l) by
      (assumption || (apply socket_simple; [exact Hr | reflexivity])).
    reflexivity. }
  assert (NoDup [s_out (sockets cl n); s_err (sockets cl n); s_in (sockets cl n);
                 s_exit (sockets cl n)]) as ND.
  { rewrite S. cbn [s_out s_err s_in s_exit].
    unfold outSock, errSock, inSock, exitSock.
    repeat constructor; cbn [In]; intros H;
      repeat match goal with
             | H : _ \/ _ |- _ => destruct H as [H | H]
             | H : False |- _ => contradiction H
             | H : _ ++ _ = _ ++ _ |- _ =>
               apply append_cancel, append_cancel, (f_equal (drop 15)) in H;
               rewrite !drop_socket in H; discriminate H
             end. }
  split; [exact S |]. split; [exact ND |].
  intros H. destruct (NoDup4 _ _ _ _ ND) as (D1 & D2 & D3 & D4 & D5 & D6).
  unfold canListen, canBind.
  revert H D1 D2 D3 D4 D5 D6.
  generalize (s_out (sockets cl n)) (s_err (sockets cl n)) (s_in (sockets cl n))
    (s_exit (sockets cl n)).
  intros a b c d H D1 D2 D3 D4 D5 D6.
  destruct (H a ltac:(cbn; auto)) as [Fa Ba].
  destruct (H b ltac:(cbn; auto)) as [Fb Bb].
  destruct (H c ltac:(cbn; auto)) as [Fc Bc].
  destruct (H d ltac:(cbn; auto)) as [Fd Bd].
  rewrite Ba, Bb, Bc, Bd.
  rewrite !absent_present; [reflexivity | ..]; cbn [In]; intuition congruence.
Qed.

Lemma sockets_in_the_base_directory_witness :
  canListen echoClient 0 ["/tmp/redis.sock"] = true.
Proof.
  apply (sockets_in_the_base_directory echoClient 0 ["tmp"] ["/tmp/redis.sock"]).
  - discriminate.
  - reflexivity.
  - reflexivity.
  - intros i. unfold echoClient, letters. cbn [c_random].
    destruct (Nat.modulo i 6) as [| [| [| [| [| ?]]]]]; discriminate.
  - vm_compute. intros p H.
    repeat (destruct H as [<- | H]; [split; [intros [E | []]; discriminate E | reflexivity] |]).
    contradiction.
Defined.

(** ** Payloads *)

Lemma coerce_valid (c : Command) : Json.validCommand c = true -> Json.coerce c = c.
Proof.
  intros H. unfold Json.validCommand in H.
  repeat match type of H with
         | _ && _ = true => apply andb_true_iff in H; destruct H as [H ?]
         end.
  destruct c as [n p e o i er ex]. unfold Json.coerce.
  cbn [Name Params Env Out In_ Error Exit] in *.
  rewrite !ToValidUTF8_valid, !coerceSlice_valid by assumption. reflexivity.
Qed.

(** Descriptors whose strings are valid UTF-8 are told apart by their
    payloads: two of them with the same encoding are equal. *)
Theorem Marshal_injective (c1 c2 : Command) :
  Json.validCommand c1 = true -> Json.validCommand c2 = true ->
  Json.Marshal c1 = Json.Marshal c2 -> c1 = c2.
Proof.
  intros H1 H2 E.
  assert (Some (Json.coerce c1) = Some (Json.coerce c2)) as S
    by (rewrite <- !Unmarshal_Marshal; now rewrite E).
  assert (Json.coerce c1 = Json.coerce c2) as C by congruence.
  now rewrite !coerce_valid in C.
Qed.

Lemma Marshal_injective_witness :
  mkCommand "echo" (Slice []) NilSlice "o" "i" "e" "x"
  = mkCommand "echo" (Slice []) NilSlice "o" "i" "e" "x".
Proof.
  apply (Marshal_injective (mkCommand "echo" (Slice []) NilSlice "o" "i" "e" "x")
           (mkCommand "echo" (Slice []) NilSlice "o" "i" "e" "x"));
    reflexivity.
Defined.

(** ** Names and inputs an exchange does not survive *)

(** C1, as stated, fails.  A command name is any bytes: for the name
    [E9 74], allowed by the Executor and given to [Send], a program that
    exits with code 0 is not even run, since [json.Marshal] writes the
    byte that is not UTF-8 as U+FFFD and the name decoded differs from
    the allowed one; the delivery is rejected and [Send] returns -1, not
    0.  And with a standard input on which nothing ever comes, [Send]
    returns nothing at all, whatever the Executor does. *)
Lemma exit_status_not_for_every_name :
  commandName latinClient = nth 1 ["receive"; String (byteOf 0xE9) "t"] ""
  /\ succeeds (commandName latinClient) [] [] "" = ("", "", runError (Exits 0))
  /\ fst (exchange latinClient ["receive"; String (byteOf 0xE9) "t"] [] succeeds [])
     = Returned (-1)
  /\ fst (exchange latinClient ["receive"; String (byteOf 0xE9) "t"] [] succeeds [])
     <> Returned (status (Exits 0))
  /\ rejections
       (snd (serve ["receive"; String (byteOf 0xE9) "t"] [] succeeds latinClient
               (Json.Marshal (descriptor latinClient 0)) (sockets latinClient 0)
               (atPublication latinClient (initial [])))) = 1%nat
  /\ runs
       (snd (serve ["receive"; String (byteOf 0xE9) "t"] [] succeeds latinClient
               (Json.Marshal (descriptor latinClient 0)) (sockets latinClient 0)
               (atPublication latinClient (initial [])))) = 0%nat
  /\ forall react code, fst (Send silentClient react (initial [])) <> Returned code.
Proof.
  split; [reflexivity |]. split; [reflexivity |].
  split; [vm_compute; reflexivity |].
  split; [vm_compute; discriminate |].
  split; [vm_compute; reflexivity |].
  split; [vm_compute; reflexivity |].
  intros react code H.
  destruct (Send_verdict silentClient react [] ltac:(cbn; lia) eq_refl
              ltac:(vm_compute; reflexivity)) as [V _].
  rewrite V in H. revert H. unfold verdict.
  destruct (react (sockets silentClient 0) (atPublication silentClient (initial [])))
    as [po pe pi px].
  cbn [p_out p_err p_in p_exit c_stdin silentClient].
  destruct po, pe, pi, px; cbn [outEnd inEnd exitEnd outcome];
    try match goal with
        | |- context [Strconv.Atoi ?s] => destruct (Strconv.Atoi s)
        end;
    discriminate.
Qed.
